(** * sitator.site_descriptors.SOAP: the descriptor-averaging engine

    A shallow embedding of [SOAPDescriptorAverages] (constructor and
    [_get_descriptors]) and the properties of its occupancy counter,
    averaging planner, streaming accumulator and output assembler.

    Conventions of the embedding:
    - numpy integer arrays are [list Z], boolean arrays [list bool];
      fancy indexing follows Python's rules (negative indices count from
      the end, out-of-range raises [IndexError], a repeated index in an
      in-place update is written once, the last write winning);
    - floating point numbers are exact rationals, plus one absorbing
      non-finite value standing for numpy's [inf]/[nan];
    - Python exceptions are the [Raise] branch of [result]; the logger is
      a list of records threaded through the run. *)

From Stdlib Require Import ZArith QArith Qround Lia Sorted.
From stdpp Require Import base list strings gmap.

Open Scope Z_scope.

(** ** Python outcomes *)

Inductive exn :=
| AssertionError | RuntimeError | TypeError | ValueError
| IndexError | OverflowError.

Inductive result (A : Type) :=
| Ok (a : A)
| Raise (e : exn).
Arguments Ok {A} a.
Arguments Raise {A} e.

Definition rbind {A B} (m : result A) (f : A -> result B) : result B :=
  match m with
  | Ok a => f a
  | Raise e => Raise e
  end.

Notation "'let*' x ':=' m 'in' k" := (rbind m (fun x => k))
  (at level 10, x pattern, m at level 100, k at level 200).

Definition raises {A} (r : result A) : Prop := exists e, r = Raise e.

(** ** Constructor *)

(** Python values as the constructor sees them: [isinstance(v, int)]
    holds exactly for [PyInt] (which therefore also stands for [True] and
    [False], the ints 1 and 0); everything else is [PyOther]. *)
Inductive pyval :=
| PyInt (z : Z)
| PyOther.

Record SOAPDescriptorAverages := mkSOAPDescriptorAverages {
  _stepsize : Z;
  _averaging : option Z;
  _avg_desc_per_site : option Z
}.

Definition averaging_key : string := "averaging".
Definition stepsize_key : string := "stepsize".
Definition avg_desc_per_key : string := "avg_descriptors_per_site".

(** The loop over [d.items()]: the first entry that is not an int raises
    [TypeError], the first int that is not positive raises [ValueError]. *)
Fixpoint check_items (d : list (string * pyval)) : result unit :=
  match d with
  | [] => Ok tt
  | (_, v) :: d' =>
      match v with
      | PyOther => Raise TypeError
      | PyInt z => if 0 <? z then check_items d' else Raise ValueError
      end
  end.

Definition int_of (v : pyval) : Z :=
  match v with PyInt z => z | PyOther => 0 end.

Section Constructor.

(** [SOAP.__init__], the base-class constructor, receives the positional
    arguments and the keyword arguments left after the pops. Its own
    checks (tracer species, environment list, backend) are independent of
    the averaging parameters. *)
Variable SOAP__init__ : list pyval -> gmap string pyval -> result unit.

Definition __init__ (args : list pyval) (kwargs : gmap string pyval)
  : result SOAPDescriptorAverages :=
  if bool_decide (is_Some (kwargs !! averaging_key)
                  /\ is_Some (kwargs !! avg_desc_per_key))
  then Raise AssertionError
  else
    let stepsize := default (PyInt 1) (kwargs !! stepsize_key) in
    let kwargs := delete stepsize_key kwargs in
    match kwargs !! averaging_key with
    | Some v =>
        let kwargs := delete averaging_key kwargs in
        let* _ := check_items [(stepsize_key, stepsize); (averaging_key, v)] in
        let* _ := SOAP__init__ args kwargs in
        Ok (mkSOAPDescriptorAverages (int_of stepsize) (Some (int_of v)) None)
    | None =>
        match kwargs !! avg_desc_per_key with
        | Some v =>
            let kwargs := delete avg_desc_per_key kwargs in
            let* _ := check_items [(stepsize_key, stepsize); (avg_desc_per_key, v)] in
            let* _ := SOAP__init__ args kwargs in
            Ok (mkSOAPDescriptorAverages (int_of stepsize) None (Some (int_of v)))
        | None => Raise RuntimeError
        end
    end.

End Constructor.

(** The keyword arguments the base-class constructor receives. *)
Definition remaining (kwargs : gmap string pyval) : gmap string pyval :=
  delete avg_desc_per_key (delete averaging_key (delete stepsize_key kwargs)).

(** A supplied value is acceptable when it is a positive int. *)
Definition positive_int (v : pyval) : Prop := exists z, v = PyInt z /\ 0 < z.

(** What the specification calls an invalid configuration. *)
Definition invalid_configuration (kwargs : gmap string pyval) : Prop :=
  (is_Some (kwargs !! averaging_key) /\ is_Some (kwargs !! avg_desc_per_key))
  \/ (kwargs !! averaging_key = None /\ kwargs !! avg_desc_per_key = None)
  \/ (exists k v, (k = averaging_key \/ k = avg_desc_per_key \/ k = stepsize_key)
                  /\ kwargs !! k = Some v /\ ~ positive_int v).

(** ** numpy arrays as lists *)

(** Python's index normalisation for a sequence of length [len]. *)
Definition norm_index (len : nat) (i : Z) : option nat :=
  if bool_decide (0 <= i < Z.of_nat len) then Some (Z.to_nat i)
  else if bool_decide (- Z.of_nat len <= i < 0)
       then Some (Z.to_nat (i + Z.of_nat len))
       else None.

(** [a[i]] *)
Definition getitem {A} (a : list A) (i : Z) : result A :=
  match norm_index (length a) i with
  | Some n => match a !! n with Some x => Ok x | None => Raise IndexError end
  | None => Raise IndexError
  end.

(** [a[idx]] for an integer index array: a gather. *)
Fixpoint take_idx {A} (a : list A) (idx : list Z) : result (list A) :=
  match idx with
  | [] => Ok []
  | i :: idx' =>
      let* x := getitem a i in
      let* xs := take_idx a idx' in
      Ok (x :: xs)
  end.

(** [a[i] = x] *)
Definition setitem {A} (a : list A) (i : Z) (x : A) : list A :=
  match norm_index (length a) i with
  | Some n => <[n := x]> a
  | None => a
  end.

(** [a[idx] = vals]: a scatter, performed in order, so that for a
    repeated index the last value stays. *)
Fixpoint put_idx {A} (a : list A) (idx : list Z) (vals : list A) : list A :=
  match idx, vals with
  | i :: idx', x :: vals' => put_idx (setitem a i x) idx' vals'
  | _, _ => a
  end.

(** [a[mask]] for a boolean mask. *)
Fixpoint mask_select {A} (a : list A) (mask : list bool) : list A :=
  match a, mask with
  | x :: a', b :: mask' =>
      if b then x :: mask_select a' mask' else mask_select a' mask'
  | _, _ => []
  end.

(** [a[mask] = vals], [vals] holding one value per [True] of the mask. *)
Fixpoint mask_assign {A} (a : list A) (mask : list bool) (vals : list A)
  : list A :=
  match a, mask with
  | x :: a', true :: mask' =>
      match vals with
      | v :: vals' => v :: mask_assign a' mask' vals'
      | [] => a
      end
  | x :: a', false :: mask' => x :: mask_assign a' mask' vals
  | _, _ => a
  end.

(** [a[mask] = f(a[mask])] with a scalar right-hand side
    ([a[mask] += 1], [a[mask] = 0], [a[mask] = False]). *)
Definition mask_update {A} (f : A -> A) (a : list A) (mask : list bool)
  : list A :=
  zip_with (fun x (b : bool) => if b then f x else x) a mask.

Definition np_sum (l : list Z) : Z := foldr Z.add 0 l.

Definition np_min (l : list Z) : Z := foldr Z.min (hd 0 l) l.
Definition np_max (l : list Z) : Z := foldr Z.max (hd 0 l) l.

(** [np.repeat(a, repeats)] *)
Fixpoint np_repeat {A} (a : list A) (repeats : list Z) : list A :=
  match a, repeats with
  | x :: a', r :: repeats' => replicate (Z.to_nat r) x ++ np_repeat a' repeats'
  | _, _ => []
  end.

(** [l[::k]] for a positive step: the entries at positions 0, k, 2k, ... *)
Fixpoint every_from {A} (k skip : nat) (l : list A) : list A :=
  match l with
  | [] => []
  | x :: l' =>
      match skip with
      | O => x :: every_from k (k - 1) l'
      | S skip' => every_from k skip' l'
      end
  end.

(** [l[::k]] *)
Definition slice_step {A} (k : Z) (l : list A) : result (list A) :=
  if k =? 0 then Raise ValueError
  else if 0 <? k then Ok (every_from (Z.to_nat k) 0 l)
  else Ok (every_from (Z.to_nat (- k)) 0 (reverse l)).

(** ** Floating point values and feature vectors *)

Inductive flt :=
| Fin (q : Q)
| NonFinite.

Definition fadd (x y : flt) : flt :=
  match x, y with
  | Fin a, Fin b => Fin (a + b)%Q
  | _, _ => NonFinite
  end.

(** Division of a float by an integer count; a zero divisor gives numpy's
    [inf] or [nan]. *)
Definition fdiv (x : flt) (d : Z) : flt :=
  match x with
  | Fin a => if d =? 0 then NonFinite else Fin (a / inject_Z d)%Q
  | NonFinite => NonFinite
  end.

Definition vec := list flt.

Definition vdiv (v : vec) (d : Z) : vec := map (fun x => fdiv x d) v.

Definition vzero (n_dim : nat) : vec := replicate n_dim (Fin 0).

(** One row of [descs[idx] + soaps]: the widths agree, or the right-hand
    side has width one and is broadcast; anything else is a shape error. *)
Definition row_add (row soap : vec) : result vec :=
  if bool_decide (length soap = length row) then Ok (zip_with fadd row soap)
  else match soap with
       | [x] => Ok (map (fun r => fadd r x) row)
       | _ => Raise ValueError
       end.

Fixpoint rows_add (rows soaps : list vec) : result (list vec) :=
  match rows, soaps with
  | r :: rows', v :: soaps' =>
      let* x := row_add r v in
      let* xs := rows_add rows' soaps' in
      Ok (x :: xs)
  | _, _ => Ok []
  end.

(** ** The logger *)

(** The four messages of [_get_descriptors], with the values they format;
    the insufficiency warning prints [counts[insufficient] / averaging],
    kept here as its two operands. *)
Inductive log_record :=
| DebugWillAverage (averaging : Z)
| WarningTooManyAverages
| WarningInsufficient (averaging : Z) (n_sites : nat) (occupancies : list Z)
| DebugMinMax (minimum maximum : Z).

(** A computation that logs and may raise. *)
Definition M (A : Type) : Type := (list log_record * result A)%type.

Definition mret {A} (a : A) : M A := ([], Ok a).
Definition lift {A} (r : result A) : M A := ([], r).
Definition log (r : log_record) : M unit := ([r], Ok tt).
Definition mbindM {A B} (m : M A) (f : A -> M B) : M B :=
  match m with
  | (l, Ok a) => let '(l', r) := f a in (l ++ l', r)
  | (l, Raise e) => (l, Raise e)
  end.

Notation "'let+' x ':=' m 'in' k" := (mbindM m (fun x => k))
  (at level 10, x pattern, m at level 100, k at level 200).

(** The computation returns [a] (whatever it logged). *)
Definition returns {A} (m : M A) (a : A) : Prop := m.2 = Ok a.

(** ** Trajectories *)

(** Modelled from the spec: the constant [SiteTrajectory.SITE_UNKNOWN],
    the "unknown" sentinel of a site assignment, is declared outside this
    module. It is -1: the counter gives it the extra last slot of [counts],
    which [counts[:-1]] then drops. *)
Definition SITE_UNKNOWN : Z := -1.

(** One sampled frame: for every mobile entity, the site it is assigned
    to and the raw vector the descriptor engine returns for its position
    in that frame's host structure. The engine is called on the selected
    entities only; it answers position by position. *)
Definition frame := list (Z * vec).

(** ** Occupancy counter *)

(** [counts[frame] += 1] *)
Definition count_frame (counts : list Z) (frame : list Z) : result (list Z) :=
  let* old := take_idx counts frame in
  Ok (put_idx counts frame (map Z.succ old)).

Fixpoint count_frames (counts : list Z) (site_traj : list (list Z))
  : result (list Z) :=
  match site_traj with
  | [] => Ok counts
  | f :: rest =>
      let* counts' := count_frame counts f in
      count_frames counts' rest
  end.

Definition occupancy (nsit : nat) (site_traj : list (list Z))
  : result (list Z) :=
  let* counts := count_frames (replicate (nsit + 1) 0) site_traj in
  Ok (removelast counts).

(** ** Averaging planner *)

(** [np.mean]; the mean of an empty array is [nan]. *)
Definition np_mean (counts : list Z) : option Q :=
  match counts with
  | [] => None
  | _ => Some (inject_Z (np_sum counts) / inject_Z (Z.of_nat (length counts)))%Q
  end.

(** The ints that convert to a float are those below [2^1024 - 2^970] in
    absolute value (the first to round to [2^1024]); the others raise
    [OverflowError] as soon as a float is divided by them. *)
Definition float_limit : Z := 2 ^ 1024 - 2 ^ 970.

(** [int(np.floor(np.mean(counts) / T))]: the division converts [T] to a
    float; [int] rejects [nan] and [inf]. *)
Definition derived_averaging (counts : list Z) (T : Z) : result Z :=
  if bool_decide (- float_limit < T < float_limit)
  then match np_mean counts with
       | None => Raise ValueError
       | Some m =>
           if T =? 0
           then (if Qeq_bool m 0 then Raise ValueError else Raise OverflowError)
           else Ok (Qfloor (m / inject_Z T))
       end
  else Raise OverflowError.

Definition resolve_averaging (self : SOAPDescriptorAverages)
  (counts : list Z) : M Z :=
  let+ averaging :=
    lift (match _averaging self with
          | Some a => Ok a
          | None =>
              match _avg_desc_per_site self with
              | Some T => derived_averaging counts T
              | None => Raise TypeError
              end
          end) in
  let+ _ := log (DebugWillAverage averaging) in
  if averaging =? 0
  then let+ _ := log WarningTooManyAverages in mret 1
  else mret averaging.

Record plan_t := mkPlan {
  nr_of_descs : list Z;
  averagings : list Z
}.

Definition plan (counts : list Z) (averaging : Z) : M plan_t :=
  let nr_of_descs := map (fun c => c `div` averaging) counts in
  let insufficient := map (fun n => n =? 0) nr_of_descs in
  let+ _ :=
    if existsb id insufficient
    then log (WarningInsufficient averaging
                (length (filter (fun b => b = true) insufficient))
                (mask_select counts insufficient))
    else mret tt in
  let averagings := replicate (length nr_of_descs) averaging in
  let averagings :=
    mask_assign averagings insufficient (mask_select counts insufficient) in
  let nr_of_descs := map (fun n => Z.max n 1) nr_of_descs in
  let+ _ :=
    lift (if forallb (fun n => 1 <=? n) nr_of_descs
          then Ok tt else Raise AssertionError) in
  let+ _ :=
    match nr_of_descs with
    | [] => lift (Raise ValueError)
    | _ => log (DebugMinMax (np_min nr_of_descs) (np_max nr_of_descs))
    end in
  mret (mkPlan nr_of_descs averagings).

(** ** Streaming accumulator *)

Record acc_state := mkAcc {
  descs : list vec;
  desc_index : list Z;
  count_of_site : list Z;
  allowed : list bool
}.

(** [[np.sum(nr_of_descs[:i]) for i in range(len(nr_of_descs))]] *)
Definition first_index (nr_of_descs : list Z) : list Z :=
  map (fun i => np_sum (take i nr_of_descs)) (seq 0 (length nr_of_descs)).

(** [[np.sum(nr_of_descs[:i+1]) for i in range(len(nr_of_descs))]] *)
Definition max_index (nr_of_descs : list Z) : list Z :=
  map (fun i => np_sum (take (i + 1) nr_of_descs)) (seq 0 (length nr_of_descs)).

Definition initial_state (nsit n_dim : nat) (nr_of_descs : list Z)
  : acc_state :=
  {| descs := replicate (Z.to_nat (np_sum nr_of_descs)) (vzero n_dim);
     desc_index := first_index nr_of_descs;
     count_of_site := replicate (length nr_of_descs) 0;
     allowed := replicate nsit true |}.

(** The body of [if np.any(to_describe)], on the selected entities. *)
Definition describe (averagings : list Z) (st : acc_state)
  (selected : list (Z * vec)) : result acc_state :=
  let sites_to_describe := selected.*1 in
  let soaps := selected.*2 in
  let* divisors := take_idx averagings sites_to_describe in
  let soaps := zip_with vdiv soaps divisors in
  let* idx_to_add_desc := take_idx (desc_index st) sites_to_describe in
  let* rows := take_idx (descs st) idx_to_add_desc in
  let* rows := rows_add rows soaps in
  let* seen := take_idx (count_of_site st) sites_to_describe in
  Ok {| descs := put_idx (descs st) idx_to_add_desc rows;
        desc_index := desc_index st;
        count_of_site :=
          put_idx (count_of_site st) sites_to_describe (map Z.succ seen);
        allowed := allowed st |}.

(** "Reset and increment full averages", and the closing of sites. *)
Definition advance (averagings max_index : list Z) (st : acc_state)
  : acc_state :=
  let full_average := zip_with Z.eqb (count_of_site st) averagings in
  let desc_index' := mask_update Z.succ (desc_index st) full_average in
  {| descs := descs st;
     desc_index := desc_index';
     count_of_site := mask_update (fun _ => 0) (count_of_site st) full_average;
     allowed :=
       mask_update (fun _ => false) (allowed st)
         (zip_with Z.eqb max_index desc_index') |}.

(** [to_describe = (site_traj_t != SITE_UNKNOWN) & allowed[site_traj_t]] *)
Definition to_describe (st : acc_state) (f : frame) : result (list bool) :=
  let site_traj_t := f.*1 in
  let* open := take_idx (allowed st) site_traj_t in
  Ok (zip_with (fun s (a : bool) => negb (s =? SITE_UNKNOWN) && a)
        site_traj_t open).

(** One iteration of the loop over the sampled frames. *)
Definition frame_step (averagings max_index : list Z) (st : acc_state)
  (f : frame) : result acc_state :=
  let* to_describe := to_describe st f in
  let* st' :=
    if existsb id to_describe
    then describe averagings st (mask_select f to_describe)
    else Ok st in
  Ok (advance averagings max_index st').

Fixpoint accumulate (averagings max_index : list Z) (st : acc_state)
  (frames : list frame) : result acc_state :=
  match frames with
  | [] => Ok st
  | f :: rest =>
      let* st' := frame_step averagings max_index st f in
      accumulate averagings max_index st' rest
  end.

(** ** The whole run *)

(** The counting pass and the plan: the sampled frames and, per site, the
    number of output vectors and the divisor. *)
Definition planning (self : SOAPDescriptorAverages) (nsit : nat)
  (traj : list frame) : M (list frame * plan_t) :=
  let+ frames := lift (slice_step (_stepsize self) traj) in
  let+ counts := lift (occupancy nsit (map (fun f : frame => f.*1) frames)) in
  let+ averaging := resolve_averaging self counts in
  let+ p := plan counts averaging in
  mret (frames, p).

(** The accumulation pass. *)
Definition accumulation (nsit n_dim : nat) (frames : list frame) (p : plan_t)
  : result acc_state :=
  accumulate (averagings p) (max_index (nr_of_descs p))
    (initial_state nsit n_dim (nr_of_descs p)) frames.

Definition _get_descriptors (self : SOAPDescriptorAverages)
  (nsit n_dim : nat) (traj : list frame) : M (list vec * list Z) :=
  let+ fp := planning self nsit traj in
  let frames := fp.1 in
  let p := fp.2 in
  let+ st := lift (accumulation nsit n_dim frames p) in
  let+ _ :=
    lift (if existsb id (allowed st) then Raise AssertionError else Ok tt) in
  let desc_to_site :=
    np_repeat (map Z.of_nat (seq 0 nsit)) (nr_of_descs p) in
  mret (descs st, desc_to_site).


(** The divisors [averagings[sites_to_describe]] that one frame's raw
    vectors are divided by, and those of a whole pass. *)
Definition frame_divisors (averagings : list Z) (st : acc_state) (f : frame)
  : list Z :=
  match to_describe st f with
  | Ok to_describe =>
      if existsb id to_describe
      then match take_idx averagings (mask_select f to_describe).*1 with
           | Ok divisors => divisors
           | Raise _ => []
           end
      else []
  | Raise _ => []
  end.

Fixpoint divisors_used (averagings max_index : list Z) (st : acc_state)
  (frames : list frame) : list Z :=
  match frames with
  | [] => []
  | f :: rest =>
      frame_divisors averagings st f ++
      match frame_step averagings max_index st f with
      | Ok st' => divisors_used averagings max_index st' rest
      | Raise _ => []
      end
  end.

(** The plan as two pointwise maps of the counts. *)
Definition planned_count (D c : Z) : Z := Z.max (c `div` D) 1.
Definition planned_divisor (D c : Z) : Z := if c `div` D =? 0 then c else D.

(** The label array of a plan. *)
Definition labels_of (nsit : nat) (p : plan_t) : list Z :=
  np_repeat (map Z.of_nat (seq 0 nsit)) (nr_of_descs p).

(** A site is exhausted: closed, its index having reached its bound. *)
Definition exhausted (max_index : list Z) (st : acc_state) (s : nat) : Prop :=
  allowed st !! s = Some false
  /\ exists m d, max_index !! s = Some m /\ desc_index st !! s = Some d /\ m <= d.

(** What every pass keeps: the sizes of the arrays, and closed sites
    closed with their index at or past its bound. *)
Definition pass_inv (nsit : nat) (mx : list Z) (N : nat) (st : acc_state)
  : Prop :=
  length (descs st) = N
  /\ length (desc_index st) = nsit
  /\ length (count_of_site st) = nsit
  /\ length (allowed st) = nsit
  /\ forall s, allowed st !! s = Some false -> exhausted mx st s.

(** The configurations the constructor produces. *)
Definition valid_configuration (self : SOAPDescriptorAverages) : Prop :=
  0 < _stepsize self /\
  ((exists W, _averaging self = Some W /\ _avg_desc_per_site self = None /\ 0 < W)
   \/ (exists T, _averaging self = None /\ _avg_desc_per_site self = Some T /\ 0 < T)).


(** ** Vocabulary of the specification *)

(** A site assignment is a site id below [nsit] or the sentinel. *)
Definition valid_site (nsit : nat) (s : Z) : Prop :=
  s = SITE_UNKNOWN \/ 0 <= s < Z.of_nat nsit.

(** A sampled frame the engine is meant for: valid assignments, raw
    vectors of the engine's dimension. *)
Definition valid_frame (nsit n_dim : nat) (f : frame) : Prop :=
  Forall (fun p : Z * vec => valid_site nsit p.1 /\ length p.2 = n_dim) f.

(** The number of (entity, frame) pairs assigned to site [s]. *)
Definition assigned_pairs (s : Z) (site_traj : list (list Z)) : Z :=
  np_sum (map (fun f => Z.of_nat (length (filter (fun i => i = s) f))) site_traj).

(** The number of frames in which at least one entity is assigned to [s]. *)
Definition occupied_frames (s : Z) (site_traj : list (list Z)) : Z :=
  Z.of_nat (length (filter (fun f => s ∈ f) site_traj)).

(** The value paired with the last key satisfying [P], if any. *)
Fixpoint last_such {B} (P : Z -> bool) (l : list (Z * B)) : option B :=
  match l with
  | [] => None
  | (i, x) :: l' =>
      match last_such P l' with
      | Some v => Some v
      | None => if P i then Some x else None
      end
  end.

(** The raw vector of the last entity of the frame assigned to [s]. *)
Definition last_hit {B} (s : Z) (l : list (Z * B)) : option B :=
  last_such (Z.eqb s) l.

(** The raw samples of site [s], in frame order: one per frame in which
    the site is occupied. *)
Definition samples (s : Z) (frames : list frame) : list vec :=
  omap (last_hit s) frames.

(** Elementwise sum of raw vectors, and its division by the window size. *)
Definition vadd (u v : vec) : vec := zip_with fadd u v.
Definition vsum (n_dim : nat) (vs : list vec) : vec :=
  foldl vadd (vzero n_dim) vs.
Definition window_mean (n_dim : nat) (D : nat) (k : nat) (vs : list vec) : vec :=
  vdiv (vsum n_dim (take D (drop (k * D) vs))) (Z.of_nat D).

(** Equality of floats up to the representation of rationals. *)
Definition flt_equiv (x y : flt) : Prop :=
  match x, y with
  | Fin a, Fin b => (a == b)%Q
  | NonFinite, NonFinite => True
  | _, _ => False
  end.
Definition vec_equiv (u v : vec) : Prop := Forall2 flt_equiv u v.

(** ** One site of the accumulator, in isolation *)

Record site_state := mkSite {
  slot : nat;
  fill : nat;
  active : bool;
  out : list vec
}.

(** What one frame does to one site with divisor [D] and [n] planned
    outputs, [h] being the raw vector of the frame for that site: first
    the contribution, then the closing of a full window and of the site. *)
Definition site_describe (D : nat) (σ : site_state) (h : option vec)
  : site_state :=
  match h with
  | Some v =>
      if active σ
      then {| slot := slot σ; fill := S (fill σ); active := true;
              out := alter (fun row => vadd row (vdiv v (Z.of_nat D)))
                       (slot σ) (out σ) |}
      else σ
  | None => σ
  end.

Definition site_advance (D n : nat) (σ : site_state) : site_state :=
  let full := bool_decide (fill σ = D) in
  let slot' := if full then S (slot σ) else slot σ in
  {| slot := slot';
     fill := if full then 0%nat else fill σ;
     active := if bool_decide (n = slot') then false else active σ;
     out := out σ |}.

Definition site_step (D n : nat) (σ : site_state) (h : option vec)
  : site_state :=
  site_advance D n (site_describe D σ h).

Definition site_init (n_dim n : nat) : site_state :=
  {| slot := 0; fill := 0; active := true; out := replicate n (vzero n_dim) |}.

Definition site_run (n_dim D n : nat) (hs : list (option vec)) : site_state :=
  foldl (site_step D n) (site_init n_dim n) hs.

(** The sum a window accumulates: each raw vector divided, then added. *)
Definition wsum (n_dim D : nat) (vs : list vec) : vec :=
  foldl (fun acc v => vadd acc (vdiv v (Z.of_nat D))) (vzero n_dim) vs.

(** ** The accumulator as a family of sites *)

(** First output row, planned count and divisor of site [s]. *)
Definition base (nr : list Z) (s : nat) : nat := Z.to_nat (np_sum (take s nr)).
Definition quota (nr : list Z) (s : nat) : nat := Z.to_nat (default 0 (nr !! s)).
Definition divisor (avgs : list Z) (s : nat) : nat :=
  Z.to_nat (default 0 (avgs !! s)).

(** The arrays of the accumulator hold, site by site, the states [σ]. *)
Definition refines (nsit n_dim : nat) (nr : list Z) (st : acc_state)
  (σ : nat -> site_state) : Prop :=
  length (descs st) = Z.to_nat (np_sum nr)
  /\ length (desc_index st) = nsit
  /\ length (count_of_site st) = nsit
  /\ length (allowed st) = nsit
  /\ forall s, (s < nsit)%nat ->
       desc_index st !! s = Some (Z.of_nat (base nr s + slot (σ s)))
       /\ count_of_site st !! s = Some (Z.of_nat (fill (σ s)))
       /\ allowed st !! s = Some (active (σ s))
       /\ length (out (σ s)) = quota nr s
       /\ (forall j, (j < quota nr s)%nat ->
            descs st !! (base nr s + j)%nat = out (σ s) !! j)
       /\ (active (σ s) = true -> (slot (σ s) < quota nr s)%nat)
       /\ Forall (fun row : vec => length row = n_dim) (out (σ s)).

(** The entities of a frame the accumulator describes. *)
Definition selects (st : acc_state) (p : Z * vec) : bool :=
  negb (p.1 =? SITE_UNKNOWN)
  && match norm_index (length (allowed st)) p.1 with
     | Some n => default false (allowed st !! n)
     | None => false
     end.

(** ** Sample runs *)

Definition example_window (w : Z) : SOAPDescriptorAverages :=
  mkSOAPDescriptorAverages 1 (Some w) None.

(** One site occupied in five of seven frames; scalar raw vectors. *)
Definition example_traj_five : list frame :=
  [ [(0, [Fin 1])]; [(-1, [Fin 9])]; [(0, [Fin 3])]; [(0, [Fin 5])];
    [(-1, [Fin 9])]; [(0, [Fin 7])]; [(0, [Fin 11])] ].

(** Two sites, the second never occupied. *)
Definition example_traj_idle : list frame :=
  [ [(0, [Fin 1])]; [(0, [Fin 3]); (-1, [Fin 9])] ].

(** ** The base class *)

Module SOAP.

(** The exceptions of the base-class constructor: two of its own, and the
    built-in ones the engine raises as well. *)
Inductive error :=
| AttributeError
| KeyError
| Builtin (e : exn).

Inductive outcome (A : Type) :=
| Done (a : A)
| Fail (e : error).
Arguments Done {A} a.
Arguments Fail {A} e.

Definition bind {A B} (m : outcome A) (f : A -> outcome B) : outcome B :=
  match m with
  | Done a => f a
  | Fail e => Fail e
  end.

(** An entry of [environment]: [isinstance(e, int)] holds exactly for
    [SpInt] (bools included), [isinstance(e, str)] exactly for [SpStr]. *)
Inductive species :=
| SpInt (z : Z)
| SpStr (symbol : string)
| SpOther.

(** The [environment] argument: [None], a list or a tuple, or anything
    else. *)
Inductive environment_arg :=
| EnvNone
| EnvSeq (entries : list species)
| EnvOther.

(** The names the body of [class SOAP] binds: the two imported backends,
    under the names their [import ... as] clauses give them, and the
    methods. Besides these the class has only the attributes every class
    has, none of which is named like a backend. *)
Definition class_namespace : list string :=
  ["backend_quip"; "backend_dscribe"; "__init__"; "get_descriptors";
   "_make_structure"; "_get_descriptors"].

Section Init.

(** The tracer, the mask and the backend are stored as they come. *)
Context {T Msk B : Type}.

(** [ase.data.atomic_numbers], the table from symbols to numbers. *)
Variable atomic_numbers : gmap string Z.

(** The object bound to each name of the class namespace. *)
Variable class_attr : string -> B.

Record t := mk {
  tracer_atomic_number : T;
  _soap_mask : Msk;
  _backend : B;
  _environment : option (list Z)
}.

(** [SOAP.name] *)
Definition getattr (name : string) : outcome B :=
  if bool_decide (name ∈ class_namespace) then Done (class_attr name)
  else Fail AttributeError.

(** [max(atomic_numbers.values())]; [max] of nothing is a [ValueError]. *)
Definition max_atomic_number : outcome Z :=
  match (map_to_list atomic_numbers).*2 with
  | [] => Fail (Builtin ValueError)
  | z :: zs => Done (foldr Z.max z zs)
  end.

(** One turn of the loop over [environment]. The chained comparison
    [0 < e <= max(...)] looks at the table only when [0 < e]. *)
Definition standardize_entry (e : species) : outcome Z :=
  match e with
  | SpInt z =>
      if 0 <? z
      then bind max_atomic_number (fun m =>
             if z <=? m then Done z else Fail (Builtin AssertionError))
      else Fail (Builtin AssertionError)
  | SpStr symbol =>
      match atomic_numbers !! symbol with
      | Some z => Done z
      | None => Fail KeyError
      end
  | SpOther => Fail (Builtin TypeError)
  end.

Fixpoint standardize (environment : list species) : outcome (list Z) :=
  match environment with
  | [] => Done []
  | e :: rest =>
      bind (standardize_entry e) (fun z =>
      bind (standardize rest) (fun zs => Done (z :: zs)))
  end.

Definition __init__ (tracer_atomic_number : T) (environment : environment_arg)
  (soap_mask : Msk) (backend : option B) : outcome t :=
  bind (match backend with
        | None => getattr "dscribe_soap_backend"
        | Some b => Done b
        end) (fun backend =>
  bind (match environment with
        | EnvNone => Done None
        | EnvSeq entries => bind (standardize entries) (fun l => Done (Some l))
        | EnvOther => Fail (Builtin TypeError)
        end) (fun environment_list =>
  Done (mk tracer_atomic_number soap_mask backend environment_list))).

(** The entry [e] is accepted as the atomic number [z]: a positive int
    not above every number of the table, or a symbol of the table. *)
Definition accepted (e : species) (z : Z) : Prop :=
  (e = SpInt z /\ 0 < z
   /\ exists symbol z', atomic_numbers !! symbol = Some z' /\ z <= z')
  \/ (exists symbol, e = SpStr symbol /\ atomic_numbers !! symbol = Some z).

(** Two entries name the same species: they are equal, or one is a
    symbol and the other its (positive) number. *)
Definition same_species (e1 e2 : species) : Prop :=
  e1 = e2
  \/ exists symbol z, atomic_numbers !! symbol = Some z /\ 0 < z
       /\ ((e1 = SpStr symbol /\ e2 = SpInt z)
           \/ (e1 = SpInt z /\ e2 = SpStr symbol)).

End Init.

Arguments t : clear implicits.
Arguments mk {T Msk B}.

End SOAP.

(** A table with carbon and oxygen. *)
Definition example_table : gmap string Z := {[ "C" := 6; "O" := 8 ]}.

(** ** More vocabulary *)

(** The entity is assigned to a site. *)
Definition known (p : Z * vec) : bool := negb (p.1 =? SITE_UNKNOWN).

(** The site ids both passes can index: those of [allowed], whose length
    is [nsit]. *)
Definition indexable (nsit : nat) (i : Z) : Prop :=
  - Z.of_nat nsit <= i < Z.of_nat nsit.

(** numpy counts and divides in 64-bit integers. The engine is meant for
    parameters that fit them: with a window of [2^63] or more the counts
    divided by it are no integers any more, and the run raises
    [TypeError] further on. *)
Definition machine_sized (self : SOAPDescriptorAverages) : Prop :=
  match _averaging self with Some W => W < 2 ^ 63 | None => True end
  /\ match _avg_desc_per_site self with Some T => T < 2 ^ 63 | None => True end.

(** The raw vectors of the entities assigned to [s], in frame order and,
    within a frame, in entity order. *)
Definition raw_vectors (s : Z) (frames : list frame) : list vec :=
  concat (map (fun f : frame => (List.filter (fun p : Z * vec => p.1 =? s) f).*2)
            frames).

(** No frame assigns two entities to [s]. *)
Definition single_occupancy (s : Z) (frames : list frame) : Prop :=
  Forall (fun f : frame =>
            (length (List.filter (fun p : Z * vec => (p.1 =? s)%Z) f) <= 1)%nat)
    frames.

(** One site, shared by two entities in the second of three frames. *)
Definition example_traj_shared : list frame :=
  [ [(0, [Fin 1])]; [(0, [Fin 10]); (0, [Fin 100])]; [(0, [Fin 1000])] ].

(** ** The constructor with its base class *)

(** Python values as the base class looks at them: ints, [None], lists
    and tuples (by their entries), and everything else. *)
Inductive pyarg :=
| ArgInt (z : Z)
| ArgNone
| ArgSeq (entries : list SOAP.species)
| ArgObject.

(** What the checks of the engine see of a value. *)
Definition erase (a : pyarg) : pyval :=
  match a with
  | ArgInt z => PyInt z
  | _ => PyOther
  end.

(** The parameters of [SOAP.__init__] after [self]. *)
Definition SOAP_parameters : list string :=
  ["tracer_atomic_number"; "environment"; "soap_mask"; "backend"].

(** The arguments of a call bind to the parameters: there are at most
    four positional arguments, every keyword is the name of a parameter
    that no positional argument fills, and the tracer, which has no
    default, is given. *)
Definition binds (args : list pyarg) (kwargs : gmap string pyarg) : bool :=
  bool_decide (length args <= length SOAP_parameters)%nat
  && forallb (fun kv : string * pyarg =>
                bool_decide (kv.1 ∈ drop (length args) SOAP_parameters))
       (map_to_list kwargs)
  && bool_decide (args <> [] \/ is_Some (kwargs !! "tracer_atomic_number")).

(** The value of parameter [i]: positional, by keyword, or the default
    [None]. *)
Definition argument (args : list pyarg) (kwargs : gmap string pyarg) (i : nat)
  : pyarg :=
  match args !! i with
  | Some a => a
  | None =>
      match SOAP_parameters !! i with
      | Some name => default ArgNone (kwargs !! name)
      | None => ArgNone
      end
  end.

Section Construction.

Variable atomic_numbers : gmap string Z.
Variable class_attr : string -> pyarg.

(** [SOAP.__init__(self, *args, **kwargs)]; a call that does not bind is
    a [TypeError]. *)
Definition SOAP_call (args : list pyarg) (kwargs : gmap string pyarg)
  : SOAP.outcome (SOAP.t pyarg pyarg pyarg) :=
  if binds args kwargs
  then SOAP.__init__ atomic_numbers class_attr
         (argument args kwargs 0)
         (match argument args kwargs 1 with
          | ArgNone => SOAP.EnvNone
          | ArgSeq entries => SOAP.EnvSeq entries
          | _ => SOAP.EnvOther
          end)
         (argument args kwargs 2)
         (match argument args kwargs 3 with
          | ArgNone => None
          | b => Some b
          end)
  else SOAP.Fail (SOAP.Builtin TypeError).

(** [SOAPDescriptorAverages.__init__] with the base class of the source:
    the checks of the engine, which are [__init__] whatever the base class
    does, and then the base class on the arguments that are left. *)
Definition SOAPDescriptorAverages_init (args : list pyarg)
  (kwargs : gmap string pyarg)
  : SOAP.outcome (SOAPDescriptorAverages * SOAP.t pyarg pyarg pyarg) :=
  match __init__ (fun _ _ => Ok tt) (erase <$> args) (erase <$> kwargs) with
  | Raise e => SOAP.Fail (SOAP.Builtin e)
  | Ok self =>
      SOAP.bind
        (SOAP_call args
           (delete avg_desc_per_key
              (delete averaging_key (delete stepsize_key kwargs))))
        (fun base => SOAP.Done (self, base))
  end.

End Construction.
(** * Properties *)

(** ** The constructor *)

Lemma positive_int_dec v : {positive_int v} + {~ positive_int v}.
Proof.
  destruct v as [z|].
  - destruct (Z_lt_dec 0 z) as [H|H].
    + left. exists z. auto.
    + right. intros (z' & Heq & Hz). inversion Heq; subst. lia.
  - right. intros (z' & Heq & _). discriminate.
Qed.

Lemma check_items_ok d :
  Forall (fun kv : string * pyval => positive_int kv.2) d ->
  check_items d = Ok tt.
Proof.
  induction 1 as [|[k v] d (z & Hv & Hz) _ IH]; simpl in *; [reflexivity|].
  subst v. destruct (Z.ltb_spec 0 z); [exact IH | lia].
Qed.

Lemma check_items_raises d :
  Exists (fun kv : string * pyval => ~ positive_int kv.2) d ->
  raises (check_items d).
Proof.
  induction d as [|[k v] d IH]; intros H.
  - inversion H.
  - simpl. destruct v as [z|]; [|eexists; reflexivity].
    destruct (Z.ltb_spec 0 z) as [Hz|Hz]; [|eexists; reflexivity].
    apply IH. inversion H as [? ? Hh|]; subst; [|assumption].
    exfalso. apply Hh. exists z. auto.
Qed.

Lemma positive_int_of v : positive_int v -> v = PyInt (int_of v) /\ 0 < int_of v.
Proof. intros (z & -> & Hz). simpl. auto. Qed.

(** The constructor after the both-supplied assertion, seen through the
    one mode parameter [v] found under [key]. *)
Lemma init_mode_cases (vs v : pyval) (key : string) :
  (positive_int vs /\ positive_int v /\
   check_items [(stepsize_key, vs); (key, v)] = Ok tt)
  \/ ((~ positive_int vs \/ ~ positive_int v) /\
      raises (check_items [(stepsize_key, vs); (key, v)])).
Proof.
  destruct (positive_int_dec vs) as [Hs|Hs], (positive_int_dec v) as [Hv|Hv].
  - left. repeat split; try assumption.
    apply check_items_ok. repeat constructor; assumption.
  - right. split; [auto|]. apply check_items_raises.
    apply Exists_cons_tl, Exists_cons_hd. exact Hv.
  - right. split; [auto|]. apply check_items_raises. apply Exists_cons_hd. exact Hs.
  - right. split; [auto|]. apply check_items_raises. apply Exists_cons_hd. exact Hs.
Qed.

Lemma stepsize_default_bad (kwargs : gmap string pyval) :
  ~ positive_int (default (PyInt 1) (kwargs !! stepsize_key)) ->
  exists v, kwargs !! stepsize_key = Some v /\ ~ positive_int v.
Proof.
  destruct (kwargs !! stepsize_key) as [v|]; simpl; intros H; [eauto|].
  exfalso. apply H. exists 1. split; [reflexivity | lia].
Qed.

Lemma stepsize_default_good (kwargs : gmap string pyval) v :
  positive_int (default (PyInt 1) (kwargs !! stepsize_key)) ->
  kwargs !! stepsize_key = Some v -> positive_int v.
Proof. intros H E. rewrite E in H. exact H. Qed.

(** With a base class that accepts its arguments, construction raises
    exactly when the averaging configuration is invalid, and otherwise
    returns a valid configuration. *)
Lemma init_with_accepting_base
  (SOAP__init__ : list pyval -> gmap string pyval -> result unit)
  (args : list pyval) (kwargs : gmap string pyval) :
  SOAP__init__ args (remaining kwargs) = Ok tt ->
  (raises (__init__ SOAP__init__ args kwargs) <-> invalid_configuration kwargs)
  /\ (~ invalid_configuration kwargs ->
      exists self, __init__ SOAP__init__ args kwargs = Ok self
                   /\ valid_configuration self).
Proof.
  intros Hbase.
  assert (Has : averaging_key <> stepsize_key) by discriminate.
  assert (Hds : avg_desc_per_key <> stepsize_key) by discriminate.
  assert (Had : averaging_key <> avg_desc_per_key) by discriminate.
  unfold __init__, invalid_configuration, remaining in *.
  case_bool_decide as Hboth.
  { split.
    - split; [intros _; left; exact Hboth | intros _; eexists; reflexivity].
    - intros Hn. exfalso. apply Hn. left. exact Hboth. }
  rewrite !lookup_delete_ne by done.
  set (vs := default (PyInt 1) (kwargs !! stepsize_key)).
  destruct (kwargs !! averaging_key) as [va|] eqn:Ha.
  - (* [averaging] supplied, [avg_descriptors_per_site] not *)
    assert (Hd : kwargs !! avg_desc_per_key = None).
    { destruct (kwargs !! avg_desc_per_key) eqn:E; [|done].
      exfalso. apply Hboth. split; eauto. }
    rewrite (delete_id (delete averaging_key (delete stepsize_key kwargs)))
      in Hbase by (rewrite !lookup_delete_ne by done; exact Hd).
    destruct (init_mode_cases vs va averaging_key)
      as [(Hs & Hv & Hok)|[Hbad [e He]]].
    + rewrite Hok. simpl. rewrite Hbase. simpl.
      assert (Hvalid : ~ ((is_Some (Some va) /\ is_Some (kwargs !! avg_desc_per_key))
                \/ (Some va = None /\ kwargs !! avg_desc_per_key = None)
                \/ (exists k v, (k = averaging_key \/ k = avg_desc_per_key \/ k = stepsize_key)
                     /\ kwargs !! k = Some v /\ ~ positive_int v))).
      { intros [[_ [x H]]|[[H _]|(k & v & Hk & Hkv & Hnp)]]; [congruence|discriminate|].
        destruct Hk as [-> | [-> | ->]].
        - rewrite Ha in Hkv. inversion Hkv; subst. auto.
        - congruence.
        - apply Hnp. eapply stepsize_default_good; eauto. }
      split.
      * split; [intros [e He]; discriminate | intros H; contradiction].
      * intros _. eexists. split; [reflexivity|].
        apply positive_int_of in Hs, Hv.
        unfold valid_configuration; simpl.
        split; [tauto|]. left. exists (int_of va). tauto.
    + rewrite He. simpl. split.
      * split; [intros _ | intros _; eexists; reflexivity].
        right; right. destruct Hbad as [Hb|Hb].
        -- apply stepsize_default_bad in Hb as (v & Hv & Hnp).
           exists stepsize_key, v. auto.
        -- exists averaging_key, va. auto.
      * intros Hn. exfalso. apply Hn. right; right. destruct Hbad as [Hb|Hb].
        -- apply stepsize_default_bad in Hb as (v & Hv & Hnp).
           exists stepsize_key, v. auto.
        -- exists averaging_key, va. auto.
  - destruct (kwargs !! avg_desc_per_key) as [vd|] eqn:Hd.
    + (* [avg_descriptors_per_site] supplied, [averaging] not *)
      rewrite (delete_id (delete stepsize_key kwargs) averaging_key) in Hbase
        by (rewrite ?lookup_delete_ne by done; exact Ha).
      destruct (init_mode_cases vs vd avg_desc_per_key)
        as [(Hs & Hv & Hok)|[Hbad [e He]]].
      * rewrite Hok. simpl. rewrite Hbase. simpl.
        assert (Hvalid : ~ ((is_Some (@None pyval) /\ is_Some (Some vd))
                \/ (@None pyval = None /\ Some vd = None)
                \/ (exists k v, (k = averaging_key \/ k = avg_desc_per_key \/ k = stepsize_key)
                     /\ kwargs !! k = Some v /\ ~ positive_int v))).
        { intros [[[x H] _]|[[_ H]|(k & v & Hk & Hkv & Hnp)]]; [discriminate|discriminate|].
          destruct Hk as [-> | [-> | ->]].
          - congruence.
          - rewrite Hd in Hkv. inversion Hkv; subst. auto.
          - apply Hnp. eapply stepsize_default_good; eauto. }
        split.
        -- split; [intros [e He]; discriminate | intros H; contradiction].
        -- intros _. eexists. split; [reflexivity|].
           apply positive_int_of in Hs, Hv.
           unfold valid_configuration; simpl.
           split; [tauto|]. right. exists (int_of vd). tauto.
      * rewrite He. simpl. split.
        -- split; [intros _ | intros _; eexists; reflexivity].
           right; right. destruct Hbad as [Hb|Hb].
           ++ apply stepsize_default_bad in Hb as (v & Hv & Hnp).
              exists stepsize_key, v. auto.
           ++ exists avg_desc_per_key, vd. auto.
        -- intros Hn. exfalso. apply Hn. right; right. destruct Hbad as [Hb|Hb].
           ++ apply stepsize_default_bad in Hb as (v & Hv & Hnp).
              exists stepsize_key, v. auto.
           ++ exists avg_desc_per_key, vd. auto.
    + (* neither *)
      split.
      * split; [intros _; right; left; auto | intros _; eexists; reflexivity].
      * intros Hn. exfalso. apply Hn. right; left; auto.
Qed.

(** ** numpy arrays *)

Section Arrays.
Context {A : Type}.
Implicit Types (a : list A) (i : Z) (n : nat).

Lemma norm_index_lt len i n : norm_index len i = Some n -> (n < len)%nat.
Proof.
  unfold norm_index. repeat case_bool_decide; intros Heq; inversion Heq; lia.
Qed.

Lemma norm_index_nonneg len i :
  0 <= i < Z.of_nat len -> norm_index len i = Some (Z.to_nat i).
Proof. intros H. unfold norm_index. rewrite bool_decide_eq_true_2; auto. Qed.

Lemma norm_index_last len :
  (0 < len)%nat -> norm_index len (-1) = Some (len - 1)%nat.
Proof.
  intros H. unfold norm_index.
  rewrite bool_decide_eq_false_2 by lia.
  rewrite bool_decide_eq_true_2 by lia. f_equal. lia.
Qed.

Lemma getitem_nonneg a i x :
  0 <= i -> a !! Z.to_nat i = Some x -> getitem a i = Ok x.
Proof.
  intros Hi Hx. unfold getitem.
  rewrite norm_index_nonneg, Hx; [reflexivity|].
  apply lookup_lt_Some in Hx. lia.
Qed.

Lemma getitem_last a x :
  a !! (length a - 1)%nat = Some x -> getitem a (-1) = Ok x.
Proof.
  intros Hx. unfold getitem.
  rewrite norm_index_last, Hx; [reflexivity|].
  apply lookup_lt_Some in Hx. lia.
Qed.

Lemma take_idx_fmap {B} a (phi : B -> Z) (g : B -> A) (l : list B) :
  Forall (fun x => getitem a (phi x) = Ok (g x)) l ->
  take_idx a (map phi l) = Ok (map g l).
Proof.
  induction 1 as [|x l Hx _ IH]; simpl; [reflexivity|].
  rewrite Hx. simpl. rewrite IH. reflexivity.
Qed.

Lemma take_idx_length a idx xs :
  take_idx a idx = Ok xs -> length xs = length idx.
Proof.
  revert xs. induction idx as [|i idx IH]; simpl; intros xs H.
  - inversion H. reflexivity.
  - destruct (getitem a i); simpl in H; [|discriminate].
    destruct (take_idx a idx); simpl in H; [|discriminate].
    inversion H. simpl. f_equal. apply IH. reflexivity.
Qed.

Lemma setitem_length a i x : length (setitem a i x) = length a.
Proof. unfold setitem. destruct (norm_index _ _); [apply length_insert|reflexivity]. Qed.

Lemma put_idx_length a idx vals : length (put_idx a idx vals) = length a.
Proof.
  revert a vals. induction idx as [|i idx IH]; intros a [|x vals]; simpl; try reflexivity.
  rewrite IH. apply setitem_length.
Qed.

Lemma setitem_lookup a i x n :
  setitem a i x !! n =
  if bool_decide (norm_index (length a) i = Some n) then Some x else a !! n.
Proof.
  unfold setitem. destruct (norm_index (length a) i) as [m|] eqn:E.
  - apply norm_index_lt in E. case_bool_decide as H.
    + inversion H; subst. apply list_lookup_insert_eq. exact E.
    + apply list_lookup_insert_ne. congruence.
  - rewrite bool_decide_eq_false_2 by discriminate. reflexivity.
Qed.

(** A scatter leaves at position [n] the value of the last write that
    lands there. *)
Lemma put_idx_lookup a (l : list (Z * A)) n :
  put_idx a l.*1 l.*2 !! n =
  match last_such (fun i => bool_decide (norm_index (length a) i = Some n)) l with
  | Some v => Some v
  | None => a !! n
  end.
Proof.
  revert a. induction l as [|[i x] l IH]; intros a; simpl; [reflexivity|].
  rewrite IH, setitem_length.
  destruct (last_such _ l); [reflexivity|].
  rewrite setitem_lookup. case_bool_decide; reflexivity.
Qed.

Lemma mask_select_fmap {B} (g : B -> A) (P : B -> bool) (l : list B) :
  mask_select (map g l) (map P l) = map g (List.filter P l).
Proof.
  induction l as [|x l IH]; simpl; [reflexivity|].
  destruct (P x); simpl; rewrite IH; reflexivity.
Qed.

Lemma mask_assign_lookup a (mask : list bool) (c : list A) n :
  length mask = length a -> length c = length a ->
  mask_assign a mask (mask_select c mask) !! n =
  match mask !! n with
  | Some true => c !! n
  | _ => a !! n
  end.
Proof.
  revert mask c n. induction a as [|x a IH]; intros [|b mask] [|y c] n Hm Hc;
    simpl in *; try discriminate; [reflexivity|].
  destruct b; simpl; destruct n as [|n]; simpl; try reflexivity;
    apply IH; lia.
Qed.

Lemma mask_assign_length a (mask : list bool) (vals : list A) :
  length (mask_assign a mask vals) = length a.
Proof.
  revert mask vals. induction a as [|x a IH]; intros [|b mask] vals; simpl; try reflexivity.
  destruct b; [destruct vals|]; simpl; rewrite ?IH; reflexivity.
Qed.

Lemma mask_update_lookup (f : A -> A) a (mask : list bool) n :
  mask_update f a mask !! n =
  match a !! n, (mask !! n : option bool) with
  | Some x, Some b => Some (if b then f x else x)
  | _, _ => None
  end.
Proof.
  unfold mask_update. rewrite lookup_zip_with.
  destruct (a !! n); simpl; [|reflexivity].
  destruct (mask !! n); reflexivity.
Qed.

Lemma mask_update_length (f : A -> A) a (mask : list bool) :
  length mask = length a -> length (mask_update f a mask) = length a.
Proof. intros H. unfold mask_update. rewrite length_zip_with. lia. Qed.

End Arrays.

Lemma mask_select_self {B} (P : B -> bool) (l : list B) :
  mask_select l (map P l) = List.filter P l.
Proof.
  induction l as [|x l IH]; simpl; [reflexivity|].
  destruct (P x); simpl; rewrite IH; reflexivity.
Qed.

Lemma existsb_id_fmap {B} (P : B -> bool) (l : list B) :
  existsb id (map P l) = false -> List.filter P l = [].
Proof.
  induction l as [|x l IH]; simpl; [reflexivity|].
  destruct (P x); simpl; [discriminate | exact IH].
Qed.

(** ** Last writes *)

Lemma last_such_ext {B} (P Q : Z -> bool) (l : list (Z * B)) :
  Forall (fun p => P p.1 = Q p.1) l -> last_such P l = last_such Q l.
Proof.
  induction 1 as [|[i x] l Hx _ IH]; simpl in *; [reflexivity|].
  rewrite IH, Hx. reflexivity.
Qed.

Lemma last_such_none {B} (P : Z -> bool) (l : list (Z * B)) :
  last_such P l = None <-> Forall (fun p => P p.1 = false) l.
Proof.
  induction l as [|[i x] l IH]; simpl.
  - split; [constructor | reflexivity].
  - destruct (last_such P l) eqn:E.
    + split; [discriminate|]. intros H. inversion H; subst.
      apply IH in H3. discriminate.
    + destruct (P i) eqn:Ei; split; try discriminate.
      * intros H. inversion H; subst. simpl in *. congruence.
      * intros _. constructor; [exact Ei | apply IH; reflexivity].
      * reflexivity.
Qed.

Lemma last_such_fmap {B C} (P : Z -> bool) (phi : Z -> Z) (psi : Z * B -> C)
  (l : list (Z * B)) :
  last_such P (map (fun p => (phi p.1, psi p)) l) =
  last_such (fun i => P (phi i)) (map (fun p => (p.1, psi p)) l).
Proof.
  induction l as [|[i x] l IH]; simpl; [reflexivity|].
  rewrite IH. reflexivity.
Qed.

Lemma last_such_filter {B} (P Q : Z -> bool) (l : list (Z * B)) :
  last_such P (List.filter (fun p => Q p.1) l) =
  last_such (fun i => Q i && P i) l.
Proof.
  induction l as [|[i x] l IH]; simpl; [reflexivity|].
  destruct (Q i) eqn:E; simpl; rewrite IH; [reflexivity|].
  destruct (last_such _ l); reflexivity.
Qed.

(** ** Occupancy counter *)

Lemma put_idx_Forall {A} (P : A -> Prop) (a : list A) idx vals :
  Forall P a -> Forall P vals -> Forall P (put_idx a idx vals).
Proof.
  revert a vals. induction idx as [|i idx IH]; intros a [|x vals] Ha Hv; simpl; auto.
  inversion Hv; subst. apply IH; [|assumption].
  unfold setitem. destruct (norm_index _ _); [|assumption].
  apply Forall_insert; assumption.
Qed.

Lemma take_idx_Forall {A} (P : A -> Prop) (a : list A) idx xs :
  Forall P a -> take_idx a idx = Ok xs -> Forall P xs.
Proof.
  intros Ha. revert xs. induction idx as [|i idx IH]; simpl; intros xs H.
  - inversion H. constructor.
  - unfold getitem in H. destruct (norm_index _ _) as [n|]; [|discriminate].
    destruct (a !! n) as [x|] eqn:E; [|discriminate]. simpl in H.
    destruct (take_idx a idx); simpl in H; [|discriminate].
    inversion H; subst. constructor; [|apply IH; reflexivity].
    eapply Forall_lookup_1; eauto.
Qed.

Lemma count_frame_inv counts f counts' :
  count_frame counts f = Ok counts' ->
  length counts' = length counts
  /\ (Forall (fun c => 0 <= c) counts -> Forall (fun c => 0 <= c) counts').
Proof.
  unfold count_frame. destruct (take_idx counts f) as [old|] eqn:E; simpl; [|discriminate].
  intros H. inversion H; subst. split; [apply put_idx_length|].
  intros Hc. apply put_idx_Forall; [assumption|].
  apply Forall_fmap. eapply Forall_impl; [eapply take_idx_Forall; eauto|].
  simpl. intros; lia.
Qed.

Lemma count_frames_inv counts site_traj counts' :
  count_frames counts site_traj = Ok counts' ->
  length counts' = length counts
  /\ (Forall (fun c => 0 <= c) counts -> Forall (fun c => 0 <= c) counts').
Proof.
  revert counts. induction site_traj as [|f rest IH]; simpl; intros counts H.
  - inversion H; subst. auto.
  - destruct (count_frame counts f) as [c1|] eqn:E; simpl in H; [|discriminate].
    apply count_frame_inv in E as [El Ep]. apply IH in H as [Hl Hp].
    split; [congruence | auto].
Qed.

Lemma removelast_lookup {A} (l : list A) (n : nat) :
  (n < length l - 1)%nat -> removelast l !! n = l !! n.
Proof.
  intros H. rewrite removelast_firstn_len. apply lookup_take_lt. lia.
Qed.

Lemma removelast_length {A} (l : list A) :
  length (removelast l) = (length l - 1)%nat.
Proof. rewrite removelast_firstn_len, length_take. lia. Qed.

Lemma occupancy_inv nsit site_traj counts :
  occupancy nsit site_traj = Ok counts ->
  length counts = nsit /\ Forall (fun c => 0 <= c) counts.
Proof.
  unfold occupancy.
  destruct (count_frames _ _) as [c|] eqn:E; simpl; [|discriminate].
  intros H; inversion H; subst.
  apply count_frames_inv in E as [El Ep]. rewrite length_replicate in El.
  split.
  - rewrite removelast_length. lia.
  - rewrite removelast_firstn_len. apply Forall_take, Ep, Forall_replicate. lia.
Qed.

Lemma last_such_const {B} (P : Z -> bool) (v : B) (l : list (Z * B)) :
  Forall (fun p => P p.1 = true -> p.2 = v) l ->
  last_such P l = if existsb P l.*1 then Some v else None.
Proof.
  induction 1 as [|[i x] l Hx _ IH]; simpl in *; [reflexivity|].
  rewrite IH. destruct (P i) eqn:E; simpl.
  - rewrite Hx by reflexivity. destruct (existsb P _); reflexivity.
  - destruct (existsb P _); reflexivity.
Qed.

Lemma existsb_eqb_elem (s : Z) (f : list Z) :
  existsb (Z.eqb s) f = bool_decide (s ∈ f).
Proof.
  induction f as [|i f IH].
  - symmetry. apply bool_decide_eq_false_2, not_elem_of_nil.
  - cbn [existsb]. rewrite IH. destruct (Z.eqb_spec s i) as [->|Hne].
    + symmetry. apply bool_decide_eq_true_2, list_elem_of_here.
    + apply bool_decide_ext. rewrite elem_of_cons. tauto.
Qed.

(** One frame of the counting pass, site by site. *)
Lemma count_frame_spec nsit counts f :
  length counts = (nsit + 1)%nat ->
  Forall (valid_site nsit) f ->
  exists counts',
    count_frame counts f = Ok counts'
    /\ forall s, (s < nsit)%nat ->
         counts' !! s =
         (fun c => if bool_decide (Z.of_nat s ∈ f) then c + 1 else c) <$> counts !! s.
Proof.
  intros Hlen Hf.
  set (g := fun i : Z =>
              default 0 (counts !! default 0%nat (norm_index (length counts) i))).
  assert (Hget : take_idx counts (map id f) = Ok (map g f)).
  { apply take_idx_fmap. eapply Forall_impl; [exact Hf|].
    intros i [->|Hi]; unfold g, getitem, id.
    - unfold SITE_UNKNOWN. rewrite norm_index_last by lia. simpl.
      destruct (lookup_lt_is_Some_2 counts (length counts - 1)) as [x ->]; [lia|].
      reflexivity.
    - rewrite norm_index_nonneg by lia. simpl.
      destruct (lookup_lt_is_Some_2 counts (Z.to_nat i)) as [x ->]; [lia|].
      reflexivity. }
  rewrite list_fmap_id in Hget.
  unfold count_frame. rewrite Hget. simpl. eexists. split; [reflexivity|].
  intros s Hs.
  set (l := map (fun i => (i, Z.succ (g i))) f).
  assert (H1 : f = l.*1).
  { unfold l. rewrite <- list_fmap_compose. symmetry. apply list_fmap_id. }
  assert (H2 : map Z.succ (map g f) = l.*2).
  { unfold l. rewrite <- !list_fmap_compose. reflexivity. }
  rewrite H2. rewrite H1 at 1. rewrite put_idx_lookup.
  destruct (lookup_lt_is_Some_2 counts s) as [c Hc]; [lia|].
  rewrite Hc. simpl.
  rewrite (last_such_ext _ (Z.eqb (Z.of_nat s))).
  2:{ unfold l. apply Forall_fmap. eapply Forall_impl; [exact Hf|].
      intros i Hi. simpl. destruct Hi as [->|Hi].
      - unfold SITE_UNKNOWN. rewrite norm_index_last by lia.
        rewrite bool_decide_eq_false_2 by (intros H; inversion H; lia).
        symmetry. apply Z.eqb_neq. lia.
      - rewrite norm_index_nonneg by lia.
        destruct (Z.eqb_spec (Z.of_nat s) i) as [<-|Hne].
        + rewrite bool_decide_eq_true_2; [reflexivity | f_equal; lia].
        + rewrite bool_decide_eq_false_2; [reflexivity|].
          intros H; inversion H; lia. }
  rewrite (last_such_const _ (c + 1)).
  2:{ unfold l. apply Forall_fmap, Forall_forall. intros i _. simpl.
      intros Hi%Z.eqb_eq. subst i. unfold g.
      rewrite norm_index_nonneg by lia. rewrite Nat2Z.id. simpl.
      rewrite Hc. simpl. lia. }
  rewrite <- H1, existsb_eqb_elem. case_bool_decide; reflexivity.
Qed.

Lemma occupied_frames_cons s f rest :
  occupied_frames s (f :: rest) =
  (if bool_decide (s ∈ f) then 1 else 0) + occupied_frames s rest.
Proof.
  unfold occupied_frames. rewrite filter_cons.
  destruct (decide (s ∈ f)) as [H|H].
  - rewrite bool_decide_eq_true_2 by assumption. simpl length. lia.
  - rewrite bool_decide_eq_false_2 by assumption. lia.
Qed.

Lemma count_frames_spec nsit counts site_traj :
  length counts = (nsit + 1)%nat ->
  Forall (Forall (valid_site nsit)) site_traj ->
  exists counts',
    count_frames counts site_traj = Ok counts'
    /\ forall s, (s < nsit)%nat ->
         counts' !! s =
         (fun c => c + occupied_frames (Z.of_nat s) site_traj) <$> counts !! s.
Proof.
  intros Hlen Hv. revert counts Hlen.
  induction Hv as [|f rest Hf _ IH]; intros counts Hlen; simpl.
  - exists counts. split; [reflexivity|]. intros s Hs.
    unfold occupied_frames. simpl.
    destruct (counts !! s); simpl; f_equal; lia.
  - destruct (count_frame_spec nsit counts f Hlen Hf) as (c1 & E1 & S1).
    rewrite E1. simpl.
    destruct (IH c1) as (c2 & E2 & S2).
    { apply count_frame_inv in E1 as [-> _]. exact Hlen. }
    exists c2. split; [exact E2|]. intros s Hs.
    rewrite S2, S1 by assumption. rewrite occupied_frames_cons.
    destruct (counts !! s); simpl; [|reflexivity].
    case_bool_decide; f_equal; lia.
Qed.

(** The counter on valid assignments. *)
Lemma occupancy_spec nsit site_traj :
  Forall (Forall (valid_site nsit)) site_traj ->
  exists counts,
    occupancy nsit site_traj = Ok counts
    /\ length counts = nsit
    /\ forall s, (s < nsit)%nat ->
         counts !! s = Some (occupied_frames (Z.of_nat s) site_traj).
Proof.
  intros Hv.
  destruct (count_frames_spec nsit (replicate (nsit + 1) 0) site_traj)
    as (c & E & S); [apply length_replicate | exact Hv |].
  assert (Hl : length c = (nsit + 1)%nat).
  { apply count_frames_inv in E as [-> _]. apply length_replicate. }
  unfold occupancy. rewrite E. simpl. eexists. split; [reflexivity|].
  split; [rewrite removelast_length; lia|].
  intros s Hs. rewrite removelast_lookup by lia. rewrite S by assumption.
  rewrite lookup_replicate_2 by lia. simpl. reflexivity.
Qed.

Lemma occupied_frames_pairs (s : Z) (site_traj : list (list Z)) :
  Forall (fun f => (length (filter (fun i => i = s) f) <= 1)%nat) site_traj ->
  occupied_frames s site_traj = assigned_pairs s site_traj.
Proof.
  induction 1 as [|f rest Hf _ IH]; [reflexivity|].
  rewrite occupied_frames_cons, IH. unfold assigned_pairs. cbn [map np_sum foldr].
  f_equal. case_bool_decide as Hin.
  - assert (Hin' : s ∈ filter (fun i => i = s) f).
    { apply list_elem_of_filter. split; [reflexivity | exact Hin]. }
    destruct (filter (fun i => i = s) f) as [|x l];
      [apply elem_of_nil in Hin'; contradiction | simpl in *; lia].
  - destruct (filter (fun i => i = s) f) as [|x l] eqn:E; [reflexivity|].
    exfalso. apply Hin.
    assert (Hx : x ∈ filter (fun i => i = s) f) by (rewrite E; apply list_elem_of_here).
    apply list_elem_of_filter in Hx as [-> Hx]. exact Hx.
Qed.

(** C2, as the code has it: on valid assignments the counter returns, for
    each site, the number of sampled frames in which at least one entity is
    assigned to the site; the sentinel is ignored, and several entities on
    one site in one frame count once. Where no frame assigns two entities
    to the site, this is the number of (entity, frame) pairs. *)
Theorem occupancy_counts_occupied_frames nsit (site_traj : list (list Z)) :
  Forall (Forall (valid_site nsit)) site_traj ->
  exists counts,
    occupancy nsit site_traj = Ok counts
    /\ length counts = nsit
    /\ forall s, (s < nsit)%nat ->
         counts !! s = Some (occupied_frames (Z.of_nat s) site_traj)
         /\ (Forall (fun f => (length (filter (fun i => i = Z.of_nat s) f) <= 1)%nat)
               site_traj ->
             counts !! s = Some (assigned_pairs (Z.of_nat s) site_traj)).
Proof.
  intros Hv. destruct (occupancy_spec nsit site_traj Hv) as (counts & Hocc & Hlen & H).
  exists counts. split; [exact Hocc|]. split; [exact Hlen|].
  intros s Hs. split; [apply H, Hs|].
  intros Hone. rewrite (H s Hs). f_equal. apply occupied_frames_pairs, Hone.
Qed.

Lemma occupancy_counts_occupied_frames_witness :
  exists counts,
    occupancy 2 [[0; 0; -1]; [1; 0]] = Ok counts
    /\ length counts = 2%nat
    /\ forall s, (s < 2)%nat ->
         counts !! s = Some (occupied_frames (Z.of_nat s) [[0; 0; -1]; [1; 0]])
         /\ (Forall (fun f => (length (filter (fun i => i = Z.of_nat s) f) <= 1)%nat)
               [[0; 0; -1]; [1; 0]] ->
             counts !! s = Some (assigned_pairs (Z.of_nat s) [[0; 0; -1]; [1; 0]])).
Proof.
  apply (occupancy_counts_occupied_frames 2 [[0; 0; -1]; [1; 0]]).
  repeat constructor; unfold valid_site, SITE_UNKNOWN; lia.
Defined.

(** C2 as stated fails: two entities on site 0 in the one sampled frame
    are two (entity, frame) pairs, and the counter returns 1. *)
Lemma occupancy_counts_pairs_counterexample :
  ~ (forall nsit (site_traj : list (list Z)) counts s,
       Forall (Forall (valid_site nsit)) site_traj ->
       occupancy nsit site_traj = Ok counts ->
       (s < nsit)%nat ->
       counts !! s = Some (assigned_pairs (Z.of_nat s) site_traj)).
Proof.
  intros H.
  specialize (H 1%nat [[0; 0]] [1] 0%nat).
  assert (Hv : Forall (Forall (valid_site 1)) [[0; 0]]).
  { repeat constructor; unfold valid_site; lia. }
  specialize (H Hv eq_refl ltac:(lia)).
  vm_compute in H. discriminate.
Qed.

(** ** Logging computations *)

Lemma mbindM_returns {A B} (m : M A) (f : A -> M B) (b : B) :
  returns (mbindM m f) b -> exists a, returns m a /\ returns (f a) b.
Proof.
  unfold returns, mbindM. destruct m as [l [a|e]]; simpl.
  - intros H. exists a. split; [reflexivity|]. destruct (f a); exact H.
  - discriminate.
Qed.

Lemma mbindM_returns_2 {A B} (m : M A) (f : A -> M B) (a : A) :
  returns m a -> (mbindM m f).2 = (f a).2.
Proof.
  unfold returns, mbindM. destruct m as [l [a'|e]]; simpl; intros H; inversion H; subst.
  destruct (f a); reflexivity.
Qed.

Lemma lift_returns {A} (r : result A) (a : A) : returns (lift r) a <-> r = Ok a.
Proof. reflexivity. Qed.

(** ** Averaging planner *)

Lemma np_sum_nonneg (l : list Z) : Forall (fun c => 0 <= c) l -> 0 <= np_sum l.
Proof. induction 1; simpl; lia. Qed.

Lemma floor_mean_over (S n T : Z) :
  0 < n -> 0 < T ->
  Qfloor (inject_Z S / inject_Z n / inject_Z T) = S `div` (n * T).
Proof.
  intros Hn HT. rewrite Zdiv_Qdiv. apply Qfloor_comp.
  rewrite inject_Z_mult. field. split.
  - intros H. apply (inject_Z_injective T 0) in H. lia.
  - intros H. apply (inject_Z_injective n 0) in H. lia.
Qed.

Lemma machine_below_float_limit : 2 ^ 63 < float_limit.
Proof. vm_compute. reflexivity. Qed.

Lemma derived_averaging_spec (counts : list Z) (T : Z) :
  counts <> [] -> 0 < T -> T < float_limit ->
  derived_averaging counts T =
  Ok (np_sum counts `div` (Z.of_nat (length counts) * T)).
Proof.
  intros Hne HT Hlim. unfold derived_averaging, np_mean.
  rewrite bool_decide_eq_true_2 by (pose proof machine_below_float_limit; lia).
  destruct counts as [|c counts]; [congruence|].
  destruct (Z.eqb_spec T 0); [lia|].
  f_equal. apply floor_mean_over; [simpl length; lia | exact HT].
Qed.

Lemma derived_averaging_overflow (counts : list Z) (T : Z) :
  float_limit <= T -> derived_averaging counts T = Raise OverflowError.
Proof.
  intros H. unfold derived_averaging.
  rewrite bool_decide_eq_false_2 by lia. reflexivity.
Qed.

(** C5: in target-outputs-per-site mode with a positive [T] (and at least
    one site, so that the mean exists): when [T] converts to a float,
    [T < 2^1024 - 2^970], the divisor candidate is the one value
    floor(mean(counts) / T), and when that is 0 the candidate is 1, a
    warning is logged and the computation goes on; a larger [T] raises
    [OverflowError] in the division, before anything is logged. *)
Theorem target_mode_divisor_candidate stepsize (counts : list Z) (T : Z) :
  counts <> [] -> 0 < T ->
  let d := np_sum counts `div` (Z.of_nat (length counts) * T) in
  let self := mkSOAPDescriptorAverages stepsize None (Some T) in
  (T < float_limit ->
   derived_averaging counts T = Ok d
   /\ resolve_averaging self counts =
      if d =? 0
      then ([DebugWillAverage 0; WarningTooManyAverages], Ok 1)
      else ([DebugWillAverage d], Ok d))
  /\ (float_limit <= T ->
      resolve_averaging self counts = ([], Raise OverflowError)).
Proof.
  intros Hne HT d self. split.
  - intros Hlim.
    pose proof (derived_averaging_spec counts T Hne HT Hlim) as Hd. fold d in Hd.
    split; [exact Hd|].
    unfold resolve_averaging, self. cbn [_averaging _avg_desc_per_site].
    rewrite Hd. simpl.
    destruct (Z.eqb_spec d 0) as [->|Hd0]; reflexivity.
  - intros Hlim. unfold resolve_averaging, self. cbn [_averaging _avg_desc_per_site].
    rewrite (derived_averaging_overflow counts T Hlim). reflexivity.
Qed.

(** Occupancies 1 and 2 with T = 5: the floor of 1.5 / 5 is 0. *)
Lemma target_mode_divisor_candidate_witness :
  let d := np_sum [1; 2] `div` (Z.of_nat (length [1; 2]) * 5) in
  let self := mkSOAPDescriptorAverages 1 None (Some 5) in
  (5 < float_limit ->
   derived_averaging [1; 2] 5 = Ok d
   /\ resolve_averaging self [1; 2] =
      if d =? 0
      then ([DebugWillAverage 0; WarningTooManyAverages], Ok 1)
      else ([DebugWillAverage d], Ok d))
  /\ (float_limit <= 5 ->
      resolve_averaging self [1; 2] = ([], Raise OverflowError)).
Proof.
  apply (target_mode_divisor_candidate 1 [1; 2] 5); [discriminate | lia].
Defined.

(** The candidate of an oversized [T] would be 0, to be set to 1 with a
    warning; the run raises instead. *)
Lemma target_mode_overflow_counterexample :
  0 < 10 ^ 400
  /\ np_sum [1; 2] `div` (Z.of_nat (length [1; 2]) * 10 ^ 400) = 0
  /\ resolve_averaging (mkSOAPDescriptorAverages 1 None (Some (10 ^ 400))) [1; 2]
     = ([], Raise OverflowError)
  /\ (_get_descriptors (mkSOAPDescriptorAverages 1 None (Some (10 ^ 400))) 1 1
        example_traj_five).2 = Raise OverflowError.
Proof.
  split; [vm_compute; reflexivity|].
  split; [vm_compute; reflexivity|].
  split; vm_compute; reflexivity.
Qed.

Lemma resolve_averaging_positive self counts D :
  valid_configuration self ->
  Forall (fun c => 0 <= c) counts ->
  returns (resolve_averaging self counts) D -> 0 < D.
Proof.
  intros [_ [(W & HW & _ & HWp)|(T & Ha & HT & HTp)]] Hc;
    unfold returns, resolve_averaging.
  - rewrite HW. simpl. destruct (Z.eqb_spec W 0); [lia|]. simpl.
    intros H; inversion H; subst. exact HWp.
  - rewrite Ha, HT. cbn [lift mbindM].
    destruct (Z_lt_le_dec T float_limit) as [Hlim|Hlim];
      [|rewrite derived_averaging_overflow by exact Hlim; simpl; discriminate].
    destruct (decide (counts = [])) as [->|Hne].
    { unfold derived_averaging.
      destruct (bool_decide _); simpl; discriminate. }
    rewrite derived_averaging_spec by auto. simpl.
    set (d := _ `div` _).
    assert (0 <= d).
    { apply Z.div_pos; [apply np_sum_nonneg, Hc |].
      destruct counts; [congruence | simpl length; lia]. }
    destruct (Z.eqb_spec d 0); simpl; intros H'; inversion H'; subst; lia.
Qed.

Lemma resolve_averaging_total self counts :
  valid_configuration self -> machine_sized self -> counts <> [] ->
  exists D, returns (resolve_averaging self counts) D.
Proof.
  intros [_ [(W & HW & _ & HWp)|(T & Ha & HT & HTp)]] [_ Hm] Hc;
    unfold returns, resolve_averaging.
  - rewrite HW. simpl. destruct (W =? 0); simpl; eauto.
  - rewrite Ha, HT. cbn [lift mbindM]. rewrite HT in Hm.
    rewrite derived_averaging_spec
      by (auto; pose proof machine_below_float_limit; lia).
    simpl. destruct (_ =? 0); simpl; eauto.
Qed.


Lemma forallb_max_1 (l : list Z) :
  forallb (fun n => 1 <=? n) (map (fun n => Z.max n 1) l) = true.
Proof.
  induction l as [|x l IH]; simpl; [reflexivity|].
  rewrite IH. destruct (Z.leb_spec 1 (Z.max x 1)); [reflexivity | lia].
Qed.

Lemma plan_result counts D :
  (plan counts D).2 =
  match counts with
  | [] => Raise ValueError
  | _ =>
      Ok (mkPlan (map (fun n => Z.max n 1) (map (fun c => c `div` D) counts))
            (mask_assign (replicate (length (map (fun c => c `div` D) counts)) D)
               (map (fun n => n =? 0) (map (fun c => c `div` D) counts))
               (mask_select counts
                  (map (fun n => n =? 0) (map (fun c => c `div` D) counts)))))
  end.
Proof.
  unfold plan.
  set (nr0 := map (fun c => c `div` D) counts).
  set (ins := map (fun n => n =? 0) nr0).
  assert (Hnr : map (fun n => Z.max n 1) nr0 = [] <-> counts = []).
  { unfold nr0. destruct counts; simpl; split; intros; congruence. }
  destruct (existsb id ins); simpl;
    rewrite forallb_max_1; simpl;
    destruct (map (fun n => Z.max n 1) nr0) eqn:E.
  all: destruct counts; try reflexivity.
  all: try (exfalso; destruct Hnr as [H1 H2]; (discriminate (H1 eq_refl) || discriminate (H2 eq_refl))).
Qed.

Lemma plan_returns counts D p :
  returns (plan counts D) p ->
  counts <> []
  /\ nr_of_descs p = map (planned_count D) counts
  /\ forall s, averagings p !! s = planned_divisor D <$> counts !! s.
Proof.
  unfold returns. rewrite plan_result.
  destruct counts as [|c0 counts0] eqn:Ec; [discriminate|].
  rewrite <- Ec. intros H. injection H as <-.
  cbn [nr_of_descs averagings].
  split; [rewrite Ec; discriminate|]. split.
  - rewrite <- list_fmap_compose. reflexivity.
  - intros s. rewrite mask_assign_lookup.
    2:{ rewrite length_replicate, !length_fmap. reflexivity. }
    2:{ rewrite length_replicate, !length_fmap. reflexivity. }
    rewrite !list_lookup_fmap.
    destruct (counts !! s) as [x|] eqn:E; simpl.
    + unfold planned_divisor. destruct (x `div` D =? 0); [reflexivity|].
      apply lookup_replicate_2. rewrite length_fmap.
      eapply lookup_lt_Some; eauto.
    + apply lookup_replicate_None. rewrite length_fmap.
      apply lookup_ge_None. exact E.
Qed.

Lemma plan_total counts D :
  counts <> [] -> exists p, returns (plan counts D) p.
Proof.
  intros H. unfold returns. rewrite plan_result.
  destruct counts; [congruence | eauto].
Qed.

(** C4: for counts from the counter, a positive divisor candidate [D] and
    every site: if [counts[s] // D] is 0 the site gets one output vector
    with divisor [counts[s]], otherwise [counts[s] // D] output vectors
    with divisor [D]. *)
Theorem plan_per_site nsit site_traj counts D p (s : nat) c :
  occupancy nsit site_traj = Ok counts ->
  0 < D ->
  returns (plan counts D) p ->
  counts !! s = Some c ->
  if c `div` D =? 0
  then nr_of_descs p !! s = Some 1 /\ averagings p !! s = Some c
  else nr_of_descs p !! s = Some (c `div` D) /\ averagings p !! s = Some D.
Proof.
  intros Hocc HD Hp Hc.
  apply occupancy_inv in Hocc as [_ Hpos].
  apply plan_returns in Hp as (_ & Hnr & Hav).
  rewrite Hnr, Hav, list_lookup_fmap, Hc. simpl.
  unfold planned_count, planned_divisor.
  assert (0 <= c) by (eapply Forall_lookup_1 in Hpos; eauto).
  assert (0 <= c `div` D) by (apply Z.div_pos; lia).
  destruct (Z.eqb_spec (c `div` D) 0) as [E|E].
  - rewrite E. split; reflexivity.
  - split; [f_equal; lia | reflexivity].
Qed.

(** The specification's scenario: a window of 3, occupancies 7 and 2. *)
Lemma plan_per_site_witness :
  (if 7 `div` 3 =? 0
   then nr_of_descs (mkPlan [2; 1] [3; 2]) !! 0%nat = Some 1
        /\ averagings (mkPlan [2; 1] [3; 2]) !! 0%nat = Some 7
   else nr_of_descs (mkPlan [2; 1] [3; 2]) !! 0%nat = Some (7 `div` 3)
        /\ averagings (mkPlan [2; 1] [3; 2]) !! 0%nat = Some 3).
Proof.
  apply (plan_per_site 2
           [[0; 1]; [0; 1]; [0]; [0]; [0]; [0]; [0]] [7; 2] 3
           (mkPlan [2; 1] [3; 2]) 0 7);
    [reflexivity | lia | reflexivity | reflexivity].
Defined.

(** ** Structure of a run *)

Lemma planning_returns self nsit traj frames p :
  returns (planning self nsit traj) (frames, p) ->
  exists counts D,
    slice_step (_stepsize self) traj = Ok frames
    /\ occupancy nsit (map (fun f : frame => f.*1) frames) = Ok counts
    /\ returns (resolve_averaging self counts) D
    /\ returns (plan counts D) p.
Proof.
  unfold planning. intros H.
  apply mbindM_returns in H as (frames' & H1 & H).
  apply mbindM_returns in H as (counts & H2 & H).
  apply mbindM_returns in H as (D & H3 & H).
  apply mbindM_returns in H as (p' & H4 & H).
  unfold returns in H. simpl in H. inversion H; subst.
  exists counts, D. auto.
Qed.

Lemma planning_complete self nsit traj frames counts D p :
  slice_step (_stepsize self) traj = Ok frames ->
  occupancy nsit (map (fun f : frame => f.*1) frames) = Ok counts ->
  returns (resolve_averaging self counts) D ->
  returns (plan counts D) p ->
  returns (planning self nsit traj) (frames, p).
Proof.
  intros H1 H2 H3 H4. unfold returns, planning.
  rewrite (mbindM_returns_2 _ _ frames) by exact H1.
  rewrite (mbindM_returns_2 _ _ counts) by exact H2.
  rewrite (mbindM_returns_2 _ _ D) by exact H3.
  rewrite (mbindM_returns_2 _ _ p) by exact H4.
  reflexivity.
Qed.

Lemma planning_shape self nsit traj frames p :
  returns (planning self nsit traj) (frames, p) ->
  exists counts D,
    occupancy nsit (map (fun f : frame => f.*1) frames) = Ok counts
    /\ returns (resolve_averaging self counts) D
    /\ length counts = nsit
    /\ Forall (fun c => 0 <= c) counts
    /\ nr_of_descs p = map (planned_count D) counts
    /\ averagings p = map (planned_divisor D) counts.
Proof.
  intros H. apply planning_returns in H as (counts & D & _ & Hocc & HD & Hp).
  exists counts, D. pose proof (occupancy_inv _ _ _ Hocc) as [Hlen Hpos].
  apply plan_returns in Hp as (_ & Hnr & Hav).
  repeat split; try assumption.
  apply list_eq. intros s. rewrite Hav, list_lookup_fmap. reflexivity.
Qed.


Lemma get_descriptors_result self nsit n_dim traj frames p :
  returns (planning self nsit traj) (frames, p) ->
  (_get_descriptors self nsit n_dim traj).2 =
  match accumulation nsit n_dim frames p with
  | Ok st =>
      if existsb id (allowed st) then Raise AssertionError
      else Ok (descs st, labels_of nsit p)
  | Raise e => Raise e
  end.
Proof.
  intros H. unfold _get_descriptors.
  rewrite (mbindM_returns_2 _ _ (frames, p)) by exact H.
  cbn [fst snd].
  destruct (accumulation nsit n_dim frames p) as [st|e]; [|reflexivity].
  rewrite (mbindM_returns_2 _ _ st) by reflexivity.
  destruct (existsb id (allowed st)); reflexivity.
Qed.

Lemma get_descriptors_returns self nsit n_dim traj descs0 labels :
  returns (_get_descriptors self nsit n_dim traj) (descs0, labels) ->
  exists frames p st,
    returns (planning self nsit traj) (frames, p)
    /\ accumulation nsit n_dim frames p = Ok st
    /\ existsb id (allowed st) = false
    /\ descs0 = descs st
    /\ labels = labels_of nsit p.
Proof.
  intros H. pose proof H as H0. unfold _get_descriptors in H.
  apply mbindM_returns in H as ([frames p] & Hp & _).
  unfold returns in H0. rewrite (get_descriptors_result _ _ _ _ frames p Hp) in H0.
  destruct (accumulation nsit n_dim frames p) as [st|e] eqn:Ea; [|discriminate].
  destruct (existsb id (allowed st)) eqn:E; [discriminate|].
  inversion H0; subst. exists frames, p, st.
  repeat split; first [assumption | reflexivity].
Qed.

(** ** What every accumulation pass preserves *)

Lemma describe_inv avgs st sel st' :
  describe avgs st sel = Ok st' ->
  desc_index st' = desc_index st /\ allowed st' = allowed st
  /\ length (descs st') = length (descs st)
  /\ length (count_of_site st') = length (count_of_site st).
Proof.
  unfold describe. intros H.
  repeat match type of H with
         | rbind ?m _ = _ => destruct m; simpl in H; [|discriminate]
         end.
  inversion H; subst; simpl. rewrite !put_idx_length. auto.
Qed.

Lemma frame_step_inv avgs mx st f st' :
  frame_step avgs mx st f = Ok st' ->
  exists st1,
    st' = advance avgs mx st1
    /\ desc_index st1 = desc_index st /\ allowed st1 = allowed st
    /\ length (descs st1) = length (descs st)
    /\ length (count_of_site st1) = length (count_of_site st).
Proof.
  unfold frame_step. intros H.
  destruct (to_describe st f) as [td|]; simpl in H; [|discriminate].
  destruct (existsb id td).
  - destruct (describe avgs st (mask_select f td)) as [st1|] eqn:E; simpl in H; [|discriminate].
    inversion H; subst. exists st1. split; [reflexivity|].
    apply describe_inv in E. exact E.
  - simpl in H. inversion H; subst. exists st. auto.
Qed.

Section Pass.
Variables (nsit : nat) (avgs mx : list Z).
Hypothesis Havgs : length avgs = nsit.
Hypothesis Hmx : length mx = nsit.


Lemma advance_pass_inv N st :
  pass_inv nsit mx N st -> pass_inv nsit mx N (advance avgs mx st).
Proof.
  intros (Hd & Hi & Hc & Ha & Hex).
  assert (Hfull : length (zip_with Z.eqb (count_of_site st) avgs) = nsit).
  { rewrite length_zip_with. lia. }
  assert (Hi' : length (mask_update Z.succ (desc_index st)
                  (zip_with Z.eqb (count_of_site st) avgs)) = nsit).
  { rewrite mask_update_length; lia. }
  unfold pass_inv, advance; cbn [descs desc_index count_of_site allowed].
  split; [assumption|]. split; [assumption|].
  split; [rewrite mask_update_length; lia|].
  split; [rewrite mask_update_length; [lia|]; rewrite length_zip_with; lia|].
  intros s H. unfold exhausted; cbn [descs desc_index count_of_site allowed].
  split; [exact H|].
  rewrite mask_update_lookup in H.
  destruct (allowed st !! s) as [a|] eqn:Ea; [|discriminate].
  rewrite lookup_zip_with in H. rewrite !mask_update_lookup in *.
  destruct (mx !! s) as [m|] eqn:Em; simpl in H; [|discriminate].
  destruct (desc_index st !! s) as [d|] eqn:Ed; simpl in H; [|discriminate].
  destruct (zip_with Z.eqb (count_of_site st) avgs !! s) as [b|] eqn:Eb;
    simpl in H; [|discriminate].
  exists m, (if b then Z.succ d else d). split; [reflexivity|].
  split; [reflexivity|].
  destruct (Z.eqb_spec m (if b then Z.succ d else d)) as [->|Hne]; [lia|].
  inversion H; subst a.
  destruct (Hex s Ea) as (_ & m' & d' & Hm' & Hd' & Hle).
  rewrite Ed in Hd'. rewrite Em in Hm'. inversion Hd'; inversion Hm'; subst.
  destruct b; lia.
Qed.

Lemma frame_step_pass_inv N st f st' :
  pass_inv nsit mx N st -> frame_step avgs mx st f = Ok st' -> pass_inv nsit mx N st'.
Proof.
  intros Hinv H. apply frame_step_inv in H as (st1 & -> & Hi & Ha & Hd & Hc).
  apply advance_pass_inv. destruct Hinv as (Hd0 & Hi0 & Hc0 & Ha0 & Hex).
  unfold pass_inv. rewrite Hi, Ha, Hd, Hc.
  repeat (split; [assumption|]).
  intros s H. unfold exhausted. rewrite Ha, Hi. apply Hex, H.
Qed.

Lemma accumulate_pass_inv N st frames st' :
  pass_inv nsit mx N st -> accumulate avgs mx st frames = Ok st' -> pass_inv nsit mx N st'.
Proof.
  revert st. induction frames as [|f rest IH]; simpl; intros st Hinv H.
  - inversion H; subst. exact Hinv.
  - destruct (frame_step avgs mx st f) as [st1|] eqn:E; simpl in H; [|discriminate].
    eapply IH; [|exact H]. eapply frame_step_pass_inv; eauto.
Qed.

End Pass.

(** ** Output assembler *)

Lemma planned_count_pos D c : 1 <= planned_count D c.
Proof. unfold planned_count. lia. Qed.

Lemma np_repeat_length {A} (a : list A) (rs : list Z) :
  length a = length rs -> Forall (fun r => 0 <= r) rs ->
  Z.of_nat (length (np_repeat a rs)) = np_sum rs.
Proof.
  revert rs. induction a as [|x a IH]; intros [|r rs] Hl Hr; simpl in *;
    try discriminate; [reflexivity|].
  inversion Hr; subst. rewrite length_app, length_replicate, Nat2Z.inj_add.
  rewrite IH by (auto; lia). lia.
Qed.

Lemma np_repeat_seq_lower (m k : nat) (rs : list Z) :
  Forall (fun x => Z.of_nat k <= x) (np_repeat (map Z.of_nat (seq k m)) rs).
Proof.
  revert k rs. induction m as [|m IH]; intros k [|r rs]; simpl; try constructor.
  apply Forall_app. split.
  - apply Forall_replicate. lia.
  - eapply Forall_impl; [apply (IH (S k))|]. simpl. intros; lia.
Qed.

Lemma np_repeat_seq_sorted (m k : nat) (rs : list Z) :
  StronglySorted Z.le (np_repeat (map Z.of_nat (seq k m)) rs).
Proof.
  revert k rs. induction m as [|m IH]; intros k [|r rs]; simpl; try constructor.
  induction (Z.to_nat r) as [|c IHc]; simpl; [apply IH|].
  constructor; [exact IHc|].
  apply Forall_app. split.
  - apply Forall_replicate. lia.
  - eapply Forall_impl; [apply (np_repeat_seq_lower m (S k))|]. simpl. intros; lia.
Qed.

Lemma filter_eq_replicate (s x : Z) (c : nat) :
  filter (fun l => l = s) (replicate c x) = if decide (x = s) then replicate c x else [].
Proof.
  induction c as [|c IH]; simpl.
  - destruct (decide (x = s)); reflexivity.
  - rewrite filter_cons, IH. destruct (decide (x = s)); reflexivity.
Qed.

Lemma np_repeat_seq_count (m k : nat) (rs : list Z) (s : nat) :
  length rs = m ->
  length (filter (fun l => l = Z.of_nat s) (np_repeat (map Z.of_nat (seq k m)) rs)) =
  if bool_decide (k <= s < k + m)%nat
  then Z.to_nat (default 0 (rs !! (s - k)%nat))
  else 0%nat.
Proof.
  revert k rs. induction m as [|m IH]; intros k [|r rs] Hl; simpl in *; try discriminate.
  - case_bool_decide; [lia | reflexivity].
  - rewrite filter_app, length_app, filter_eq_replicate.
    rewrite IH by lia.
    destruct (decide (Z.of_nat k = Z.of_nat s)) as [E|E].
    + assert (k = s) by lia. subst k.
      rewrite length_replicate, Nat.sub_diag. simpl.
      case_bool_decide as H1; case_bool_decide as H2; lia.
    + simpl. case_bool_decide as H1; case_bool_decide as H2; try lia.
      replace (s - k)%nat with (S (s - S k)) by lia. reflexivity.
Qed.

Lemma initial_pass_inv nsit n_dim nr :
  length nr = nsit ->
  pass_inv nsit (max_index nr) (Z.to_nat (np_sum nr)) (initial_state nsit n_dim nr).
Proof.
  intros Hl. unfold pass_inv, initial_state, first_index; simpl.
  rewrite !length_replicate, length_fmap, length_seq.
  do 4 (split; [auto|]).
  intros s H. apply lookup_replicate in H as [H _]. discriminate.
Qed.

Lemma max_index_length nr : length (max_index nr) = length nr.
Proof. unfold max_index. rewrite length_fmap, length_seq. reflexivity. Qed.

(** The state a run ends its accumulation pass in. *)
Lemma accumulation_pass_inv self nsit n_dim traj frames p st :
  returns (planning self nsit traj) (frames, p) ->
  accumulation nsit n_dim frames p = Ok st ->
  length (nr_of_descs p) = nsit
  /\ Forall (fun n => 1 <= n) (nr_of_descs p)
  /\ pass_inv nsit (max_index (nr_of_descs p))
       (Z.to_nat (np_sum (nr_of_descs p))) st.
Proof.
  intros Hp Hacc.
  apply planning_shape in Hp as (counts & D & _ & _ & Hlen & _ & Hnr & Hav).
  assert (Hl : length (nr_of_descs p) = nsit) by (rewrite Hnr, length_fmap; exact Hlen).
  split; [exact Hl|]. split.
  - rewrite Hnr. apply Forall_fmap, Forall_forall. intros c _. apply planned_count_pos.
  - eapply (accumulate_pass_inv nsit (averagings p)); [| |apply initial_pass_inv, Hl|exact Hacc].
    + rewrite Hav, length_fmap. exact Hlen.
    + rewrite max_index_length. exact Hl.
Qed.

(** C1: in every returned result the descriptor array has as many rows as
    the label array has entries, namely the sum of the planned counts. *)
Theorem rows_labels_planned self nsit n_dim traj (descs0 : list vec) (labels : list Z) :
  returns (_get_descriptors self nsit n_dim traj) (descs0, labels) ->
  exists frames p,
    returns (planning self nsit traj) (frames, p)
    /\ length descs0 = length labels
    /\ Z.of_nat (length labels) = np_sum (nr_of_descs p).
Proof.
  intros H. apply get_descriptors_returns in H as (frames & p & st & Hp & Hacc & _ & -> & ->).
  exists frames, p. split; [exact Hp|].
  destruct (accumulation_pass_inv _ _ _ _ _ _ _ Hp Hacc) as (Hl & Hpos & Hd & _).
  assert (Hlab : Z.of_nat (length (labels_of nsit p)) = np_sum (nr_of_descs p)).
  { apply np_repeat_length.
    - rewrite length_fmap, length_seq. lia.
    - eapply Forall_impl; [exact Hpos|]. simpl. intros; lia. }
  split; [|exact Hlab]. rewrite Hd. lia.
Qed.

(** C9: in every returned result the labels are in ascending order, site
    by site, and each site below [nsit] labels exactly as many rows as
    its planned count, which is at least one. *)
Theorem labels_grouped_ascending self nsit n_dim traj (descs0 : list vec) (labels : list Z) :
  returns (_get_descriptors self nsit n_dim traj) (descs0, labels) ->
  exists frames p,
    returns (planning self nsit traj) (frames, p)
    /\ StronglySorted Z.le labels
    /\ Forall (fun l => 0 <= l < Z.of_nat nsit) labels
    /\ forall s, (s < nsit)%nat ->
         exists n, nr_of_descs p !! s = Some n /\ 1 <= n
           /\ Z.of_nat (length (filter (fun l => l = Z.of_nat s) labels)) = n.
Proof.
  intros H. apply get_descriptors_returns in H as (frames & p & st & Hp & Hacc & _ & -> & ->).
  exists frames, p. split; [exact Hp|].
  destruct (accumulation_pass_inv _ _ _ _ _ _ _ Hp Hacc) as (Hl & Hpos & _).
  split; [apply np_repeat_seq_sorted|]. split.
  - unfold labels_of. apply Forall_forall. intros l Hin.
    pose proof (np_repeat_seq_lower nsit 0 (nr_of_descs p)) as Hlow.
    rewrite Forall_forall in Hlow. specialize (Hlow l Hin).
    split; [lia|].
    destruct (decide (l < Z.of_nat nsit)) as [|Hge]; [assumption|exfalso].
    assert (Hc : length (filter (fun x => x = Z.of_nat (Z.to_nat l))
                   (np_repeat (map Z.of_nat (seq 0 nsit)) (nr_of_descs p))) = 0%nat).
    { rewrite np_repeat_seq_count by exact Hl.
      rewrite bool_decide_eq_false_2 by lia. reflexivity. }
    apply length_zero_iff_nil in Hc.
    assert (Hin' : l ∈ filter (fun x => x = Z.of_nat (Z.to_nat l))
                     (np_repeat (map Z.of_nat (seq 0 nsit)) (nr_of_descs p))).
    { apply list_elem_of_filter. split; [lia | exact Hin]. }
    rewrite Hc in Hin'. apply elem_of_nil in Hin'. exact Hin'.
  - intros s Hs.
    destruct (lookup_lt_is_Some_2 (nr_of_descs p) s) as [n Hn]; [lia|].
    exists n. split; [exact Hn|].
    assert (1 <= n) by (eapply Forall_lookup_1 in Hpos; eauto).
    split; [assumption|].
    unfold labels_of. rewrite np_repeat_seq_count by exact Hl.
    rewrite bool_decide_eq_true_2 by lia.
    rewrite Nat.sub_0_r, Hn. simpl. lia.
Qed.

(** ** The closing assertion *)

(** C8: once the accumulation pass has processed the last sampled frame,
    either every site is exhausted (closed, its index having reached its
    bound) and the run returns, or some site is still open and the run
    raises [AssertionError]. *)
Theorem accumulation_postcondition self nsit n_dim traj frames p st :
  returns (planning self nsit traj) (frames, p) ->
  accumulation nsit n_dim frames p = Ok st ->
  ((forall s, (s < nsit)%nat -> exhausted (max_index (nr_of_descs p)) st s)
   /\ returns (_get_descriptors self nsit n_dim traj) (descs st, labels_of nsit p))
  \/ ((exists s, (s < nsit)%nat /\ allowed st !! s = Some true)
      /\ (_get_descriptors self nsit n_dim traj).2 = Raise AssertionError).
Proof.
  intros Hp Hacc.
  destruct (accumulation_pass_inv _ _ _ _ _ _ _ Hp Hacc) as (Hl & Hpos & Hinv).
  destruct Hinv as (_ & _ & _ & Hal & Hex).
  pose proof (get_descriptors_result self nsit n_dim traj frames p Hp) as Hres.
  rewrite Hacc in Hres.
  destruct (existsb id (allowed st)) eqn:E.
  - right. split; [|exact Hres].
    apply existsb_exists in E as (a & Hin & Ha). unfold id in Ha. subst a.
    apply list_elem_of_In, list_elem_of_lookup in Hin as [s Hs].
    exists s. split; [|exact Hs]. apply lookup_lt_Some in Hs. lia.
  - left. split; [|exact Hres].
    intros s Hs. apply Hex.
    destruct (lookup_lt_is_Some_2 (allowed st) s) as [a Ha]; [lia|].
    destruct a; [|exact Ha]. exfalso.
    assert (existsb id (allowed st) = true); [|congruence].
    apply existsb_exists. exists true. split; [|reflexivity].
    apply list_elem_of_In, list_elem_of_lookup. eauto.
Qed.

(** ** The accumulator, site by site *)

Lemma np_sum_app (l k : list Z) : np_sum (l ++ k) = np_sum l + np_sum k.
Proof. induction l as [|x l IH]; simpl; lia. Qed.

Lemma zip_with_fmap_same {A B C D} (g : B -> C -> D) (a : A -> B) (b : A -> C)
  (l : list A) :
  zip_with g (map a l) (map b l) = map (fun x => g (a x) (b x)) l.
Proof. induction l as [|x l IH]; simpl; [reflexivity|]. rewrite IH. reflexivity. Qed.

Lemma rows_add_fmap {A} (a b : A -> vec) (l : list A) :
  Forall (fun x => length (b x) = length (a x)) l ->
  rows_add (map a l) (map b l) = Ok (map (fun x => vadd (a x) (b x)) l).
Proof.
  induction 1 as [|x l Hx _ IH]; simpl; [reflexivity|].
  unfold row_add. rewrite bool_decide_eq_true_2 by exact Hx. simpl.
  rewrite IH. reflexivity.
Qed.

Lemma describe_nil avgs st : describe avgs st [] = Ok st.
Proof. destruct st. reflexivity. Qed.

Lemma last_such_false {B} (l : list (Z * B)) : last_such (fun _ => false) l = None.
Proof. apply last_such_none, Forall_forall. reflexivity. Qed.

Lemma last_hit_fmap {B C} (s : Z) (psi : Z * B -> C) (l : list (Z * B)) :
  last_such (Z.eqb s) (map (fun p => (p.1, psi p)) l) =
  (fun v => psi (s, v)) <$> last_hit s l.
Proof.
  unfold last_hit. induction l as [|[i x] l IH]; simpl; [reflexivity|].
  rewrite IH. destruct (last_such (Z.eqb s) l); simpl; [reflexivity|].
  destruct (Z.eqb_spec s i) as [->|]; reflexivity.
Qed.

Lemma last_hit_filter {B} (s : Z) (Q : Z -> bool) (l : list (Z * B)) :
  last_hit s (List.filter (fun p => Q p.1) l) =
  if Q s then last_hit s l else None.
Proof.
  unfold last_hit. rewrite last_such_filter.
  destruct (Q s) eqn:E.
  - apply last_such_ext, Forall_forall. intros [i x] _. simpl.
    destruct (Z.eqb_spec s i) as [<-|]; [rewrite E; reflexivity|].
    apply andb_false_r.
  - rewrite <- (last_such_false l). apply last_such_ext, Forall_forall.
    intros [i x] _. simpl.
    destruct (Z.eqb_spec s i) as [<-|]; [rewrite E; reflexivity|].
    apply andb_false_r.
Qed.

Lemma put_idx_lookup_fmap {A B} (a : list A) (phi : B -> Z) (psi : B -> A)
  (l : list B) (n : nat) :
  put_idx a (map phi l) (map psi l) !! n =
  match last_such (fun i => bool_decide (norm_index (length a) i = Some n))
          (map (fun x => (phi x, psi x)) l) with
  | Some v => Some v
  | None => a !! n
  end.
Proof.
  revert a. induction l as [|x l IH]; intros a; simpl; [reflexivity|].
  rewrite IH, setitem_length.
  destruct (last_such _ _); [reflexivity|].
  rewrite setitem_lookup. case_bool_decide; reflexivity.
Qed.

Lemma filter_Forall {A} (P : A -> Prop) (Q : A -> bool) (l : list A) :
  Forall P l -> Forall (fun x => P x /\ Q x = true) (List.filter Q l).
Proof.
  induction 1 as [|x l Hx _ IH]; simpl; [constructor|].
  destruct (Q x) eqn:E; [constructor; auto | exact IH].
Qed.

Lemma last_hit_valid nsit n_dim (s : Z) (f : frame) (v : vec) :
  valid_frame nsit n_dim f -> last_hit s f = Some v -> length v = n_dim.
Proof.
  unfold last_hit. induction 1 as [|[i x] f Hx _ IH]; simpl; [discriminate|].
  destruct (last_such (Z.eqb s) f); [exact IH|].
  destruct (s =? i); intros H; inversion H; subst. apply Hx.
Qed.

Lemma site_describe_slot D σ h : slot (site_describe D σ h) = slot σ.
Proof. destruct h; simpl; [destruct (active σ)|]; reflexivity. Qed.

Lemma site_describe_active D σ h : active (site_describe D σ h) = active σ.
Proof. destruct h; simpl; [destruct (active σ) eqn:E|]; simpl; congruence. Qed.

Lemma site_describe_fill D σ h :
  fill (site_describe D σ h) =
  match h with
  | Some _ => if active σ then S (fill σ) else fill σ
  | None => fill σ
  end.
Proof. destruct h; simpl; [destruct (active σ)|]; reflexivity. Qed.

Lemma site_describe_out D σ h :
  out (site_describe D σ h) =
  match h with
  | Some v =>
      if active σ
      then alter (fun row => vadd row (vdiv v (Z.of_nat D))) (slot σ) (out σ)
      else out σ
  | None => out σ
  end.
Proof. destruct h; simpl; [destruct (active σ)|]; reflexivity. Qed.

Section Refinement.
Variables (nsit n_dim : nat) (nr avgs : list Z).
Hypothesis Hnsit : (0 < nsit)%nat.
Hypothesis Hnr : length nr = nsit.
Hypothesis Havgs : length avgs = nsit.
Hypothesis Hpos : Forall (fun n => 1 <= n) nr.
Hypothesis Hav0 : Forall (fun a => 0 <= a) avgs.

Lemma take_nr_nonneg s : 0 <= np_sum (take s nr).
Proof.
  apply np_sum_nonneg, Forall_take.
  eapply Forall_impl; [exact Hpos|]. simpl. intros; lia.
Qed.

Lemma quota_lookup s :
  (s < nsit)%nat -> nr !! s = Some (Z.of_nat (quota nr s)) /\ (1 <= quota nr s)%nat.
Proof.
  intros Hs. destruct (lookup_lt_is_Some_2 nr s) as [x Hx]; [lia|].
  pose proof (Forall_lookup_1 _ _ _ _ Hpos Hx) as H1. simpl in H1.
  unfold quota. rewrite Hx. simpl. split; [f_equal; lia | lia].
Qed.

Lemma base_S s : (s < nsit)%nat -> base nr (S s) = (base nr s + quota nr s)%nat.
Proof.
  intros Hs. destruct (quota_lookup s Hs) as [Hx _].
  unfold base. rewrite (take_S_r _ _ _ Hx), np_sum_app. simpl.
  pose proof (take_nr_nonneg s). lia.
Qed.

Lemma base_mono s s' :
  (s < s')%nat -> (s' <= nsit)%nat -> (base nr s + quota nr s <= base nr s')%nat.
Proof.
  induction s' as [|s' IH]; intros H1 H2; [lia|].
  rewrite base_S by lia.
  destruct (decide (s = s')) as [->|]; [lia|].
  specialize (IH ltac:(lia) ltac:(lia)). lia.
Qed.

Lemma base_total s :
  (s < nsit)%nat -> (base nr s + quota nr s <= Z.to_nat (np_sum nr))%nat.
Proof.
  intros Hs. pose proof (base_mono s nsit Hs ltac:(lia)) as H.
  unfold base in H at 2. rewrite take_ge in H by lia. exact H.
Qed.

Lemma base_disjoint s s' j j' :
  (s < nsit)%nat -> (s' < nsit)%nat ->
  (j < quota nr s)%nat -> (j' < quota nr s')%nat ->
  (base nr s + j = base nr s' + j')%nat -> s = s'.
Proof.
  intros Hs Hs' Hj Hj' E.
  destruct (Nat.lt_trichotomy s s') as [H|[H|H]]; [|exact H|].
  - pose proof (base_mono s s' H ltac:(lia)). lia.
  - pose proof (base_mono s' s H ltac:(lia)). lia.
Qed.

Lemma first_index_lookup s :
  (s < nsit)%nat -> first_index nr !! s = Some (Z.of_nat (base nr s)).
Proof.
  intros Hs. unfold first_index. rewrite list_lookup_fmap, lookup_seq_lt by lia.
  simpl. f_equal. unfold base. pose proof (take_nr_nonneg s). lia.
Qed.

Lemma max_index_lookup s :
  (s < nsit)%nat ->
  max_index nr !! s = Some (Z.of_nat (base nr s + quota nr s)).
Proof.
  intros Hs. unfold max_index. rewrite list_lookup_fmap, lookup_seq_lt by lia.
  simpl. f_equal. rewrite <- base_S by exact Hs. rewrite Nat.add_1_r.
  unfold base. pose proof (take_nr_nonneg (S s)). lia.
Qed.

Lemma avgs_lookup s :
  (s < nsit)%nat -> avgs !! s = Some (Z.of_nat (divisor avgs s)).
Proof.
  intros Hs. destruct (lookup_lt_is_Some_2 avgs s) as [x Hx]; [lia|].
  pose proof (Forall_lookup_1 _ _ _ _ Hav0 Hx) as H1. simpl in H1.
  unfold divisor. rewrite Hx. simpl. f_equal. lia.
Qed.

(** The selection of a frame. *)
Lemma to_describe_spec st f :
  length (allowed st) = nsit ->
  Forall (fun p : Z * vec => valid_site nsit p.1) f ->
  to_describe st f = Ok (map (selects st) f).
Proof.
  intros Hal Hf. unfold to_describe.
  change (f.*1) with (map fst f).
  rewrite (take_idx_fmap (allowed st) fst
             (fun p : Z * vec =>
                match norm_index (length (allowed st)) p.1 with
                | Some n => default false (allowed st !! n)
                | None => false
                end) f).
  - simpl. rewrite zip_with_fmap_same. reflexivity.
  - eapply Forall_impl; [exact Hf|]. intros [i v] Hi. simpl in *.
    unfold getitem. destruct Hi as [->|Hi].
    + unfold SITE_UNKNOWN. rewrite norm_index_last by lia.
      destruct (lookup_lt_is_Some_2 (allowed st) (length (allowed st) - 1))
        as [a ->]; [lia|]. reflexivity.
    + rewrite norm_index_nonneg by lia.
      destruct (lookup_lt_is_Some_2 (allowed st) (Z.to_nat i)) as [a ->]; [lia|].
      reflexivity.
Qed.

Lemma frame_step_selected st f :
  length (allowed st) = nsit ->
  Forall (fun p : Z * vec => valid_site nsit p.1) f ->
  frame_step avgs (max_index nr) st f =
  let* st1 := describe avgs st (List.filter (selects st) f) in
  Ok (advance avgs (max_index nr) st1).
Proof.
  intros Hal Hf. unfold frame_step.
  rewrite to_describe_spec by assumption. simpl.
  rewrite mask_select_self.
  destruct (existsb id (map (selects st) f)) eqn:E; [reflexivity|].
  apply existsb_id_fmap in E. rewrite E, describe_nil. reflexivity.
Qed.

Lemma selects_site st σ s :
  refines nsit n_dim nr st σ -> (s < nsit)%nat ->
  forall v, selects st (Z.of_nat s, v) = active (σ s).
Proof.
  intros (_ & _ & _ & Hal & Hsite) Hs v.
  destruct (Hsite s Hs) as (_ & _ & Hac & _).
  unfold selects. simpl.
  rewrite norm_index_nonneg by lia. rewrite Nat2Z.id, Hac. simpl.
  unfold SITE_UNKNOWN. destruct (Z.eqb_spec (Z.of_nat s) (-1)); [lia|reflexivity].
Qed.

Lemma selected_spec st σ f :
  refines nsit n_dim nr st σ -> valid_frame nsit n_dim f ->
  Forall (fun p : Z * vec =>
            0 <= p.1 < Z.of_nat nsit
            /\ active (σ (Z.to_nat p.1)) = true
            /\ length p.2 = n_dim)
    (List.filter (selects st) f).
Proof.
  intros Href Hf.
  eapply Forall_impl; [apply (filter_Forall _ (selects st) f Hf)|].
  intros [i v] [[Hv Hl] Hsel]. simpl in *.
  destruct Hv as [->|Hi].
  - unfold selects, SITE_UNKNOWN in Hsel. simpl in Hsel. discriminate.
  - split; [exact Hi|]. split; [|exact Hl].
    rewrite <- (selects_site st σ (Z.to_nat i) Href ltac:(lia) v).
    rewrite Z2Nat.id by lia. exact Hsel.
Qed.

Lemma describe_refines st σ f :
  refines nsit n_dim nr st σ -> valid_frame nsit n_dim f ->
  exists st1,
    describe avgs st (List.filter (selects st) f) = Ok st1
    /\ refines nsit n_dim nr st1
         (fun s => site_describe (divisor avgs s) (σ s) (last_hit (Z.of_nat s) f)).
Proof.
  intros Href Hf.
  pose proof (selected_spec st σ f Href Hf) as Hsel.
  pose proof Href as (Hd & Hi & Hc & Hal & Hsite).
  set (sel := List.filter (selects st) f) in *.
  set (site := fun i : Z => Z.to_nat i).
  set (Dp := fun p : Z * vec => Z.of_nat (divisor avgs (site p.1))).
  set (phi := fun i : Z => Z.of_nat (base nr (site i) + slot (σ (site i)))).
  set (rowp := fun p : Z * vec =>
                 default [] (out (σ (site p.1)) !! slot (σ (site p.1)))).
  set (cntp := fun p : Z * vec => Z.of_nat (fill (σ (site p.1)))).
  assert (Hrow : Forall (fun p : Z * vec =>
            descs st !! (base nr (site p.1) + slot (σ (site p.1)))%nat = Some (rowp p)
            /\ length (rowp p) = n_dim) sel).
  { eapply Forall_impl; [exact Hsel|]. intros [i v] (Hi0 & Hact & Hl).
    cbn [fst snd] in *.
    destruct (Hsite (site i) ltac:(unfold site; lia))
      as (_ & _ & _ & Hlo & Hrows & Hinv & Hlen).
    specialize (Hinv Hact).
    destruct (lookup_lt_is_Some_2 (out (σ (site i))) (slot (σ (site i))))
      as [row Hr]; [lia|].
    change (rowp (i, v))
      with (default [] (out (σ (site i)) !! slot (σ (site i)))).
    rewrite Hrows by exact Hinv. unfold vec in *. rewrite Hr. simpl.
    split; [reflexivity|]. eapply Forall_lookup_1 in Hlen; eauto. }
  unfold describe.
  change (sel.*1) with (map fst sel). change (sel.*2) with (map snd sel).
  rewrite (take_idx_fmap avgs fst Dp sel).
  2:{ eapply Forall_impl; [exact Hsel|]. intros [i v] (Hi0 & _ & _). simpl in *.
      apply getitem_nonneg; [lia|]. apply avgs_lookup. lia. }
  cbn [rbind]. rewrite zip_with_fmap_same.
  rewrite (take_idx_fmap (desc_index st) fst (fun p => phi p.1) sel).
  2:{ eapply Forall_impl; [exact Hsel|]. intros [i v] (Hi0 & _ & _). simpl in *.
      apply getitem_nonneg; [lia|].
      destruct (Hsite (site i) ltac:(unfold site; lia)) as (Hdi & _). exact Hdi. }
  cbn [rbind].
  rewrite (take_idx_fmap (descs st) (fun p => phi p.1) rowp sel).
  2:{ eapply Forall_impl; [exact Hrow|]. intros [i v] [Hr _]. simpl in *.
      apply getitem_nonneg; [unfold phi; lia|].
      unfold phi. rewrite Nat2Z.id. exact Hr. }
  cbn [rbind].
  rewrite (rows_add_fmap rowp (fun p => vdiv p.2 (Dp p)) sel).
  2:{ apply Forall_forall. intros p Hp.
      rewrite Forall_forall in Hrow, Hsel.
      destruct (Hrow p Hp) as [_ ->]. destruct (Hsel p Hp) as (_ & _ & <-).
      unfold vdiv. apply length_fmap. }
  cbn [rbind].
  rewrite (take_idx_fmap (count_of_site st) fst cntp sel).
  2:{ eapply Forall_impl; [exact Hsel|]. intros [i v] (Hi0 & _ & _). simpl in *.
      apply getitem_nonneg; [lia|].
      destruct (Hsite (site i) ltac:(unfold site; lia)) as (_ & Hcn & _). exact Hcn. }
  cbn [rbind]. eexists. split; [reflexivity|].
  unfold refines; cbn [descs desc_index count_of_site allowed].
  rewrite !put_idx_length.
  do 4 (split; [assumption|]).
  intros s Hs.
  destruct (Hsite s Hs) as (Hdi & Hcn & Hac & Hlo & Hrows & Hinv & Hlen).
  assert (Hhit : last_hit (Z.of_nat s) sel =
                 if active (σ s) then last_hit (Z.of_nat s) f else None).
  { rewrite <- (selects_site st σ s Href Hs []).
    exact (last_hit_filter (Z.of_nat s) (fun i => selects st (i, [])) f). }
  assert (Hσ : site_describe (divisor avgs s) (σ s) (last_hit (Z.of_nat s) f) =
               site_describe (divisor avgs s) (σ s) (last_hit (Z.of_nat s) sel)).
  { rewrite Hhit. destruct (active (σ s)) eqn:Ea; [reflexivity|].
    destruct (last_hit (Z.of_nat s) f); simpl; rewrite ?Ea; reflexivity. }
  rewrite Hσ. clear Hσ.
  (* the counter of the site *)
  assert (Hcount :
    put_idx (count_of_site st) (map fst sel) (map Z.succ (map cntp sel)) !! s =
    match last_hit (Z.of_nat s) sel with
    | Some _ => Some (Z.of_nat (S (fill (σ s))))
    | None => Some (Z.of_nat (fill (σ s)))
    end).
  { rewrite map_map.
    rewrite (put_idx_lookup_fmap (count_of_site st) fst
               (fun p => Z.succ (cntp p)) sel s).
    rewrite (last_such_ext _ (Z.eqb (Z.of_nat s))).
    2:{ apply Forall_fmap. eapply Forall_impl; [exact Hsel|].
        intros [i v] (Hi0 & _ & _). simpl in *. rewrite Hc.
        rewrite norm_index_nonneg by lia.
        destruct (Z.eqb_spec (Z.of_nat s) i) as [<-|Hne].
        - rewrite bool_decide_eq_true_2; [reflexivity|]. f_equal. lia.
        - rewrite bool_decide_eq_false_2; [reflexivity|].
          intros H; inversion H; lia. }
    rewrite (last_hit_fmap (Z.of_nat s) (fun p => Z.succ (cntp p)) sel).
    destruct (last_hit (Z.of_nat s) sel); simpl; [|exact Hcn].
    unfold cntp, site. simpl. rewrite Nat2Z.id. f_equal. lia. }
  (* the rows of the site *)
  assert (Hnew : forall j, (j < quota nr s)%nat ->
    put_idx (descs st) (map (fun p : Z * vec => phi p.1) sel)
      (map (fun x => vadd (rowp x) (vdiv x.2 (Dp x))) sel) !! (base nr s + j)%nat =
    match last_hit (Z.of_nat s) sel with
    | Some v =>
        if decide (slot (σ s) = j)
        then (fun row => vadd row (vdiv v (Z.of_nat (divisor avgs s))))
               <$> out (σ s) !! j
        else out (σ s) !! j
    | None => out (σ s) !! j
    end).
  { intros j Hj.
    rewrite (put_idx_lookup_fmap (descs st) (fun p => phi p.1)
               (fun p => vadd (rowp p) (vdiv p.2 (Dp p))) sel).
    rewrite (last_such_fmap _ phi
               (fun p : Z * vec => vadd (rowp p) (vdiv p.2 (Dp p))) sel).
    rewrite (last_such_ext _
               (fun i => Z.eqb (Z.of_nat s) i && bool_decide (slot (σ s) = j))).
    2:{ apply Forall_fmap. eapply Forall_impl; [exact Hsel|].
        intros [i v] (Hi0 & Hact & _). simpl in *.
        destruct (Hsite (site i) ltac:(unfold site; lia))
          as (_ & _ & _ & _ & _ & Hinv' & _).
        specialize (Hinv' Hact).
        pose proof (base_total (site i) ltac:(unfold site; lia)) as Htot.
        unfold phi. rewrite Hd, norm_index_nonneg by lia. rewrite Nat2Z.id.
        destruct (Z.eqb_spec (Z.of_nat s) i) as [<-|Hne]; simpl.
        - unfold site. rewrite Nat2Z.id. apply bool_decide_ext.
          split; [intros H; inversion H; lia | intros ->; reflexivity].
        - apply bool_decide_eq_false_2. intros H. inversion H as [E].
          pose proof (base_disjoint (site i) s (slot (σ (site i))) j
                        ltac:(unfold site; lia) Hs Hinv' Hj E) as Es.
          unfold site in Es. lia. }
    destruct (decide (slot (σ s) = j)) as [Ej|Ej].
    - rewrite (last_such_ext _ (Z.eqb (Z.of_nat s))).
      2:{ apply Forall_forall. intros p _.
          rewrite bool_decide_eq_true_2 by exact Ej. apply andb_true_r. }
      rewrite (last_hit_fmap (Z.of_nat s)
                 (fun p => vadd (rowp p) (vdiv p.2 (Dp p))) sel).
      destruct (last_hit (Z.of_nat s) sel) as [v|]; simpl; [|apply Hrows, Hj].
      unfold rowp, Dp, site. simpl. rewrite Nat2Z.id, Ej.
      destruct (lookup_lt_is_Some_2 (out (σ s)) j) as [row Hr]; [lia|].
      unfold vec in *. rewrite Hr. reflexivity.
    - rewrite (last_such_ext _ (fun _ => false)).
      2:{ apply Forall_forall. intros p _.
          rewrite bool_decide_eq_false_2 by exact Ej. apply andb_false_r. }
      rewrite last_such_false, Hrows by exact Hj.
      destruct (last_hit (Z.of_nat s) sel); reflexivity. }
  destruct (last_hit (Z.of_nat s) sel) as [v|] eqn:Ev.
  - assert (Ea : active (σ s) = true).
    { destruct (active (σ s)); [reflexivity | discriminate]. }
    rewrite Ea in Hhit.
    unfold site_describe. rewrite Ea.
    cbn [slot fill active out].
    split; [exact Hdi|]. split; [exact Hcount|].
    split; [rewrite <- Ea; exact Hac|].
    split; [rewrite length_alter; exact Hlo|].
    split; [|split; [intros _; apply Hinv, Ea|]].
    + intros j Hj. rewrite (Hnew j Hj).
      destruct (decide (slot (σ s) = j)) as [<-|Ej].
      * rewrite list_lookup_alter_eq. reflexivity.
      * rewrite list_lookup_alter_ne by exact Ej. reflexivity.
    + apply Forall_alter; [exact Hlen|].
      intros row Hr Hrl. unfold vadd, vdiv. rewrite length_zip_with, length_fmap.
      assert (length v = n_dim); [|lia].
      eapply last_hit_valid; [exact Hf | symmetry; exact Hhit].
  - cbn [site_describe].
    split; [exact Hdi|]. split; [exact Hcount|].
    split; [exact Hac|]. split; [exact Hlo|].
    split; [|split; [exact Hinv | exact Hlen]].
    intros j Hj. apply Hnew, Hj.
Qed.

Lemma advance_refines st σ :
  refines nsit n_dim nr st σ ->
  refines nsit n_dim nr (advance avgs (max_index nr) st)
    (fun s => site_advance (divisor avgs s) (quota nr s) (σ s)).
Proof.
  intros (Hd & Hi & Hc & Hal & Hsite).
  assert (Hfl : length (zip_with Z.eqb (count_of_site st) avgs) = nsit).
  { rewrite length_zip_with. lia. }
  assert (Hil : length (mask_update Z.succ (desc_index st)
                  (zip_with Z.eqb (count_of_site st) avgs)) = nsit).
  { rewrite mask_update_length; lia. }
  unfold refines, advance; cbn [descs desc_index count_of_site allowed].
  split; [exact Hd|]. split; [exact Hil|].
  split; [rewrite mask_update_length; lia|].
  split.
  { rewrite mask_update_length; [lia|].
    rewrite length_zip_with, max_index_length. lia. }
  intros s Hs.
  destruct (Hsite s Hs) as (Hdi & Hcn & Hac & Hlo & Hrows & Hinv & Hlen).
  assert (Hfull : zip_with Z.eqb (count_of_site st) avgs !! s =
                  Some (bool_decide (fill (σ s) = divisor avgs s))).
  { rewrite lookup_zip_with, Hcn, (avgs_lookup s Hs). simpl. f_equal.
    destruct (Z.eqb_spec (Z.of_nat (fill (σ s))) (Z.of_nat (divisor avgs s)));
      case_bool_decide; try reflexivity; lia. }
  assert (Hdi' : mask_update Z.succ (desc_index st)
                   (zip_with Z.eqb (count_of_site st) avgs) !! s =
                 Some (Z.of_nat (base nr s +
                   (if bool_decide (fill (σ s) = divisor avgs s)
                    then S (slot (σ s)) else slot (σ s))))).
  { rewrite mask_update_lookup, Hdi, Hfull. f_equal.
    case_bool_decide; lia. }
  unfold site_advance; cbn [slot fill active out].
  split; [exact Hdi'|]. split.
  { rewrite mask_update_lookup, Hcn, Hfull. f_equal.
    case_bool_decide; reflexivity. }
  split.
  { rewrite mask_update_lookup, Hac, lookup_zip_with, (max_index_lookup s Hs), Hdi'.
    simpl. f_equal.
    destruct (bool_decide (fill (σ s) = divisor avgs s));
      match goal with
      | |- context [Z.eqb ?a ?b] => destruct (Z.eqb_spec a b)
      end; case_bool_decide; try reflexivity; lia. }
  split; [exact Hlo|]. split; [exact Hrows|]. split; [|exact Hlen].
  destruct (bool_decide (fill (σ s) = divisor avgs s));
    case_bool_decide; intros Ha; try discriminate;
    specialize (Hinv Ha); lia.
Qed.

(** One frame: every site takes its own step. *)
Lemma frame_step_refines st σ f :
  refines nsit n_dim nr st σ -> valid_frame nsit n_dim f ->
  exists st',
    frame_step avgs (max_index nr) st f = Ok st'
    /\ refines nsit n_dim nr st'
         (fun s => site_step (divisor avgs s) (quota nr s) (σ s)
                     (last_hit (Z.of_nat s) f)).
Proof.
  intros Href Hf.
  destruct (describe_refines st σ f Href Hf) as (st1 & E1 & R1).
  rewrite frame_step_selected.
  - rewrite E1. cbn [rbind]. eexists. split; [reflexivity|].
    apply (advance_refines st1 _ R1).
  - apply Href.
  - eapply Forall_impl; [exact Hf|]. intros p [H _]. exact H.
Qed.

Lemma accumulate_refines frames : forall st σ,
  refines nsit n_dim nr st σ -> Forall (valid_frame nsit n_dim) frames ->
  exists st',
    accumulate avgs (max_index nr) st frames = Ok st'
    /\ refines nsit n_dim nr st'
         (fun s => foldl (site_step (divisor avgs s) (quota nr s)) (σ s)
                     (map (last_hit (Z.of_nat s)) frames)).
Proof.
  induction frames as [|f rest IH]; intros st σ Href Hv.
  - exists st. split; [reflexivity | exact Href].
  - apply Forall_cons in Hv as [Hf Hrest].
    destruct (frame_step_refines st σ f Href Hf) as (st1 & E1 & R1).
    destruct (IH st1 _ R1 Hrest) as (st' & E' & R').
    exists st'. simpl. rewrite E1. simpl. split; [exact E'|exact R'].
Qed.

Lemma initial_refines :
  refines nsit n_dim nr (initial_state nsit n_dim nr)
    (fun s => site_init n_dim (quota nr s)).
Proof.
  unfold refines, initial_state, site_init;
    cbn [descs desc_index count_of_site allowed slot fill active out].
  rewrite !length_replicate. unfold first_index at 1.
  rewrite length_fmap, length_seq.
  do 4 (split; [auto|]).
  intros s Hs. pose proof (base_total s Hs) as Htot.
  destruct (quota_lookup s Hs) as [_ Hq].
  rewrite first_index_lookup by exact Hs. rewrite Nat.add_0_r.
  split; [reflexivity|].
  split; [apply lookup_replicate_2; lia|].
  split; [apply lookup_replicate_2; lia|].
  split; [apply length_replicate|].
  split; [|split; [intros _; lia|]].
  - intros j Hj. rewrite !lookup_replicate_2 by lia. reflexivity.
  - apply Forall_replicate. unfold vzero. apply length_replicate.
Qed.

(** The divisors applied in a frame are those of the sites it selects. *)
Lemma frame_divisors_spec st σ f :
  refines nsit n_dim nr st σ -> valid_frame nsit n_dim f ->
  Forall (fun d => exists p, p ∈ f /\ 0 <= p.1 < Z.of_nat nsit
                             /\ avgs !! Z.to_nat p.1 = Some d)
    (frame_divisors avgs st f).
Proof.
  intros Href Hf. pose proof (selected_spec st σ f Href Hf) as Hsel.
  unfold frame_divisors. rewrite to_describe_spec.
  2:{ apply Href. }
  2:{ eapply Forall_impl; [exact Hf|]. intros p [H _]. exact H. }
  destruct (existsb id (map (selects st) f)); [|constructor].
  rewrite mask_select_self.
  set (sel := List.filter (selects st) f) in *.
  assert (Hin : Forall (fun p => p ∈ f) sel).
  { apply Forall_forall. intros p Hp. apply list_elem_of_In in Hp.
    apply filter_In in Hp as [Hp _]. apply list_elem_of_In. exact Hp. }
  change (sel.*1) with (map fst sel).
  rewrite (take_idx_fmap avgs fst
             (fun p : Z * vec => Z.of_nat (divisor avgs (Z.to_nat p.1))) sel).
  2:{ eapply Forall_impl; [exact Hsel|]. intros [i v] (Hi0 & _ & _). simpl in *.
      apply getitem_nonneg; [lia|]. apply avgs_lookup. lia. }
  apply Forall_fmap. apply Forall_forall. intros p Hp.
  rewrite Forall_forall in Hsel, Hin.
  destruct (Hsel p Hp) as (Hi0 & _ & _).
  exists p. split; [apply Hin, Hp|]. split; [exact Hi0|].
  simpl. apply avgs_lookup. lia.
Qed.

Lemma divisors_used_spec frames : forall st σ,
  refines nsit n_dim nr st σ -> Forall (valid_frame nsit n_dim) frames ->
  Forall (fun d => exists f p, f ∈ frames /\ p ∈ f
                               /\ 0 <= p.1 < Z.of_nat nsit
                               /\ avgs !! Z.to_nat p.1 = Some d)
    (divisors_used avgs (max_index nr) st frames).
Proof.
  induction frames as [|f rest IH]; intros st σ Href Hv; simpl; [constructor|].
  apply Forall_cons in Hv as [Hf Hrest].
  apply Forall_app. split.
  - eapply Forall_impl; [apply (frame_divisors_spec st σ f Href Hf)|].
    intros d (p & Hp & H). exists f, p. split; [apply list_elem_of_here | auto].
  - destruct (frame_step_refines st σ f Href Hf) as (st1 & E1 & R1).
    rewrite E1. eapply Forall_impl; [apply (IH st1 _ R1 Hrest)|].
    intros d (f' & p & Hf' & H). exists f', p.
    split; [apply list_elem_of_further, Hf' | exact H].
Qed.

End Refinement.

(** ** One site in isolation *)

Lemma site_step_inactive D n σ h :
  active σ = false -> active (site_step D n σ h) = false.
Proof.
  intros H. unfold site_step, site_advance; cbn [active].
  rewrite site_describe_active, H. case_bool_decide; reflexivity.
Qed.

Lemma site_run_inactive D n hs : forall σ,
  active σ = false -> active (foldl (site_step D n) σ hs) = false.
Proof.
  induction hs as [|h hs IH]; intros σ H; simpl; [exact H|].
  apply IH, site_step_inactive, H.
Qed.

(** A site no frame assigns anything to keeps its rows. *)
Lemma site_run_idle_out D n hs : forall σ,
  Forall (fun h : option vec => h = None) hs ->
  out (foldl (site_step D n) σ hs) = out σ.
Proof.
  induction hs as [|h hs IH]; intros σ H; simpl; [reflexivity|].
  apply Forall_cons in H as [-> H]. rewrite IH by exact H. reflexivity.
Qed.

(** With divisor 0 and one planned output, the first frame closes it. *)
Lemma site_run_idle_closed n_dim hs :
  hs <> [] -> Forall (fun h : option vec => h = None) hs ->
  active (site_run n_dim 0 1 hs) = false.
Proof.
  unfold site_run. destruct hs as [|h hs]; [congruence|]. intros _ H.
  apply Forall_cons in H as [-> H]. simpl. apply site_run_inactive. reflexivity.
Qed.

Lemma wsum_snoc n_dim D vs v :
  wsum n_dim D (vs ++ [v]) = vadd (wsum n_dim D vs) (vdiv v (Z.of_nat D)).
Proof. unfold wsum. rewrite foldl_snoc. reflexivity. Qed.

(** The state of a site with a positive divisor after any sequence of
    frames: its rows are the sums of the windows of its samples among the
    first [n * D], and it is open exactly while fewer than that came. *)
Lemma site_run_inv n_dim D n hs :
  (0 < D)%nat -> (1 <= n)%nat ->
  let σ := site_run n_dim D n hs in
  let vs := omap id hs in
  length (out σ) = n
  /\ (forall j, (j < n)%nat ->
        out σ !! j =
        Some (wsum n_dim D (take D (drop (j * D) (take (n * D) vs)))))
  /\ ((active σ = true /\ length vs = (slot σ * D + fill σ)%nat
       /\ (fill σ < D)%nat /\ (slot σ < n)%nat)
      \/ (active σ = false /\ (n * D <= length vs)%nat)).
Proof.
  intros HD Hn. unfold site_run. induction hs as [|h hs IH] using rev_ind.
  - simpl. split; [apply length_replicate|]. split.
    + intros j Hj. rewrite lookup_replicate_2 by exact Hj.
      rewrite take_nil, drop_nil, take_nil. reflexivity.
    + left. repeat split; simpl; lia.
  - rewrite foldl_snoc, omap_app.
    set (σ := foldl (site_step D n) (site_init n_dim n) hs) in *.
    set (vs := omap id hs) in *.
    cbn zeta in IH. destruct IH as (Hlen & Hrows & Hst).
    destruct h as [v|]; simpl (omap id [_]).
    + (* the frame has a sample for the site *)
      destruct Hst as [(Ha & Hl & Hf & Hs)|(Ha & Hl)].
      * assert (Hlt : (length vs < n * D)%nat) by nia.
        unfold site_step, site_describe. rewrite Ha.
        unfold site_advance; cbn [slot fill active out].
        split; [rewrite length_alter; exact Hlen|]. split.
        -- intros j Hj. specialize (Hrows j Hj).
           rewrite (take_ge vs) in Hrows by lia.
           rewrite (take_ge (vs ++ [v])) by (rewrite length_app; simpl; lia).
           destruct (Nat.lt_trichotomy j (slot σ)) as [Hj'|[->|Hj']].
           ++ rewrite list_lookup_alter_ne by lia. rewrite Hrows.
              rewrite drop_app_le by nia.
              rewrite take_app_le; [reflexivity|]. rewrite length_drop. nia.
           ++ rewrite list_lookup_alter_eq, Hrows. simpl.
              rewrite drop_app_le by nia.
              assert (Hdl : length (drop (slot σ * D) vs) = fill σ)
                by (rewrite length_drop; lia).
              rewrite (take_ge (drop (slot σ * D) vs)) by lia.
              rewrite take_ge by (rewrite length_app; simpl; lia).
              rewrite wsum_snoc. reflexivity.
           ++ rewrite list_lookup_alter_ne by lia. rewrite Hrows.
              rewrite (drop_ge vs) by nia.
              rewrite (drop_ge (vs ++ [v])) by (rewrite length_app; simpl; nia).
              reflexivity.
        -- rewrite length_app. simpl.
           case_bool_decide as Hfull; case_bool_decide as Hend.
           ++ right. split; [reflexivity | nia].
           ++ left. repeat split; nia.
           ++ lia.
           ++ left. repeat split; lia.
      * unfold site_step, site_describe. rewrite Ha.
        unfold site_advance; cbn [slot fill active out].
        split; [exact Hlen|]. split.
        -- intros j Hj. rewrite Hrows by exact Hj.
           rewrite take_app_le by lia. reflexivity.
        -- right. rewrite Ha, length_app. simpl.
           split; [case_bool_decide; reflexivity | lia].
    + (* the frame has none *)
      rewrite app_nil_r.
      unfold site_step, site_describe, site_advance; cbn [slot fill active out].
      split; [exact Hlen|]. split; [exact Hrows|].
      destruct Hst as [(Ha & Hl & Hf & Hs)|(Ha & Hl)].
      * left. rewrite (bool_decide_eq_false_2 (fill σ = D)) by lia.
        rewrite bool_decide_eq_false_2 by lia. auto.
      * right. rewrite Ha. split; [case_bool_decide; reflexivity | exact Hl].
Qed.

Lemma site_run_closed n_dim D n hs :
  (0 < D)%nat -> (1 <= n)%nat -> (n * D <= length (omap id hs))%nat ->
  active (site_run n_dim D n hs) = false.
Proof.
  intros HD Hn Hl.
  destruct (site_run_inv n_dim D n hs HD Hn) as (_ & _ & [(_ & E & Hf & Hs)|[H _]]);
    [nia | exact H].
Qed.

Lemma site_run_rows n_dim D n hs j :
  (0 < D)%nat -> (j < n)%nat ->
  out (site_run n_dim D n hs) !! j =
  Some (wsum n_dim D (take D (drop (j * D) (omap id hs)))).
Proof.
  intros HD Hj.
  destruct (site_run_inv n_dim D n hs HD ltac:(lia)) as (_ & Hrows & _).
  rewrite Hrows by exact Hj. do 2 f_equal.
  replace (n * D)%nat with (j * D + (n * D - j * D))%nat by nia.
  rewrite <- take_drop_commute, take_take. f_equal. nia.
Qed.

(** ** Sums of quotients and quotients of sums *)

Lemma flt_equiv_refl x : flt_equiv x x.
Proof. destruct x; simpl; [reflexivity | exact I]. Qed.

Lemma fadd_fdiv_equiv (a b v : flt) (D : Z) :
  D <> 0 -> flt_equiv a (fdiv b D) ->
  flt_equiv (fadd a (fdiv v D)) (fdiv (fadd b v) D).
Proof.
  intros HD. unfold fdiv.
  destruct (Z.eqb_spec D 0) as [|_]; [contradiction|].
  destruct a as [a|], b as [b|], v as [v|]; simpl; try tauto.
  intros ->. field.
  intros H. apply (inject_Z_injective D 0) in H. contradiction.
Qed.

Lemma vadd_vdiv_equiv (a b v : vec) (D : Z) :
  D <> 0 -> vec_equiv a (vdiv b D) ->
  vec_equiv (vadd a (vdiv v D)) (vdiv (vadd b v) D).
Proof.
  intros HD. unfold vec_equiv, vadd, vdiv. revert b v.
  induction a as [|x a IH]; intros [|y b] [|z v] H; simpl in *;
    try constructor; inversion H; subst.
  - apply fadd_fdiv_equiv; assumption.
  - apply IH. assumption.
Qed.

(** What a window holds is the mean of its raw vectors. *)
Lemma wsum_mean n_dim D (vs : list vec) :
  (0 < D)%nat ->
  vec_equiv (wsum n_dim D vs) (vdiv (vsum n_dim vs) (Z.of_nat D)).
Proof.
  intros HD. induction vs as [|v vs IH] using rev_ind.
  - unfold wsum, vsum, vzero, vec_equiv, vdiv. simpl.
    induction n_dim as [|k IHk]; simpl; constructor; [|exact IHk].
    simpl. destruct (Z.eqb_spec (Z.of_nat D) 0); [lia|]. simpl. field.
    intros H. apply (inject_Z_injective (Z.of_nat D) 0) in H. lia.
  - rewrite wsum_snoc. unfold vsum. rewrite foldl_snoc.
    apply vadd_vdiv_equiv; [lia | exact IH].
Qed.

Lemma omap_id_fmap {A B} (g : A -> option B) (l : list A) :
  omap id (map g l) = omap g l.
Proof.
  induction l as [|x l IH]; [reflexivity|].
  cbn. destruct (g x); cbn; rewrite <- IH; reflexivity.
Qed.

(** ** Samples and occupancy *)

Lemma last_hit_is_Some (s : Z) (f : frame) :
  is_Some (last_hit s f) <-> s ∈ f.*1.
Proof.
  unfold last_hit. induction f as [|[i x] f IH]; simpl.
  - split; [intros [? H]; discriminate | intros H; apply elem_of_nil in H; contradiction].
  - rewrite elem_of_cons, <- IH.
    destruct (last_such (Z.eqb s) f) as [v|].
    + split; [intros _; right; eauto | intros _; eauto].
    + destruct (Z.eqb_spec s i) as [->|Hne].
      * split; [intros _; left; reflexivity | intros _; eauto].
      * split; [intros [? H]; discriminate|].
        intros [H|[? H]]; [contradiction | discriminate].
Qed.

Lemma samples_length (s : Z) (frames : list frame) :
  Z.of_nat (length (samples s frames)) =
  occupied_frames s (map (fun f : frame => f.*1) frames).
Proof.
  unfold samples. induction frames as [|f frames IH]; [reflexivity|].
  cbn [map]. rewrite occupied_frames_cons, <- IH. cbn.
  pose proof (last_hit_is_Some s f) as H.
  destruct (last_hit s f) as [v|]; case_bool_decide as Hin; cbn.
  - lia.
  - exfalso. apply Hin, H. eauto.
  - exfalso. apply H in Hin as [? ?]. discriminate.
  - lia.
Qed.

Lemma samples_nonempty (s : Z) (frames : list frame) (f : frame) p :
  f ∈ frames -> p ∈ f -> p.1 = s -> (1 <= length (samples s frames))%nat.
Proof.
  intros Hf Hp Hs. unfold samples.
  induction frames as [|g frames IH]; [apply elem_of_nil in Hf; contradiction|].
  cbn. apply elem_of_cons in Hf as [<-|Hf].
  - assert (H : is_Some (last_hit s f)).
    { apply last_hit_is_Some. subst s. apply list_elem_of_fmap_2. exact Hp. }
    destruct H as [v ->]. cbn. lia.
  - specialize (IH Hf). destruct (last_hit s g); cbn; lia.
Qed.

Lemma omap_id_nil {A} (hs : list (option A)) :
  omap id hs = [] -> Forall (fun h => h = None) hs.
Proof.
  induction hs as [|[x|] hs IH]; cbn; intros H; [constructor|discriminate|].
  constructor; [reflexivity | apply IH, H].
Qed.

Lemma valid_site_traj nsit n_dim (frames : list frame) :
  Forall (valid_frame nsit n_dim) frames ->
  Forall (Forall (valid_site nsit)) (map (fun f : frame => f.*1) frames).
Proof.
  intros H. apply Forall_fmap. eapply Forall_impl; [exact H|].
  intros f Hf. simpl. apply Forall_fmap. eapply Forall_impl; [exact Hf|].
  intros p [Hp _]. exact Hp.
Qed.

Lemma existsb_id_false (l : list bool) :
  (forall s, (s < length l)%nat -> l !! s = Some false) -> existsb id l = false.
Proof.
  intros H. destruct (existsb id l) eqn:E; [|reflexivity].
  apply existsb_exists in E as (a & Hin & Ha). unfold id in Ha. subst a.
  apply list_elem_of_In, list_elem_of_lookup in Hin as [s Hs].
  rewrite H in Hs by (eapply lookup_lt_Some; eauto). discriminate.
Qed.

Lemma planned_divisor_nonneg D c : 0 < D -> 0 <= c -> 0 <= planned_divisor D c.
Proof. intros HD Hc. unfold planned_divisor. destruct (_ =? _); lia. Qed.

Lemma planned_insufficient D c :
  0 < D -> 0 <= c -> c `div` D = 0 ->
  planned_count D c = 1 /\ planned_divisor D c = c.
Proof.
  intros HD Hc E. unfold planned_count, planned_divisor. rewrite E. simpl. lia.
Qed.

Lemma planned_sufficient D c :
  0 < D -> 0 <= c -> c `div` D <> 0 ->
  planned_count D c = c `div` D /\ planned_divisor D c = D
  /\ 1 <= c `div` D /\ (c `div` D) * D <= c.
Proof.
  intros HD Hc E. unfold planned_count, planned_divisor.
  assert (0 <= c `div` D) by (apply Z.div_pos; lia).
  pose proof (Z.mul_div_le c D HD).
  destruct (Z.eqb_spec (c `div` D) 0); [contradiction|]. lia.
Qed.

(** ** A run on valid frames *)

(** The whole run, when the sampled frames are valid and not empty: it
    returns, the final arrays hold every site's isolated run, and no
    raw vector was divided by zero. *)
Lemma run_valid_at self nsit n_dim traj frames counts D :
  valid_configuration self ->
  slice_step (_stepsize self) traj = Ok frames ->
  frames <> [] -> (0 < nsit)%nat ->
  Forall (valid_frame nsit n_dim) frames ->
  occupancy nsit (map (fun f : frame => f.*1) frames) = Ok counts ->
  returns (resolve_averaging self counts) D ->
  exists p st,
    0 < D
    /\ returns (planning self nsit traj) (frames, p)
    /\ nr_of_descs p = map (planned_count D) counts
    /\ averagings p = map (planned_divisor D) counts
    /\ (forall s, (s < nsit)%nat ->
          counts !! s = Some (Z.of_nat (length (samples (Z.of_nat s) frames))))
    /\ refines nsit n_dim (nr_of_descs p) st
         (fun s => site_run n_dim (divisor (averagings p) s)
                     (quota (nr_of_descs p) s)
                     (map (last_hit (Z.of_nat s)) frames))
    /\ returns (_get_descriptors self nsit n_dim traj) (descs st, labels_of nsit p)
    /\ Forall (fun d => d <> 0)
         (divisors_used (averagings p) (max_index (nr_of_descs p))
            (initial_state nsit n_dim (nr_of_descs p)) frames).
Proof.
  intros Hcfg Hslice Hne Hnsit Hv Hocc HD.
  destruct (occupancy_spec nsit _ (valid_site_traj nsit n_dim frames Hv))
    as (counts0 & Hocc0 & Hlen & Hcounts).
  rewrite Hocc in Hocc0. injection Hocc0 as <-.
  pose proof (occupancy_inv _ _ _ Hocc) as [_ Hpos].
  assert (Hcne : counts <> []) by (destruct counts; [simpl in Hlen; lia | discriminate]).
  pose proof (resolve_averaging_positive self counts D Hcfg Hpos HD) as HDpos.
  destruct (plan_total counts D Hcne) as [p Hp].
  pose proof (planning_complete self nsit traj frames counts D p Hslice Hocc HD Hp)
    as Hplanning.
  destruct (planning_shape self nsit traj frames p Hplanning)
    as (counts' & D' & Hocc' & HD' & _ & _ & Hnr & Hav).
  rewrite Hocc in Hocc'. inversion Hocc'; subst counts'.
  unfold returns in HD, HD'. rewrite HD in HD'. inversion HD'; subst D'. clear Hocc' HD'.
  assert (Hsamples : forall s, (s < nsit)%nat ->
            counts !! s = Some (Z.of_nat (length (samples (Z.of_nat s) frames)))).
  { intros s Hs. rewrite (Hcounts s Hs), samples_length. reflexivity. }
  assert (Hnrl : length (nr_of_descs p) = nsit) by (rewrite Hnr, length_fmap; exact Hlen).
  assert (Havl : length (averagings p) = nsit) by (rewrite Hav, length_fmap; exact Hlen).
  assert (Hnr1 : Forall (fun n => 1 <= n) (nr_of_descs p)).
  { rewrite Hnr. apply Forall_fmap, Forall_forall. intros c _. apply planned_count_pos. }
  assert (Hav0 : Forall (fun a => 0 <= a) (averagings p)).
  { rewrite Hav. apply Forall_fmap. eapply Forall_impl; [exact Hpos|].
    intros c Hc. simpl. apply planned_divisor_nonneg; assumption. }
  destruct (accumulate_refines nsit n_dim (nr_of_descs p) (averagings p)
              Hnsit Hnrl Havl Hnr1 Hav0 frames _ _
              (initial_refines nsit n_dim (nr_of_descs p) (averagings p) Hnsit Hnrl Havl Hnr1) Hv)
    as (st & Hacc & Href).
  exists p, st.
  do 5 (split; [assumption|]).
  split; [exact Href|].
  assert (Hplan : forall s c, (s < nsit)%nat -> counts !! s = Some c ->
            quota (nr_of_descs p) s = Z.to_nat (planned_count D c)
            /\ divisor (averagings p) s = Z.to_nat (planned_divisor D c)
            /\ averagings p !! s = Some (planned_divisor D c)).
  { intros s c Hs Hc. unfold quota, divisor.
    rewrite Hnr, Hav, !list_lookup_fmap, Hc. simpl. auto. }
  split.
  - (* every site is closed at the end *)
    unfold returns.
    rewrite (get_descriptors_result self nsit n_dim traj frames p Hplanning).
    unfold accumulation. rewrite Hacc.
    rewrite existsb_id_false; [reflexivity|].
    destruct Href as (_ & _ & _ & Hal & Hsite).
    intros s Hs. rewrite Hal in Hs.
    destruct (Hsite s Hs) as (_ & _ & Hac & _). rewrite Hac. f_equal.
    pose proof (Hsamples s Hs) as Hc.
    destruct (Hplan s _ Hs Hc) as (Hq & Hd & _). rewrite Hq, Hd.
    set (m := length (samples (Z.of_nat s) frames)) in *.
    assert (Hm : length (omap id (map (last_hit (Z.of_nat s)) frames)) = m).
    { rewrite omap_id_fmap. reflexivity. }
    destruct (Z.eq_dec (Z.of_nat m `div` D) 0) as [E|E].
    + destruct (planned_insufficient D (Z.of_nat m) HDpos ltac:(lia) E) as [-> ->].
      destruct (decide (m = 0%nat)) as [E0|E0].
      * rewrite E0. apply site_run_idle_closed.
        -- destruct frames; [congruence | discriminate].
        -- apply omap_id_nil. apply length_zero_iff_nil. lia.
      * apply site_run_closed; [lia | lia |]. rewrite Hm. lia.
    + destruct (planned_sufficient D (Z.of_nat m) HDpos ltac:(lia) E)
        as (-> & -> & H1 & H2).
      apply site_run_closed; [lia | lia |]. rewrite Hm. nia.
  - (* no divisor is zero *)
    eapply Forall_impl;
      [apply (divisors_used_spec nsit n_dim (nr_of_descs p) (averagings p)
                Hnsit Hnrl Havl Hnr1 Hav0 frames _ _
                (initial_refines nsit n_dim (nr_of_descs p) (averagings p) Hnsit Hnrl Havl Hnr1) Hv)|].
    intros d (f & q & Hf & Hq & Hi & Hd).
    pose proof (samples_nonempty q.1 frames f q Hf Hq eq_refl) as H1.
    pose proof (Hsamples (Z.to_nat q.1) ltac:(lia)) as Hc.
    rewrite Z2Nat.id in Hc by lia.
    destruct (Hplan (Z.to_nat q.1) _ ltac:(lia) Hc) as (_ & _ & Hd').
    rewrite Hd in Hd'. inversion Hd'; subst d.
    set (m := length (samples q.1 frames)) in *.
    destruct (Z.eq_dec (Z.of_nat m `div` D) 0) as [E|E].
    + destruct (planned_insufficient D (Z.of_nat m) HDpos ltac:(lia) E) as [_ ->]. lia.
    + destruct (planned_sufficient D (Z.of_nat m) HDpos ltac:(lia) E) as (_ & -> & _). lia.
Qed.

(** The same for a configuration of machine size, whose divisor candidate
    always exists. *)
Lemma run_valid self nsit n_dim traj frames :
  valid_configuration self -> machine_sized self ->
  slice_step (_stepsize self) traj = Ok frames ->
  frames <> [] -> (0 < nsit)%nat ->
  Forall (valid_frame nsit n_dim) frames ->
  exists counts D p st,
    occupancy nsit (map (fun f : frame => f.*1) frames) = Ok counts
    /\ returns (resolve_averaging self counts) D /\ 0 < D
    /\ returns (planning self nsit traj) (frames, p)
    /\ nr_of_descs p = map (planned_count D) counts
    /\ averagings p = map (planned_divisor D) counts
    /\ (forall s, (s < nsit)%nat ->
          counts !! s = Some (Z.of_nat (length (samples (Z.of_nat s) frames))))
    /\ refines nsit n_dim (nr_of_descs p) st
         (fun s => site_run n_dim (divisor (averagings p) s)
                     (quota (nr_of_descs p) s)
                     (map (last_hit (Z.of_nat s)) frames))
    /\ returns (_get_descriptors self nsit n_dim traj) (descs st, labels_of nsit p)
    /\ Forall (fun d => d <> 0)
         (divisors_used (averagings p) (max_index (nr_of_descs p))
            (initial_state nsit n_dim (nr_of_descs p)) frames).
Proof.
  intros Hcfg Hms Hslice Hne Hnsit Hv.
  destruct (occupancy_spec nsit _ (valid_site_traj nsit n_dim frames Hv))
    as (counts & Hocc & Hlen & _).
  assert (Hcne : counts <> []) by (destruct counts; [simpl in Hlen; lia | discriminate]).
  destruct (resolve_averaging_total self counts Hcfg Hms Hcne) as [D HD].
  destruct (run_valid_at self nsit n_dim traj frames counts D
              Hcfg Hslice Hne Hnsit Hv Hocc HD) as (p & st & H).
  exists counts, D, p, st. split; [exact Hocc|]. split; [exact HD|]. exact H.
Qed.

(** ** Rows and labels of one site *)

Lemma np_repeat_seq_lookup (m k : nat) (rs : list Z) (s j : nat) :
  length rs = m -> Forall (fun r => 0 <= r) rs ->
  (k <= s < k + m)%nat ->
  (j < Z.to_nat (default 0%Z (rs !! (s - k)%nat)))%nat ->
  np_repeat (map Z.of_nat (seq k m)) rs
    !! (Z.to_nat (np_sum (take (s - k) rs)) + j)%nat = Some (Z.of_nat s).
Proof.
  revert k rs. induction m as [|m IH]; intros k [|r rs] Hl Hr Hs Hj;
    simpl in Hl; try discriminate; try lia.
  apply Forall_cons in Hr as [Hr0 Hr]. cbn [seq map np_repeat].
  destruct (decide (s = k)) as [->|Hne].
  - rewrite Nat.sub_diag in *. simpl in Hj. simpl.
    rewrite lookup_app_l by (rewrite length_replicate; exact Hj).
    apply lookup_replicate_2. exact Hj.
  - replace (s - k)%nat with (S (s - S k)) in * by lia.
    cbn [take np_sum foldr lookup list_lookup] in *.
    pose proof (np_sum_nonneg (take (s - S k) rs) (Forall_take _ _ _ Hr)) as Hsum.
    unfold np_sum in Hsum.
    rewrite lookup_app_r by (rewrite length_replicate; lia).
    rewrite length_replicate.
    replace (Z.to_nat (r + foldr Z.add 0%Z (take (s - S k) rs)) + j - Z.to_nat r)%nat
      with (Z.to_nat (np_sum (take (s - S k) rs)) + j)%nat by (unfold np_sum; lia).
    apply IH; [lia | exact Hr | lia | exact Hj].
Qed.

(** The label block of a site. *)
Lemma labels_of_site nsit p (s j : nat) n :
  length (nr_of_descs p) = nsit ->
  Forall (fun n => 1 <= n) (nr_of_descs p) ->
  nr_of_descs p !! s = Some n ->
  length (filter (fun l => l = Z.of_nat s) (labels_of nsit p)) = Z.to_nat n
  /\ ((j < Z.to_nat n)%nat ->
      labels_of nsit p !! (base (nr_of_descs p) s + j)%nat = Some (Z.of_nat s)).
Proof.
  intros Hl Hpos Hn. pose proof (lookup_lt_Some _ _ _ Hn) as Hs.
  unfold labels_of. split.
  - rewrite np_repeat_seq_count by exact Hl.
    rewrite bool_decide_eq_true_2 by lia. rewrite Nat.sub_0_r, Hn. reflexivity.
  - intros Hj. unfold base.
    pose proof (np_repeat_seq_lookup nsit 0 (nr_of_descs p) s j Hl) as H.
    rewrite Nat.sub_0_r in H. apply H.
    + eapply Forall_impl; [exact Hpos|]. simpl. intros; lia.
    + lia.
    + rewrite Hn. exact Hj.
Qed.

Lemma returns_inj {A} (m : M A) (a b : A) : returns m a -> returns m b -> a = b.
Proof. unfold returns. intros -> H. inversion H. reflexivity. Qed.

Lemma returns_frames_nonempty self nsit n_dim traj frames (d : list vec) (l : list Z) :
  returns (_get_descriptors self nsit n_dim traj) (d, l) ->
  slice_step (_stepsize self) traj = Ok frames ->
  (0 < nsit)%nat -> frames <> [].
Proof.
  intros H Hslice Hnsit ->.
  apply get_descriptors_returns in H as (frames' & p & st & Hp & Hacc & Hex & _).
  apply planning_returns in Hp as (_ & _ & Hslice' & _).
  rewrite Hslice in Hslice'. inversion Hslice'; subst frames'.
  unfold accumulation in Hacc. simpl in Hacc. inversion Hacc; subst st.
  simpl in Hex. destruct nsit; [lia | discriminate].
Qed.

(** The row of a site no sampled frame assigns anything to. *)
Lemma idle_site_row nsit n_dim (D : Z) counts p st (frames : list frame) (s : nat) :
  0 < D -> length counts = nsit ->
  nr_of_descs p = map (planned_count D) counts ->
  counts !! s = Some 0 ->
  (forall s, (s < nsit)%nat ->
     counts !! s = Some (Z.of_nat (length (samples (Z.of_nat s) frames)))) ->
  refines nsit n_dim (nr_of_descs p) st
    (fun s => site_run n_dim (divisor (averagings p) s) (quota (nr_of_descs p) s)
                (map (last_hit (Z.of_nat s)) frames)) ->
  length (filter (fun l => l = Z.of_nat s) (labels_of nsit p)) = 1%nat
  /\ labels_of nsit p !! base (nr_of_descs p) s = Some (Z.of_nat s)
  /\ descs st !! base (nr_of_descs p) s = Some (vzero n_dim).
Proof.
  intros HD Hlen Hnr Hc Hsamples Href.
  assert (Hs : (s < nsit)%nat) by (rewrite <- Hlen; eapply lookup_lt_Some; eauto).
  assert (Hn : nr_of_descs p !! s = Some 1).
  { rewrite Hnr, list_lookup_fmap, Hc. reflexivity. }
  assert (Hnrl : length (nr_of_descs p) = nsit) by (rewrite Hnr, length_fmap; exact Hlen).
  assert (Hnr1 : Forall (fun n => 1 <= n) (nr_of_descs p)).
  { rewrite Hnr. apply Forall_fmap, Forall_forall. intros c _. apply planned_count_pos. }
  destruct (labels_of_site nsit p s 0 1 Hnrl Hnr1 Hn) as [Hcount Hlab].
  split; [exact Hcount|]. split.
  - rewrite <- (Nat.add_0_r (base _ s)). apply Hlab. lia.
  - destruct Href as (_ & _ & _ & _ & Hsite).
    destruct (Hsite s Hs) as (_ & _ & _ & _ & Hrows & _).
    assert (Hq : quota (nr_of_descs p) s = 1%nat) by (unfold quota; rewrite Hn; reflexivity).
    rewrite <- (Nat.add_0_r (base _ s)), Hrows by lia.
    unfold site_run. rewrite site_run_idle_out.
    + rewrite Hq. reflexivity.
    + apply omap_id_nil. rewrite omap_id_fmap. apply length_zero_iff_nil.
      specialize (Hsamples s Hs). rewrite Hc in Hsamples.
      inversion Hsamples as [E]. unfold samples in E. lia.
Qed.

(** ** Sites without occupancy *)

(** C3, as the code has it: a site with zero occupancy is neither left
    out nor reported; in a result the engine returns for valid sampled
    frames, exactly one row is labelled with the site, and that row is
    the zero-initialised vector, no division having contributed to it. *)
Theorem zero_occupancy_site_kept self nsit n_dim traj frames counts (s : nat)
  (descs0 : list vec) (labels : list Z) :
  valid_configuration self ->
  slice_step (_stepsize self) traj = Ok frames ->
  Forall (valid_frame nsit n_dim) frames ->
  occupancy nsit (map (fun f : frame => f.*1) frames) = Ok counts ->
  counts !! s = Some 0 ->
  returns (_get_descriptors self nsit n_dim traj) (descs0, labels) ->
  length (filter (fun l => l = Z.of_nat s) labels) = 1%nat
  /\ exists i, labels !! i = Some (Z.of_nat s)
               /\ descs0 !! i = Some (vzero n_dim).
Proof.
  intros Hcfg Hslice Hv Hocc Hc Hret.
  pose proof (occupancy_inv _ _ _ Hocc) as [Hlen _].
  assert (Hs : (s < nsit)%nat) by (rewrite <- Hlen; eapply lookup_lt_Some; eauto).
  pose proof (returns_frames_nonempty _ _ _ _ _ _ _ Hret Hslice ltac:(lia)) as Hne.
  destruct (get_descriptors_returns _ _ _ _ _ _ Hret) as (fr0 & p0 & st0 & Hp0 & _).
  destruct (planning_returns _ _ _ _ _ Hp0) as (counts' & D & Hslice' & Hocc' & Hres & _).
  rewrite Hslice in Hslice'. injection Hslice' as <-.
  rewrite Hocc in Hocc'. injection Hocc' as <-.
  destruct (run_valid_at self nsit n_dim traj frames counts D
              Hcfg Hslice Hne ltac:(lia) Hv Hocc Hres)
    as (p & st & HD & _ & Hnr & _ & Hsam & Href & Hret' & _).
  pose proof (returns_inj _ _ _ Hret Hret') as E. injection E as -> ->.
  destruct (idle_site_row nsit n_dim D counts p st frames s HD Hlen Hnr Hc Hsam Href)
    as (H1 & H2 & H3).
  split; [exact H1|]. eauto.
Qed.

Lemma zero_occupancy_site_kept_witness :
  length (filter (fun l => l = Z.of_nat 1) [0; 0; 1]) = 1%nat
  /\ exists i, [0; 0; 1] !! i = Some (Z.of_nat 1)
               /\ ([[Fin 1]; [Fin 3]; [Fin 0]] : list vec) !! i = Some (vzero 1).
Proof.
  apply (zero_occupancy_site_kept (example_window 1) 2 1 example_traj_idle
           example_traj_idle [2; 0] 1 [[Fin 1]; [Fin 3]; [Fin 0]] [0; 0; 1]).
  - split; [simpl; lia|]. left. exists 1. simpl. repeat split; lia.
  - reflexivity.
  - repeat constructor; unfold valid_site, SITE_UNKNOWN; simpl; lia.
  - reflexivity.
  - reflexivity.
  - reflexivity.
Defined.

(** C3 as stated fails: with two sites and frames that only ever occupy
    site 0, the run raises nothing and its labels contain site 1. *)
Lemma zero_occupancy_site_returned_counterexample :
  occupancy 2 (map (fun f : frame => f.*1) example_traj_idle) = Ok [2; 0]
  /\ returns (_get_descriptors (example_window 1) 2 1 example_traj_idle)
       ([[Fin 1]; [Fin 3]; [Fin 0]], [0; 0; 1])
  /\ 1 ∈ [0; 0; 1].
Proof.
  split; [reflexivity|]. split; [reflexivity|].
  apply list_elem_of_In. simpl. auto.
Qed.




(** ** Full windows and the remainder *)

Lemma last_hit_single (s : Z) (f : frame) :
  (length (List.filter (fun p : Z * vec => (p.1 =? s)%Z) f) <= 1)%nat ->
  match last_hit s f with Some v => [v] | None => [] end
  = (List.filter (fun p : Z * vec => p.1 =? s) f).*2.
Proof.
  unfold last_hit. induction f as [|[i x] f IH]; simpl; [reflexivity|].
  rewrite (Z.eqb_sym s i).
  destruct (i =? s) eqn:E; simpl; intros Hlen.
  - assert (Hnil : List.filter (fun p : Z * vec => p.1 =? s) f = [])
      by (apply length_zero_iff_nil; lia).
    rewrite Hnil in IH. specialize (IH ltac:(simpl; lia)).
    rewrite Hnil. simpl in IH.
    destruct (last_such (Z.eqb s) f); [discriminate | reflexivity].
  - specialize (IH Hlen). destruct (last_such (Z.eqb s) f); exact IH.
Qed.

Lemma samples_raw_vectors (s : Z) (frames : list frame) :
  single_occupancy s frames -> samples s frames = raw_vectors s frames.
Proof.
  unfold single_occupancy, samples, raw_vectors.
  induction 1 as [|f rest Hf _ IH]; [reflexivity|].
  cbn [map concat]. rewrite <- (last_hit_single s f Hf).
  simpl. unfold omap in IH.
  destruct (last_hit s f); simpl; rewrite IH; reflexivity.
Qed.

(** C6, as the code has it: a site whose occupancy is [q * D + r] with
    [q >= 1] and [0 < r < D], [D] being the divisor candidate, gets exactly
    [q] output rows; row [k] is the mean of the samples
    [k * D .. k * D + D - 1] of the site (their sum divided by [D]); the
    last [r] samples enter no row. The site has one sample for each
    sampled frame in which it is occupied: the raw vector of the last
    entity the frame assigns to it. Where no frame assigns two entities to
    the site, its samples are its raw vectors. *)
Theorem full_windows_averaged self nsit n_dim traj frames counts D (s : nat) q r :
  valid_configuration self ->
  slice_step (_stepsize self) traj = Ok frames ->
  Forall (valid_frame nsit n_dim) frames ->
  occupancy nsit (map (fun f : frame => f.*1) frames) = Ok counts ->
  returns (resolve_averaging self counts) D ->
  counts !! s = Some (q * D + r) ->
  1 <= q -> 0 < r < D ->
  exists (descs0 : list vec) (labels : list Z) p,
    returns (_get_descriptors self nsit n_dim traj) (descs0, labels)
    /\ returns (planning self nsit traj) (frames, p)
    /\ nr_of_descs p !! s = Some q
    /\ averagings p !! s = Some D
    /\ length (filter (fun l => l = Z.of_nat s) labels) = Z.to_nat q
    /\ Z.of_nat (length (samples (Z.of_nat s) frames)) = q * D + r
    /\ (single_occupancy (Z.of_nat s) frames ->
        samples (Z.of_nat s) frames = raw_vectors (Z.of_nat s) frames)
    /\ forall k, (k < Z.to_nat q)%nat ->
         exists row,
           labels !! (base (nr_of_descs p) s + k)%nat = Some (Z.of_nat s)
           /\ descs0 !! (base (nr_of_descs p) s + k)%nat = Some row
           /\ vec_equiv row
                (window_mean n_dim (Z.to_nat D) k (samples (Z.of_nat s) frames)).
Proof.
  intros Hcfg Hslice Hv Hocc HD Hc Hq Hr.
  pose proof (occupancy_inv _ _ _ Hocc) as [Hlen Hpos].
  assert (Hs : (s < nsit)%nat) by (rewrite <- Hlen; eapply lookup_lt_Some; eauto).
  pose proof (resolve_averaging_positive self counts D Hcfg Hpos HD) as HDpos.
  assert (Hne : frames <> []).
  { intros ->. destruct (occupancy_spec nsit [] ltac:(constructor)) as (c' & E & _ & H0).
    simpl in Hocc. rewrite Hocc in E. inversion E; subst c'.
    rewrite (H0 s Hs) in Hc. unfold occupied_frames in Hc. simpl in Hc.
    inversion Hc. nia. }
  destruct (run_valid_at self nsit n_dim traj frames counts D
              Hcfg Hslice Hne ltac:(lia) Hv Hocc HD)
    as (p & st & _ & Hp & Hnr & Hav & Hsam & Href & Hret & _).
  assert (Hdiv : (q * D + r) `div` D = q).
  { rewrite Z.div_add_l by lia. rewrite Z.div_small by lia. lia. }
  destruct (planned_sufficient D (q * D + r) HDpos ltac:(nia) ltac:(lia))
    as (Hpc & Hpd & _).
  rewrite Hdiv in Hpc.
  assert (Hn : nr_of_descs p !! s = Some q).
  { rewrite Hnr, list_lookup_fmap, Hc. simpl. rewrite Hpc. reflexivity. }
  assert (Ha : averagings p !! s = Some D).
  { rewrite Hav, list_lookup_fmap, Hc. simpl. rewrite Hpd. reflexivity. }
  assert (Hnrl : length (nr_of_descs p) = nsit) by (rewrite Hnr, length_fmap; exact Hlen).
  assert (Hnr1 : Forall (fun n => 1 <= n) (nr_of_descs p)).
  { rewrite Hnr. apply Forall_fmap, Forall_forall. intros c _. apply planned_count_pos. }
  exists (descs st), (labels_of nsit p), p.
  do 4 (split; [assumption|]).
  split; [apply (labels_of_site nsit p s 0 q Hnrl Hnr1 Hn)|].
  split.
  { specialize (Hsam s Hs). rewrite Hc in Hsam. inversion Hsam as [E]. lia. }
  split; [apply samples_raw_vectors|].
  intros k Hk.
  destruct Href as (_ & _ & _ & _ & Hsite).
  destruct (Hsite s Hs) as (_ & _ & _ & _ & Hrows & _).
  assert (Hquota : quota (nr_of_descs p) s = Z.to_nat q)
    by (unfold quota; rewrite Hn; reflexivity).
  assert (Hdivisor : divisor (averagings p) s = Z.to_nat D)
    by (unfold divisor; rewrite Ha; reflexivity).
  eexists. split; [apply (labels_of_site nsit p s k q Hnrl Hnr1 Hn), Hk|].
  split.
  - rewrite Hrows by lia. rewrite Hquota, Hdivisor.
    rewrite site_run_rows by lia. rewrite omap_id_fmap. reflexivity.
  - unfold window_mean. apply wsum_mean. lia.
Qed.

(** The specification's scenario: a window of 2 and five samples 1, 3,
    5, 7, 11 give the rows 2 and 6; the sample 11 is left out. *)
Lemma full_windows_averaged_witness :
  exists (descs0 : list vec) (labels : list Z) p,
    returns (_get_descriptors (example_window 2) 1 1 example_traj_five) (descs0, labels)
    /\ returns (planning (example_window 2) 1 example_traj_five) (example_traj_five, p)
    /\ nr_of_descs p !! 0%nat = Some 2
    /\ averagings p !! 0%nat = Some 2
    /\ length (filter (fun l => l = Z.of_nat 0) labels) = Z.to_nat 2
    /\ Z.of_nat (length (samples (Z.of_nat 0) example_traj_five)) = 2 * 2 + 1
    /\ (single_occupancy (Z.of_nat 0) example_traj_five ->
        samples (Z.of_nat 0) example_traj_five = raw_vectors (Z.of_nat 0) example_traj_five)
    /\ forall k, (k < Z.to_nat 2)%nat ->
         exists row,
           labels !! (base (nr_of_descs p) 0 + k)%nat = Some (Z.of_nat 0)
           /\ descs0 !! (base (nr_of_descs p) 0 + k)%nat = Some row
           /\ vec_equiv row
                (window_mean 1 (Z.to_nat 2) k (samples (Z.of_nat 0) example_traj_five)).
Proof.
  apply (full_windows_averaged (example_window 2) 1 1 example_traj_five
           example_traj_five [5] 2 0 2 1).
  - split; [simpl; lia|]. left. exists 2. simpl. repeat split; lia.
  - reflexivity.
  - repeat constructor; unfold valid_site, SITE_UNKNOWN; simpl; lia.
  - reflexivity.
  - reflexivity.
  - reflexivity.
  - lia.
  - lia.
Defined.

(** C6 as stated fails where a frame assigns two entities to the site: in
    three frames with the raw vectors 1; 10 and 100; 1000 the site is
    occupied three times, a window of 2 gives one row, and the row is
    (1 + 100) / 2: the vector 10 is dropped in the middle of the window,
    and the row is not the mean of the first two raw vectors. *)
Lemma shared_site_window_counterexample :
  occupancy 1 (map (fun f : frame => f.*1) example_traj_shared) = Ok [1 * 2 + 1]
  /\ raw_vectors 0 example_traj_shared = [[Fin 1]; [Fin 10]; [Fin 100]; [Fin 1000]]
  /\ exists row,
       returns (_get_descriptors (example_window 2) 1 1 example_traj_shared)
         ([row], [0])
       /\ vec_equiv row [Fin (101 # 2)]
       /\ ~ vec_equiv row (window_mean 1 2 0 (raw_vectors 0 example_traj_shared)).
Proof.
  split; [reflexivity|]. split; [reflexivity|].
  eexists. split; [reflexivity|]. split.
  - repeat constructor.
  - intros H. apply Forall2_cons_1 in H as [H _]. vm_compute in H. discriminate.
Qed.

(** ** Sample runs of the earlier properties *)

Lemma rows_labels_planned_witness :
  exists frames p,
    returns (planning (example_window 2) 1 example_traj_five) (frames, p)
    /\ length ([[Fin (8 # 4)]; [Fin (24 # 4)]] : list vec) = length [0; 0]
    /\ Z.of_nat (length [0; 0]) = np_sum (nr_of_descs p).
Proof.
  apply (rows_labels_planned (example_window 2) 1 1 example_traj_five
           [[Fin (8 # 4)]; [Fin (24 # 4)]] [0; 0]).
  reflexivity.
Defined.

Lemma labels_grouped_ascending_witness :
  exists frames p,
    returns (planning (example_window 1) 2 example_traj_idle) (frames, p)
    /\ StronglySorted Z.le [0; 0; 1]
    /\ Forall (fun l => 0 <= l < Z.of_nat 2) [0; 0; 1]
    /\ forall s, (s < 2)%nat ->
         exists n, nr_of_descs p !! s = Some n /\ 1 <= n
           /\ Z.of_nat (length (filter (fun l => l = Z.of_nat s) [0; 0; 1])) = n.
Proof.
  apply (labels_grouped_ascending (example_window 1) 2 1 example_traj_idle
           [[Fin 1]; [Fin 3]; [Fin 0]] [0; 0; 1]).
  reflexivity.
Defined.

Lemma accumulation_postcondition_witness :
  ((forall s, (s < 1)%nat ->
      exhausted (max_index (nr_of_descs (mkPlan [2] [2])))
        (mkAcc [[Fin (8 # 4)]; [Fin (24 # 4)]] [2] [0] [false]) s)
   /\ returns (_get_descriptors (example_window 2) 1 1 example_traj_five)
        (descs (mkAcc [[Fin (8 # 4)]; [Fin (24 # 4)]] [2] [0] [false]),
         labels_of 1 (mkPlan [2] [2])))
  \/ ((exists s, (s < 1)%nat
         /\ allowed (mkAcc [[Fin (8 # 4)]; [Fin (24 # 4)]] [2] [0] [false]) !! s
            = Some true)
      /\ (_get_descriptors (example_window 2) 1 1 example_traj_five).2
         = Raise AssertionError).
Proof.
  apply (accumulation_postcondition (example_window 2) 1 1 example_traj_five
           example_traj_five (mkPlan [2] [2])
           (mkAcc [[Fin (8 # 4)]; [Fin (24 # 4)]] [2] [0] [false]));
    reflexivity.
Defined.

(** * Further properties *)

(** ** The constructor: which exception, and what is stored *)

Lemma check_items_kind (vs v : pyval) (key : string) :
  check_items [(stepsize_key, vs); (key, v)] =
  match vs with
  | PyOther => Raise TypeError
  | PyInt z =>
      if 0 <? z
      then match v with
           | PyOther => Raise TypeError
           | PyInt z' => if 0 <? z' then Ok tt else Raise ValueError
           end
      else Raise ValueError
  end.
Proof.
  simpl. destruct vs as [z|]; [|reflexivity].
  destruct (0 <? z); [|reflexivity].
  destruct v as [z'|]; [|reflexivity].
  destruct (0 <? z'); reflexivity.
Qed.

(** With exactly one mode key, the constructor is the check of the two
    values followed by the base-class constructor. *)
Lemma init_one_mode
  (SOAP__init__ : list pyval -> gmap string pyval -> result unit)
  (args : list pyval) (kwargs : gmap string pyval) (v : pyval) :
  (kwargs !! averaging_key = Some v /\ kwargs !! avg_desc_per_key = None)
  \/ (kwargs !! averaging_key = None /\ kwargs !! avg_desc_per_key = Some v) ->
  __init__ SOAP__init__ args kwargs =
  let* _ := check_items [(stepsize_key, default (PyInt 1) (kwargs !! stepsize_key));
                         (averaging_key, v)] in
  let* _ := SOAP__init__ args (remaining kwargs) in
  Ok (mkSOAPDescriptorAverages
        (int_of (default (PyInt 1) (kwargs !! stepsize_key)))
        (int_of <$> kwargs !! averaging_key)
        (int_of <$> kwargs !! avg_desc_per_key)).
Proof.
  assert (Has : averaging_key <> stepsize_key) by discriminate.
  assert (Hds : avg_desc_per_key <> stepsize_key) by discriminate.
  assert (Had : averaging_key <> avg_desc_per_key) by discriminate.
  intros [[Ha Hd]|[Ha Hd]]; unfold __init__, remaining.
  - rewrite bool_decide_eq_false_2
      by (rewrite Hd; intros [_ [x Hx]]; discriminate).
    rewrite !lookup_delete_ne by done. rewrite Ha, Hd.
    rewrite (delete_id (delete averaging_key (delete stepsize_key kwargs)))
      by (rewrite !lookup_delete_ne by done; exact Hd).
    reflexivity.
  - rewrite bool_decide_eq_false_2
      by (rewrite Ha; intros [[x Hx] _]; discriminate).
    rewrite !lookup_delete_ne by done. rewrite Ha, Hd.
    rewrite (delete_id (delete stepsize_key kwargs) averaging_key)
      by (rewrite ?lookup_delete_ne by done; exact Ha).
    rewrite !check_items_kind. reflexivity.
Qed.

(** X1: which exception the constructor raises. Both mode keys give
    [AssertionError] and neither gives [RuntimeError], whatever the other
    values are; with exactly one mode key the stride is checked first and
    the mode value second, a value that is not an int giving [TypeError]
    and an int that is not positive giving [ValueError]. The base-class
    constructor plays no part in any of these cases. *)
Theorem init_exception_kinds
  (SOAP__init__ : list pyval -> gmap string pyval -> result unit)
  (args : list pyval) (kwargs : gmap string pyval) :
  let r := __init__ SOAP__init__ args kwargs in
  let stepsize := default (PyInt 1) (kwargs !! stepsize_key) in
  (is_Some (kwargs !! averaging_key) /\ is_Some (kwargs !! avg_desc_per_key) ->
   r = Raise AssertionError)
  /\ (kwargs !! averaging_key = None /\ kwargs !! avg_desc_per_key = None ->
      r = Raise RuntimeError)
  /\ (forall v,
        (kwargs !! averaging_key = Some v /\ kwargs !! avg_desc_per_key = None)
        \/ (kwargs !! averaging_key = None /\ kwargs !! avg_desc_per_key = Some v) ->
        (stepsize = PyOther -> r = Raise TypeError)
        /\ (forall z, stepsize = PyInt z -> z <= 0 -> r = Raise ValueError)
        /\ (positive_int stepsize -> v = PyOther -> r = Raise TypeError)
        /\ (positive_int stepsize -> forall z, v = PyInt z -> z <= 0 ->
            r = Raise ValueError)).
Proof.
  cbv zeta. split; [|split].
  - intros Hboth. unfold __init__. rewrite bool_decide_eq_true_2 by exact Hboth.
    reflexivity.
  - intros [Ha Hd]. unfold __init__.
    rewrite bool_decide_eq_false_2
      by (rewrite Ha; intros [[x Hx] _]; discriminate).
    rewrite !lookup_delete_ne by discriminate. rewrite Ha, Hd. reflexivity.
  - intros v Hone. rewrite (init_one_mode SOAP__init__ args kwargs v Hone).
    rewrite check_items_kind.
    destruct (default (PyInt 1) (kwargs !! stepsize_key)) as [zs|].
    + split; [|split; [|split]].
      * discriminate.
      * intros z [= <-] Hz.
        destruct (Z.ltb_spec 0 zs); [lia | reflexivity].
      * intros (z & [= <-] & Hz) ->.
        destruct (Z.ltb_spec 0 zs); [reflexivity | lia].
      * intros (z & [= <-] & Hz) z' -> Hz'.
        destruct (Z.ltb_spec 0 zs); [|lia].
        destruct (Z.ltb_spec 0 z'); [lia | reflexivity].
    + split; [|split; [|split]].
      * reflexivity.
      * discriminate.
      * intros (z & [=] & _).
      * intros (z & [=] & _).
Qed.

(** X2: a valid configuration is handed to the base-class constructor,
    which receives the keyword arguments without the three keys of the
    engine; what it raises, the constructor raises, and when it returns,
    the object stores the values supplied, the stride being 1 when none
    was given. *)
Theorem init_valid_stores_supplied
  (SOAP__init__ : list pyval -> gmap string pyval -> result unit)
  (args : list pyval) (kwargs : gmap string pyval) :
  ~ invalid_configuration kwargs ->
  __init__ SOAP__init__ args kwargs =
  let* _ := SOAP__init__ args (remaining kwargs) in
  Ok (mkSOAPDescriptorAverages
        (int_of (default (PyInt 1) (kwargs !! stepsize_key)))
        (int_of <$> kwargs !! averaging_key)
        (int_of <$> kwargs !! avg_desc_per_key)).
Proof.
  intros Hvalid.
  assert (Hone : exists v,
    ((kwargs !! averaging_key = Some v /\ kwargs !! avg_desc_per_key = None)
     \/ (kwargs !! averaging_key = None /\ kwargs !! avg_desc_per_key = Some v))
    /\ positive_int v).
  { destruct (kwargs !! averaging_key) as [va|] eqn:Ha;
      destruct (kwargs !! avg_desc_per_key) as [vd|] eqn:Hd.
    - exfalso. apply Hvalid. left. rewrite Ha, Hd. split; eauto.
    - exists va. split; [left; auto|].
      destruct (positive_int_dec va) as [H|H]; [exact H|].
      exfalso. apply Hvalid. right; right. exists averaging_key, va. auto.
    - exists vd. split; [right; auto|].
      destruct (positive_int_dec vd) as [H|H]; [exact H|].
      exfalso. apply Hvalid. right; right. exists avg_desc_per_key, vd. auto.
    - exfalso. apply Hvalid. right; left. rewrite Ha, Hd. auto. }
  destruct Hone as (v & Hone & Hv).
  assert (Hs : positive_int (default (PyInt 1) (kwargs !! stepsize_key))).
  { destruct (positive_int_dec (default (PyInt 1) (kwargs !! stepsize_key)))
      as [H|H]; [exact H|].
    apply stepsize_default_bad in H as (v' & Hv' & Hnp).
    exfalso. apply Hvalid. right; right. exists stepsize_key, v'. auto. }
  rewrite (init_one_mode SOAP__init__ args kwargs v Hone).
  rewrite check_items_ok; [reflexivity|].
  repeat constructor; assumption.
Qed.

(** A stride of 4 and a window of 2, handed to a base-class constructor
    that rejects its arguments: its exception is the outcome. *)
Lemma init_valid_stores_supplied_witness :
  __init__ (fun _ _ => @Raise unit TypeError) [PyOther]
    {[ averaging_key := PyInt 2; stepsize_key := PyInt 4 ]} =
  let* _ := (fun _ _ => @Raise unit TypeError) [PyOther]
              (remaining {[ averaging_key := PyInt 2; stepsize_key := PyInt 4 ]}) in
  Ok (mkSOAPDescriptorAverages
        (int_of (default (PyInt 1)
           (({[ averaging_key := PyInt 2; stepsize_key := PyInt 4 ]} : gmap string pyval)
              !! stepsize_key)))
        (int_of <$> ({[ averaging_key := PyInt 2; stepsize_key := PyInt 4 ]} : gmap string pyval)
           !! averaging_key)
        (int_of <$> ({[ averaging_key := PyInt 2; stepsize_key := PyInt 4 ]} : gmap string pyval)
           !! avg_desc_per_key)).
Proof.
  apply (init_valid_stores_supplied (fun _ _ => @Raise unit TypeError) [PyOther]
           {[ averaging_key := PyInt 2; stepsize_key := PyInt 4 ]}).
  unfold invalid_configuration.
  intros [[_ [x Hx]]|[[Ha _]|(k & v & Hk & Hkv & Hnp)]].
  - vm_compute in Hx. discriminate.
  - vm_compute in Ha. discriminate.
  - apply Hnp. destruct Hk as [-> | [-> | ->]]; vm_compute in Hkv.
    + injection Hkv as <-. exists 2. split; [reflexivity | lia].
    + discriminate.
    + injection Hkv as <-. exists 4. split; [reflexivity | lia].
Defined.

(** ** The base-class constructor and its environment *)

Lemma foldr_max_spec (z : Z) (zs : list Z) :
  foldr Z.max z zs ∈ z :: zs /\ Forall (fun x => x <= foldr Z.max z zs) (z :: zs).
Proof.
  induction zs as [|y zs [IHin IHle]]; simpl.
  - split; [left | repeat constructor; lia].
  - apply Forall_cons in IHle as [Hz Hzs]. split.
    + destruct (Z.max_spec y (foldr Z.max z zs)) as [[_ ->]|[_ ->]].
      * apply elem_of_cons in IHin as [E|E]; [rewrite E; left | right; right; exact E].
      * right; left.
    + constructor; [lia|]. constructor; [lia|].
      eapply Forall_impl; [exact Hzs|]. simpl. intros; lia.
Qed.

Section BaseInit.
Context {T Msk B : Type}.
Variable atomic_numbers : gmap string Z.
Variable class_attr : string -> B.

Lemma max_atomic_number_empty :
  atomic_numbers = ∅ ->
  SOAP.max_atomic_number atomic_numbers = SOAP.Fail (SOAP.Builtin ValueError).
Proof. intros ->. unfold SOAP.max_atomic_number. rewrite map_to_list_empty. reflexivity. Qed.

Lemma max_atomic_number_spec symbol z :
  atomic_numbers !! symbol = Some z ->
  exists m symbol',
    SOAP.max_atomic_number atomic_numbers = SOAP.Done m
    /\ atomic_numbers !! symbol' = Some m
    /\ forall s' z', atomic_numbers !! s' = Some z' -> z' <= m.
Proof.
  intros Hz. unfold SOAP.max_atomic_number.
  assert (Hin : z ∈ (map_to_list atomic_numbers).*2).
  { apply list_elem_of_fmap. exists (symbol, z). split; [reflexivity|].
    apply elem_of_map_to_list. exact Hz. }
  destruct ((map_to_list atomic_numbers).*2) as [|y ys] eqn:E.
  { apply elem_of_nil in Hin. contradiction. }
  destruct (foldr_max_spec y ys) as [Hmem Hle].
  rewrite <- E in Hmem, Hle.
  apply list_elem_of_fmap in Hmem as ([s m] & Em & Hm). simpl in Em.
  apply elem_of_map_to_list in Hm.
  exists (foldr Z.max y ys), s. split; [reflexivity|]. split; [rewrite Em; exact Hm|].
  intros s' z' Hz'. rewrite Forall_forall in Hle. apply Hle.
  apply list_elem_of_fmap. exists (s', z'). split; [reflexivity|].
  apply elem_of_map_to_list. exact Hz'.
Qed.

Lemma standardize_entry_done e z :
  SOAP.standardize_entry atomic_numbers e = SOAP.Done z <-> SOAP.accepted atomic_numbers e z.
Proof.
  unfold SOAP.accepted. destruct e as [x|symbol|]; simpl.
  - destruct (Z.ltb_spec 0 x) as [Hx|Hx].
    + split.
      * intros H. left.
        destruct (decide (atomic_numbers = ∅)) as [E|E].
        { rewrite max_atomic_number_empty in H by exact E. discriminate. }
        apply map_choose in E as (s0 & z0 & H0).
        destruct (max_atomic_number_spec s0 z0 H0) as (m & s' & Em & Hm & _).
        rewrite Em in H. simpl in H.
        destruct (Z.leb_spec x m); [|discriminate].
        injection H as <-. split; [reflexivity|]. split; [lia|]. eauto.
      * intros [(E & _ & s & z' & Hz' & Hle)|(s & E & _)]; [|discriminate].
        injection E as ->.
        destruct (max_atomic_number_spec s z' Hz') as (m & s' & Em & _ & Hmax).
        rewrite Em. simpl. specialize (Hmax s z' Hz').
        destruct (Z.leb_spec z m); [reflexivity | lia].
    + split; [discriminate|].
      intros [(E & Hz & _)|(s & E & _)]; [|discriminate].
      injection E as ->. lia.
  - destruct (atomic_numbers !! symbol) as [z'|] eqn:E; split.
    + intros [= <-]. right. eauto.
    + intros [(H & _)|(s & [= <-] & Hs)]; [discriminate|]. congruence.
    + discriminate.
    + intros [(H & _)|(s & [= <-] & Hs)]; [discriminate|]. congruence.
  - split; [discriminate|].
    intros [(H & _)|(s & H & _)]; discriminate.
Qed.

Lemma standardize_done l zs :
  SOAP.standardize atomic_numbers l = SOAP.Done zs <-> Forall2 (SOAP.accepted atomic_numbers) l zs.
Proof.
  revert zs. induction l as [|e l IH]; intros zs; simpl.
  - split.
    + intros [= <-]. constructor.
    + intros H. apply Forall2_nil_inv_l in H as ->. reflexivity.
  - destruct (SOAP.standardize_entry atomic_numbers e) as [z|err] eqn:Ee; simpl.
    + destruct (SOAP.standardize atomic_numbers l) as [zs'|err] eqn:El; simpl.
      * split.
        -- intros [= <-]. constructor; [apply standardize_entry_done, Ee | apply IH; reflexivity].
        -- intros H. apply Forall2_cons_inv_l in H as (z' & zs'' & Hz & Hzs & ->).
           apply standardize_entry_done in Hz. apply IH in Hzs. congruence.
      * split; [discriminate|].
        intros H. apply Forall2_cons_inv_l in H as (z' & zs'' & Hz & Hzs & ->).
        apply IH in Hzs. discriminate.
    + split; [discriminate|].
      intros H. apply Forall2_cons_inv_l in H as (z' & zs'' & Hz & Hzs & ->).
      apply standardize_entry_done in Hz. congruence.
Qed.

Lemma standardize_app l1 l2 zs :
  SOAP.standardize atomic_numbers l1 = SOAP.Done zs ->
  SOAP.standardize atomic_numbers (l1 ++ l2) =
  SOAP.bind (SOAP.standardize atomic_numbers l2) (fun zs' => SOAP.Done (zs ++ zs')).
Proof.
  revert zs. induction l1 as [|e l1 IH]; intros zs; simpl.
  - intros [= <-]. destruct (SOAP.standardize atomic_numbers l2); reflexivity.
  - destruct (SOAP.standardize_entry atomic_numbers e) as [z|err]; simpl; [|discriminate].
    destruct (SOAP.standardize atomic_numbers l1) as [zs1|err] eqn:E1; simpl; [|discriminate].
    intros [= <-]. rewrite (IH zs1 eq_refl).
    destruct (SOAP.standardize atomic_numbers l2); reflexivity.
Qed.

Lemma same_species_entry e1 e2 :
  SOAP.same_species atomic_numbers e1 e2 ->
  SOAP.standardize_entry atomic_numbers e1 = SOAP.standardize_entry atomic_numbers e2.
Proof.
  assert (Hsym : forall symbol z, atomic_numbers !! symbol = Some z -> 0 < z ->
            SOAP.standardize_entry atomic_numbers (SOAP.SpStr symbol) =
            SOAP.standardize_entry atomic_numbers (SOAP.SpInt z)).
  { intros symbol z Hz Hpos.
    transitivity (@SOAP.Done Z z).
    - simpl. rewrite Hz. reflexivity.
    - symmetry. apply standardize_entry_done. left.
      split; [reflexivity|]. split; [exact Hpos|]. exists symbol, z. split; [exact Hz | lia]. }
  intros [->|(symbol & z & Hz & Hpos & [[-> ->]|[-> ->]])].
  - reflexivity.
  - apply Hsym; assumption.
  - symmetry. apply Hsym; assumption.
Qed.

Lemma same_species_standardize l1 l2 :
  Forall2 (SOAP.same_species atomic_numbers) l1 l2 ->
  SOAP.standardize atomic_numbers l1 = SOAP.standardize atomic_numbers l2.
Proof.
  induction 1 as [|e1 e2 l1 l2 He _ IH]; simpl; [reflexivity|].
  rewrite (same_species_entry e1 e2 He), IH. reflexivity.
Qed.

Lemma standardize_entry_error e err :
  SOAP.standardize_entry atomic_numbers e = SOAP.Fail err -> err <> SOAP.AttributeError.
Proof.
  destruct e as [z|symbol|]; simpl.
  - destruct (0 <? z); [|intros [= <-]; discriminate].
    unfold SOAP.max_atomic_number.
    destruct ((map_to_list atomic_numbers).*2) as [|y ys]; simpl.
    + intros [= <-]. discriminate.
    + destruct (z <=? foldr Z.max y ys); [discriminate|]. intros [= <-]. discriminate.
  - destruct (atomic_numbers !! symbol); [discriminate|]. intros [= <-]. discriminate.
  - intros [= <-]. discriminate.
Qed.

Lemma standardize_error l err :
  SOAP.standardize atomic_numbers l = SOAP.Fail err -> err <> SOAP.AttributeError.
Proof.
  induction l as [|e l IH]; simpl; [discriminate|].
  destruct (SOAP.standardize_entry atomic_numbers e) as [z|err'] eqn:Ee; simpl.
  - destruct (SOAP.standardize atomic_numbers l) as [zs|err'] eqn:El; simpl; [discriminate|].
    intros [= <-]. apply IH. reflexivity.
  - intros [= <-]. eapply standardize_entry_error; eauto.
Qed.

(** X3: the constructor raises [AttributeError] exactly when it is
    called without a backend, and then whatever the other arguments are:
    the default is read from the class under the name
    [dscribe_soap_backend], which the class does not bind, before the
    environment is looked at; nothing else in the constructor raises this
    exception. *)
Theorem default_backend_attribute_error
  (tracer : T) (environment : SOAP.environment_arg) (soap_mask : Msk)
  (backend : option B) :
  SOAP.__init__ atomic_numbers class_attr tracer environment soap_mask backend
  = SOAP.Fail SOAP.AttributeError
  <-> backend = None.
Proof.
  split.
  - destruct backend as [b|]; [|reflexivity].
    unfold SOAP.__init__. simpl. intros H. exfalso.
    destruct environment as [|entries|]; simpl in H; [discriminate| |discriminate].
    destruct (SOAP.standardize atomic_numbers entries) as [zs|err] eqn:E;
      simpl in H; [discriminate|].
    injection H as ->. exact (standardize_error _ _ E eq_refl).
  - intros ->. reflexivity.
Qed.

(** X4: with a backend, the constructor returns exactly when the
    environment is [None], or a list or tuple each of whose entries is a
    positive int not above the largest atomic number of the table or a
    symbol of the table; the object then stores the atomic numbers, entry
    by entry and in order ([None] when no environment was given), and the
    other arguments unchanged. *)
Theorem environment_standardized
  (tracer : T) (environment : SOAP.environment_arg) (soap_mask : Msk) (backend : B)
  (self : SOAP.t T Msk B) :
  SOAP.__init__ atomic_numbers class_attr tracer environment soap_mask (Some backend)
  = SOAP.Done self
  <-> match environment with
      | SOAP.EnvNone => self = SOAP.mk tracer soap_mask backend None
      | SOAP.EnvSeq entries =>
          exists numbers,
            Forall2 (SOAP.accepted atomic_numbers) entries numbers
            /\ self = SOAP.mk tracer soap_mask backend (Some numbers)
      | SOAP.EnvOther => False
      end.
Proof.
  unfold SOAP.__init__. simpl. destruct environment as [|entries|]; simpl.
  - split; [intros [= <-]; reflexivity | intros ->; reflexivity].
  - destruct (SOAP.standardize atomic_numbers entries) as [zs|err] eqn:E; simpl.
    + split.
      * intros [= <-]. exists zs. split; [apply standardize_done, E | reflexivity].
      * intros (numbers & Hacc & ->). apply standardize_done in Hacc.
        rewrite E in Hacc. injection Hacc as ->. reflexivity.
    + split; [discriminate|].
      intros (numbers & Hacc & _). apply standardize_done in Hacc. congruence.
  - split; [discriminate | contradiction].
Qed.

(** X5: symbols and numbers are interchangeable: two environments that
    name the same species entry by entry, one by the symbol and the other
    by its positive atomic number, give the same outcome, be it the object
    or the exception. *)
Theorem symbols_numbers_interchangeable
  (tracer : T) (soap_mask : Msk) (backend : option B)
  (entries1 entries2 : list SOAP.species) :
  Forall2 (SOAP.same_species atomic_numbers) entries1 entries2 ->
  SOAP.__init__ atomic_numbers class_attr tracer (SOAP.EnvSeq entries1) soap_mask backend
  = SOAP.__init__ atomic_numbers class_attr tracer (SOAP.EnvSeq entries2) soap_mask backend.
Proof.
  intros H. unfold SOAP.__init__.
  rewrite (same_species_standardize _ _ H). reflexivity.
Qed.

(** X6: the first entry that is not accepted decides the exception, the
    entries before it being accepted: [TypeError] for an entry that is
    neither an int nor a str, [KeyError] for a str that is no symbol of the
    table, [AssertionError] for an int that is not positive or lies above
    every atomic number of the (non-empty) table. What follows the entry
    is not looked at. *)
Theorem environment_first_offender
  (tracer : T) (soap_mask : Msk) (backend : B)
  (good : list SOAP.species) (numbers : list Z) (bad : SOAP.species)
  (rest : list SOAP.species) :
  Forall2 (SOAP.accepted atomic_numbers) good numbers ->
  let r := SOAP.__init__ atomic_numbers class_attr tracer
             (SOAP.EnvSeq (good ++ bad :: rest)) soap_mask (Some backend) in
  (bad = SOAP.SpOther -> r = SOAP.Fail (SOAP.Builtin TypeError))
  /\ (forall symbol, bad = SOAP.SpStr symbol -> atomic_numbers !! symbol = None ->
      r = SOAP.Fail SOAP.KeyError)
  /\ (forall z, bad = SOAP.SpInt z ->
      z <= 0 \/ (atomic_numbers <> ∅
                 /\ forall symbol z', atomic_numbers !! symbol = Some z' -> z' < z) ->
      r = SOAP.Fail (SOAP.Builtin AssertionError)).
Proof.
  intros Hgood. apply standardize_done in Hgood.
  assert (Hstep : forall err,
    SOAP.standardize_entry atomic_numbers bad = SOAP.Fail err ->
    SOAP.__init__ atomic_numbers class_attr tracer
      (SOAP.EnvSeq (good ++ bad :: rest)) soap_mask (Some backend) = SOAP.Fail err).
  { intros err Hbad. unfold SOAP.__init__. simpl.
    rewrite (standardize_app _ _ _ Hgood). simpl. rewrite Hbad. reflexivity. }
  cbv zeta. split; [|split].
  - intros ->. apply Hstep. reflexivity.
  - intros symbol -> Hnone. apply Hstep. simpl. rewrite Hnone. reflexivity.
  - intros z -> Hz. apply Hstep. simpl.
    destruct (Z.ltb_spec 0 z) as [Hpos|Hpos]; [|reflexivity].
    destruct Hz as [Hz|[Hne Hab]]; [lia|].
    apply map_choose in Hne as (s0 & z0 & H0).
    destruct (max_atomic_number_spec s0 z0 H0) as (m & s' & Em & Hm & _).
    rewrite Em. simpl. specialize (Hab s' m Hm).
    destruct (Z.leb_spec z m); [lia | reflexivity].
Qed.

End BaseInit.

(** Carbon by its symbol and oxygen by its number, and the other way
    round. *)
Lemma symbols_numbers_interchangeable_witness :
  SOAP.__init__ example_table (fun _ => 0) 3
    (SOAP.EnvSeq [SOAP.SpStr "C"; SOAP.SpInt 8]) tt (Some 1)
  = SOAP.__init__ example_table (fun _ => 0) 3
      (SOAP.EnvSeq [SOAP.SpInt 6; SOAP.SpStr "O"]) tt (Some 1).
Proof.
  apply (symbols_numbers_interchangeable example_table (fun _ => 0) 3 tt (Some 1)
           [SOAP.SpStr "C"; SOAP.SpInt 8] [SOAP.SpInt 6; SOAP.SpStr "O"]).
  constructor; [|constructor; [|constructor]].
  - right. exists "C"%string, 6. split; [reflexivity|]. split; [lia|]. left. split; reflexivity.
  - right. exists "O"%string, 8. split; [reflexivity|]. split; [lia|]. right. split; reflexivity.
Defined.

(** Carbon, then an entry that is no species. *)
Lemma environment_first_offender_witness :
  let r := SOAP.__init__ example_table (fun _ => 0) 3
             (SOAP.EnvSeq ([SOAP.SpStr "C"] ++ SOAP.SpInt 9 :: [SOAP.SpOther])) tt (Some 1) in
  (SOAP.SpInt 9 = SOAP.SpOther -> r = SOAP.Fail (SOAP.Builtin TypeError))
  /\ (forall symbol, SOAP.SpInt 9 = SOAP.SpStr symbol -> example_table !! symbol = None ->
      r = SOAP.Fail SOAP.KeyError)
  /\ (forall z, SOAP.SpInt 9 = SOAP.SpInt z ->
      z <= 0 \/ (example_table <> ∅
                 /\ forall symbol z', example_table !! symbol = Some z' -> z' < z) ->
      r = SOAP.Fail (SOAP.Builtin AssertionError)).
Proof.
  apply (environment_first_offender example_table (fun _ => 0) 3 tt 1
           [SOAP.SpStr "C"] [6] (SOAP.SpInt 9) [SOAP.SpOther]).
  constructor; [|constructor].
  right. exists "C"%string. split; reflexivity.
Defined.

(** ** The stride *)

Lemma every_from_lookup {A} (k skip : nat) (l : list A) (i : nat) :
  (1 <= k)%nat -> every_from k skip l !! i = l !! (skip + i * k)%nat.
Proof.
  intros Hk. revert skip i. induction l as [|x l IH]; intros skip i.
  - destruct skip; reflexivity.
  - destruct skip as [|skip]; simpl.
    + destruct i as [|i]; [reflexivity|]. simpl. rewrite IH.
      replace (k + i * k)%nat with (S (k - 1 + i * k)) by lia. reflexivity.
    + apply IH.
Qed.

(** X7: for a positive stride [k] the sampled sequence holds the
    frames 0, k, 2k, ... of the trajectory, in order: its entry [i] is
    entry [i * k] of the trajectory (so the first frame is always
    sampled), and it has ceil(n / k) entries for a trajectory of [n]
    frames. *)
Theorem stride_samples_every_kth {A} (k : Z) (l : list A) :
  0 < k ->
  exists sampled,
    slice_step k l = Ok sampled
    /\ (forall i, sampled !! i = l !! (i * Z.to_nat k)%nat)
    /\ Z.of_nat (length sampled) = (Z.of_nat (length l) + k - 1) `div` k.
Proof.
  intros Hk. unfold slice_step.
  destruct (Z.eqb_spec k 0) as [|_]; [lia|].
  destruct (Z.ltb_spec 0 k) as [_|]; [|lia].
  eexists. split; [reflexivity|].
  assert (Hlook : forall i,
            every_from (Z.to_nat k) 0 l !! i = l !! (i * Z.to_nat k)%nat).
  { intros i. rewrite every_from_lookup by lia. reflexivity. }
  split; [exact Hlook|].
  set (n := length (every_from (Z.to_nat k) 0 l)).
  assert (Hup : (length l <= n * Z.to_nat k)%nat).
  { apply Nat.nlt_ge. intros Hlt.
    apply (lookup_lt_is_Some_2 l) in Hlt. rewrite <- Hlook in Hlt.
    apply lookup_lt_is_Some_1 in Hlt. unfold n in Hlt. lia. }
  assert (Hlow : (0 < n)%nat -> ((n - 1) * Z.to_nat k < length l)%nat).
  { intros Hn. apply lookup_lt_is_Some_1. rewrite <- Hlook.
    apply lookup_lt_is_Some_2. unfold n in *. lia. }
  apply Z.div_unique_pos with (r := Z.of_nat (length l) + k - 1 - k * Z.of_nat n).
  - destruct (decide (n = 0)%nat) as [E|E].
    + rewrite E in *. simpl in Hup. split; lia.
    + specialize (Hlow ltac:(lia)). split; nia.
  - lia.
Qed.

Lemma stride_samples_every_kth_witness :
  exists sampled,
    slice_step 2 [10; 11; 12; 13; 14] = Ok sampled
    /\ (forall i, sampled !! i = [10; 11; 12; 13; 14] !! (i * Z.to_nat 2)%nat)
    /\ Z.of_nat (length sampled) = (Z.of_nat (length [10; 11; 12; 13; 14]) + 2 - 1) `div` 2.
Proof. apply (stride_samples_every_kth 2 [10; 11; 12; 13; 14]). lia. Defined.

(** ** The counter: bounds *)

Lemma getitem_inv {A} (a : list A) i x :
  getitem a i = Ok x ->
  exists n, norm_index (length a) i = Some n /\ a !! n = Some x.
Proof.
  unfold getitem. destruct (norm_index (length a) i) as [n|]; [|discriminate].
  destruct (a !! n) as [y|] eqn:E; [|discriminate].
  intros [= <-]. eauto.
Qed.

Lemma norm_index_range len i n :
  norm_index len i = Some n -> - Z.of_nat len <= i < Z.of_nat len.
Proof.
  unfold norm_index. repeat case_bool_decide; intros; try discriminate; lia.
Qed.

Lemma norm_index_is_Some len i :
  - Z.of_nat len <= i < Z.of_nat len -> exists n, norm_index len i = Some n /\ (n < len)%nat.
Proof.
  intros H. unfold norm_index. repeat case_bool_decide; try lia; eexists; split; try reflexivity; lia.
Qed.

Lemma take_idx_in_range {A} (a : list A) idx xs :
  take_idx a idx = Ok xs ->
  Forall (fun i => - Z.of_nat (length a) <= i < Z.of_nat (length a)) idx.
Proof.
  revert xs. induction idx as [|i idx IH]; simpl; intros xs H; [constructor|].
  destruct (getitem a i) as [x|] eqn:E; simpl in H; [|discriminate].
  destruct (take_idx a idx) as [xs'|]; simpl in H; [|discriminate].
  constructor; [|eapply IH; reflexivity].
  apply getitem_inv in E as (n & Hn & _). eapply norm_index_range; eauto.
Qed.

Lemma take_idx_total {A} (a : list A) idx :
  Forall (fun i => - Z.of_nat (length a) <= i < Z.of_nat (length a)) idx ->
  exists xs, take_idx a idx = Ok xs.
Proof.
  induction 1 as [|i idx Hi _ [xs IH]]; simpl; [eauto|].
  apply norm_index_is_Some in Hi as (n & Hn & Hlt).
  unfold getitem. rewrite Hn.
  destruct (lookup_lt_is_Some_2 a n Hlt) as [x Hx]. rewrite Hx. simpl.
  rewrite IH. simpl. eauto.
Qed.

Lemma take_idx_index_error {A} (a : list A) idx e :
  take_idx a idx = Raise e -> e = IndexError.
Proof.
  induction idx as [|i idx IH]; simpl; [discriminate|].
  unfold getitem at 1. destruct (norm_index (length a) i) as [n|]; simpl.
  - destruct (a !! n); simpl; [|intros [= <-]; reflexivity].
    destruct (take_idx a idx); simpl; [discriminate|].
    intros [= <-]. apply IH. reflexivity.
  - intros [= <-]. reflexivity.
Qed.

(** A scatter of the successors of the gathered values moves every entry
    up by one at most. *)
Lemma put_succ_step (a : list Z) idx : forall old b,
  take_idx a idx = Ok old ->
  length b = length a ->
  (forall n x, a !! n = Some x -> exists y, b !! n = Some y /\ x <= y <= x + 1) ->
  forall n x, a !! n = Some x ->
    exists y, put_idx b idx (map Z.succ old) !! n = Some y /\ x <= y <= x + 1.
Proof.
  induction idx as [|i idx IH]; simpl; intros old b Ht Hlen Hb.
  - injection Ht as <-. exact Hb.
  - destruct (getitem a i) as [v|] eqn:Ei; simpl in Ht; [|discriminate].
    destruct (take_idx a idx) as [old'|] eqn:Eo; simpl in Ht; [|discriminate].
    injection Ht as <-. simpl.
    apply getitem_inv in Ei as (m & Hm & Hv).
    apply (IH old' (setitem b i (Z.succ v)) eq_refl).
    + rewrite setitem_length. exact Hlen.
    + intros n x Hx. rewrite setitem_lookup, Hlen.
      case_bool_decide as Hn.
      * assert (m = n) by congruence. subst m.
        exists (Z.succ v). split; [reflexivity|]. rewrite Hv in Hx. injection Hx as <-. lia.
      * apply Hb. exact Hx.
Qed.

Lemma count_frame_step counts f counts' :
  count_frame counts f = Ok counts' ->
  forall n x, counts !! n = Some x ->
    exists y, counts' !! n = Some y /\ x <= y <= x + 1.
Proof.
  unfold count_frame. destruct (take_idx counts f) as [old|] eqn:E; simpl; [|discriminate].
  intros [= <-]. apply (put_succ_step counts f old counts E eq_refl).
  intros n x Hx. exists x. split; [exact Hx | lia].
Qed.

Lemma count_frames_step site_traj : forall counts counts',
  count_frames counts site_traj = Ok counts' ->
  forall n x, counts !! n = Some x ->
    exists y, counts' !! n = Some y /\ x <= y <= x + Z.of_nat (length site_traj).
Proof.
  induction site_traj as [|f rest IH]; simpl; intros counts counts' H n x Hx.
  - injection H as <-. exists x. split; [exact Hx | lia].
  - destruct (count_frame counts f) as [c1|] eqn:E; simpl in H; [|discriminate].
    destruct (count_frame_step _ _ _ E n x Hx) as (y & Hy & Hxy).
    destruct (IH c1 counts' H n y Hy) as (w & Hw & Hyw).
    exists w. split; [exact Hw | lia].
Qed.

(** X8: whenever the counter returns, every count lies between 0 and
    the number of sampled frames: a frame adds one to a site at most,
    however many entities it assigns to it. *)
Theorem occupancy_at_most_frames nsit (site_traj : list (list Z)) counts :
  occupancy nsit site_traj = Ok counts ->
  length counts = nsit
  /\ Forall (fun c => 0 <= c <= Z.of_nat (length site_traj)) counts.
Proof.
  intros H. split; [apply (occupancy_inv _ _ _ H)|].
  unfold occupancy in H.
  destruct (count_frames (replicate (nsit + 1) 0) site_traj) as [c|] eqn:E;
    simpl in H; [|discriminate].
  injection H as <-.
  apply Forall_lookup. intros n y Hy.
  assert (Hn : (n < length c - 1)%nat).
  { apply lookup_lt_Some in Hy. rewrite removelast_length in Hy. exact Hy. }
  rewrite removelast_lookup in Hy by exact Hn.
  pose proof (count_frames_inv _ _ _ E) as [Hlen _].
  rewrite length_replicate in Hlen.
  destruct (count_frames_step _ _ _ E n 0) as (y' & Hy' & Hb).
  { apply lookup_replicate. split; [reflexivity | lia]. }
  rewrite Hy in Hy'. injection Hy' as <-. lia.
Qed.

(** Two entities on site 0 in the first frame still count once. *)
Lemma occupancy_at_most_frames_witness :
  length [2; 1] = 2%nat
  /\ Forall (fun c => 0 <= c <= Z.of_nat (length [[0; 0; -1]; [1; 0]])) [2; 1].
Proof.
  apply (occupancy_at_most_frames 2 [[0; 0; -1]; [1; 0]] [2; 1]). reflexivity.
Defined.

(** ** The counter: the site ids it takes *)

Lemma count_frame_total counts f :
  Forall (fun i => - Z.of_nat (length counts) <= i < Z.of_nat (length counts)) f ->
  exists counts', count_frame counts f = Ok counts'.
Proof.
  intros H. apply take_idx_total in H as [old E].
  unfold count_frame. rewrite E. simpl. eauto.
Qed.

Lemma count_frames_range site_traj : forall counts,
  (Forall (Forall (fun i => - Z.of_nat (length counts) <= i < Z.of_nat (length counts)))
     site_traj ->
   exists counts', count_frames counts site_traj = Ok counts')
  /\ (~ Forall (Forall (fun i => - Z.of_nat (length counts) <= i < Z.of_nat (length counts)))
        site_traj ->
      count_frames counts site_traj = Raise IndexError).
Proof.
  induction site_traj as [|f rest IH]; intros counts; simpl.
  - split; [eauto|]. intros H. exfalso. apply H. constructor.
  - destruct (count_frame counts f) as [c1|e] eqn:E; simpl.
    + pose proof (count_frame_inv _ _ _ E) as [Hlen _].
      assert (Hf : Forall (fun i => - Z.of_nat (length counts) <= i < Z.of_nat (length counts)) f).
      { unfold count_frame in E.
        destruct (take_idx counts f) as [old|] eqn:Et; simpl in E; [|discriminate].
        eapply take_idx_in_range; eauto. }
      destruct (IH c1) as [IHok IHbad]. rewrite Hlen in IHok, IHbad.
      split.
      * intros H. apply Forall_cons in H as [_ H]. auto.
      * intros H. apply IHbad. intros Hrest. apply H. constructor; assumption.
    + assert (e = IndexError) as ->.
      { unfold count_frame in E.
        destruct (take_idx counts f) as [old|e'] eqn:Et; simpl in E; [discriminate|].
        injection E as <-. eapply take_idx_index_error; eauto. }
      split; [|reflexivity].
      intros H. apply Forall_cons in H as [H _].
      apply count_frame_total in H as [c' Hc']. congruence.
Qed.

(** X9: the counter takes exactly the site ids that index its
    [nsit + 1] slots, from [-(nsit + 1)] to [nsit]: it returns when every
    id of every sampled frame is one of them, and raises [IndexError]
    otherwise. *)
Theorem occupancy_index_error nsit (site_traj : list (list Z)) :
  let slots := (fun i => - Z.of_nat (nsit + 1) <= i < Z.of_nat (nsit + 1)) in
  (Forall (Forall slots) site_traj -> exists counts, occupancy nsit site_traj = Ok counts)
  /\ (~ Forall (Forall slots) site_traj -> occupancy nsit site_traj = Raise IndexError).
Proof.
  cbv zeta. unfold occupancy.
  destruct (count_frames_range site_traj (replicate (nsit + 1) 0)) as [Hok Hbad].
  rewrite length_replicate in Hok, Hbad. split.
  - intros H. destruct (Hok H) as [c ->]. simpl. eauto.
  - intros H. rewrite (Hbad H). reflexivity.
Qed.

(** ** The planner: what it takes from a site, and what it says *)

(** X10: the plan never asks a site for more samples than it has, and
    leaves fewer than [D] of them unused: with [n] output vectors and the
    divisor [a] planned for a site of occupancy [c], [n * a <= c < n * a + D].
    There is at least one output vector, the divisor is at most the
    candidate [D], and it is 0 only for a site that was never occupied. *)
Theorem plan_within_occupancy nsit site_traj counts D p (s : nat) c :
  occupancy nsit site_traj = Ok counts ->
  0 < D ->
  returns (plan counts D) p ->
  counts !! s = Some c ->
  exists n a,
    nr_of_descs p !! s = Some n /\ averagings p !! s = Some a
    /\ 1 <= n /\ 0 <= a <= D /\ (a = 0 <-> c = 0)
    /\ n * a <= c < n * a + D.
Proof.
  intros Hocc HD Hp Hc.
  pose proof (occupancy_inv _ _ _ Hocc) as [_ Hpos].
  assert (H0 : 0 <= c).
  { rewrite Forall_lookup in Hpos. exact (Hpos s c Hc). }
  destruct (plan_returns _ _ _ Hp) as (_ & Hnr & Hav).
  exists (planned_count D c), (planned_divisor D c).
  split; [rewrite Hnr, list_lookup_fmap, Hc; reflexivity|].
  split; [rewrite Hav, Hc; reflexivity|].
  split; [apply planned_count_pos|].
  destruct (Z.eq_dec (c `div` D) 0) as [E|E].
  - destruct (planned_insufficient D c HD H0 E) as [-> ->].
    apply Z.div_small_iff in E; [|lia].
    destruct E as [E|E]; [|lia].
    split; [lia|]. split; [tauto|]. lia.
  - destruct (planned_sufficient D c HD H0 E) as (-> & -> & Hq & Hle).
    pose proof (Z.mod_pos_bound c D HD) as Hm.
    pose proof (Z.div_mod c D ltac:(lia)) as Hdm.
    split; [lia|]. split; [|nia].
    split; [lia|]. intros ->. rewrite Z.div_0_l in E by lia. congruence.
Qed.

(** Seven occupied frames and a candidate of 3: two output vectors, one
    sample unused. *)
Lemma plan_within_occupancy_witness :
  exists n a,
    nr_of_descs (mkPlan [2] [3]) !! 0%nat = Some n
    /\ averagings (mkPlan [2] [3]) !! 0%nat = Some a
    /\ 1 <= n /\ 0 <= a <= 3 /\ (a = 0 <-> 7 = 0)
    /\ n * a <= 7 < n * a + 3.
Proof.
  apply (plan_within_occupancy 1 (replicate 7 [0]) [7] 3 (mkPlan [2] [3]) 0 7).
  - reflexivity.
  - lia.
  - reflexivity.
  - reflexivity.
Defined.

Lemma plan_log counts D :
  (plan counts D).1 =
  (let ins := map (fun n => n =? 0) (map (fun c => c `div` D) counts) in
   if existsb id ins
   then [WarningInsufficient D (length (filter (fun b => b = true) ins))
           (mask_select counts ins)]
   else [])
  ++ match counts with
     | [] => []
     | _ => let nr := map (fun n => Z.max n 1) (map (fun c => c `div` D) counts) in
            [DebugMinMax (np_min nr) (np_max nr)]
     end.
Proof.
  unfold plan. cbv zeta.
  set (nr0 := map (fun c => c `div` D) counts).
  set (ins := map (fun n => n =? 0) nr0).
  assert (Hnr : map (fun n => Z.max n 1) nr0 = [] <-> counts = []).
  { unfold nr0. destruct counts; simpl; split; intros; congruence. }
  destruct (existsb id ins); simpl;
    rewrite forallb_max_1; simpl;
    destruct (map (fun n => Z.max n 1) nr0) eqn:E.
  all: destruct counts; try reflexivity.
  all: try (exfalso; destruct Hnr as [H1 H2]; (discriminate (H1 eq_refl) || discriminate (H2 eq_refl))).
Qed.

Lemma div_zero_lt c D : 0 < D -> 0 <= c -> (c `div` D =? 0) = bool_decide (c < D).
Proof.
  intros HD Hc.
  destruct (Z.eqb_spec (c `div` D) 0) as [E|E]; case_bool_decide as Hlt;
    try reflexivity; exfalso.
  - apply Z.div_small_iff in E; lia.
  - apply E. apply Z.div_small. lia.
Qed.

Lemma insufficient_mask (counts : list Z) D :
  0 < D -> Forall (fun c => 0 <= c) counts ->
  let ins := map (fun n => n =? 0) (map (fun c => c `div` D) counts) in
  mask_select counts ins = filter (fun c => c < D) counts
  /\ length (filter (fun b => b = true) ins) = length (filter (fun c => c < D) counts)
  /\ existsb id ins = negb (bool_decide (filter (fun c => c < D) counts = [])).
Proof.
  intros HD. cbv zeta. induction 1 as [|c counts Hc _ (IH1 & IH2 & IH3)].
  - split; [reflexivity|]. split; reflexivity.
  - cbn [map mask_select existsb].
    rewrite !filter_cons.
    rewrite (div_zero_lt c D HD Hc).
    destruct (decide (c < D)) as [Hlt|Hlt].
    + rewrite (bool_decide_eq_true_2 (c < D) Hlt).
      rewrite decide_True by reflexivity.
      rewrite IH1. simpl. rewrite IH2. split; [reflexivity|]. split; reflexivity.
    + rewrite (bool_decide_eq_false_2 (c < D) Hlt).
      rewrite decide_False by discriminate.
      rewrite IH1, IH2. split; [reflexivity|]. split; [reflexivity|]. exact IH3.
Qed.

(** X11: the planner warns of insufficient occupancy exactly when some
    site has fewer occupied frames than the divisor candidate [D]; the
    warning then carries [D], the number of such sites and their
    occupancies, in site order. *)
Theorem insufficient_warning_logged (counts : list Z) D a n occ :
  0 < D -> Forall (fun c => 0 <= c) counts ->
  WarningInsufficient a n occ ∈ (plan counts D).1
  <-> filter (fun c => c < D) counts <> []
      /\ a = D
      /\ n = length (filter (fun c => c < D) counts)
      /\ occ = filter (fun c => c < D) counts.
Proof.
  intros HD Hpos.
  destruct (insufficient_mask counts D HD Hpos) as (Hsel & Hlen & Hany).
  cbv zeta in Hsel, Hlen, Hany.
  rewrite plan_log. cbv zeta. rewrite Hsel, Hlen, Hany.
  clear Hsel Hlen Hany.
  set (low := filter (fun c => c < D) counts).
  case_bool_decide as Hlow; simpl.
  - split.
    + intros H. exfalso. destruct counts; [apply elem_of_nil in H; exact H|].
      apply list_elem_of_singleton in H. discriminate.
    + intros [H _]. contradiction.
  - split.
    + intros H. apply elem_of_cons in H as [H|H].
      * injection H as -> -> ->. auto.
      * exfalso. destruct counts; [apply elem_of_nil in H; exact H|].
        apply list_elem_of_singleton in H. discriminate.
    + intros (_ & -> & -> & ->). left.
Qed.

(** A candidate of 3 and occupancies 7, 2, 0: the second and the third
    site are reported. *)
Lemma insufficient_warning_logged_witness :
  WarningInsufficient 3 2 [2; 0] ∈ (plan [7; 2; 0] 3).1
  <-> filter (fun c => c < 3) [7; 2; 0] <> []
      /\ 3 = 3
      /\ 2%nat = length (filter (fun c => c < 3) [7; 2; 0])
      /\ [2; 0] = filter (fun c => c < 3) [7; 2; 0].
Proof.
  apply (insufficient_warning_logged [7; 2; 0] 3 3 2%nat [2; 0]).
  - lia.
  - repeat constructor; lia.
Defined.

(** ** Target mode: how many rows *)

Lemma planned_count_sum (counts : list Z) D :
  0 < D -> Forall (fun c => 0 <= c) counts ->
  np_sum counts - Z.of_nat (length counts) * (D - 1)
  <= D * np_sum (map (planned_count D) counts).
Proof.
  intros HD. induction 1 as [|c counts Hc _ IH]; simpl; [lia|].
  unfold planned_count at 1.
  pose proof (Z.mod_pos_bound c D HD) as Hm.
  pose proof (Z.div_mod c D ltac:(lia)) as Hdm.
  unfold np_sum in *. nia.
Qed.

(** X12: in target mode with [T] output vectors wanted per site, when
    the mean occupancy is at least [T] (so that the divisor candidate is
    not clamped), the plan holds more than [nsit * (T - 1)] output vectors
    in all: on average more than [T - 1] per site. *)
Theorem target_mode_rows_lower_bound nsit site_traj counts stepsize T D p :
  occupancy nsit site_traj = Ok counts ->
  (0 < nsit)%nat -> 0 < T ->
  Z.of_nat nsit * T <= np_sum counts ->
  returns (resolve_averaging (mkSOAPDescriptorAverages stepsize None (Some T)) counts) D ->
  returns (plan counts D) p ->
  D = np_sum counts `div` (Z.of_nat nsit * T)
  /\ Z.of_nat nsit * (T - 1) < np_sum (nr_of_descs p).
Proof.
  intros Hocc Hn HT Hmean HD Hp.
  pose proof (occupancy_inv _ _ _ Hocc) as [Hlen Hpos].
  assert (Hne : counts <> []) by (intros ->; simpl in Hlen; lia).
  set (d := np_sum counts `div` (Z.of_nat nsit * T)).
  assert (Hd1 : 1 <= d).
  { unfold d. apply Z.div_le_lower_bound; nia. }
  assert (HDd : D = d).
  { unfold returns, resolve_averaging in HD. cbn [_averaging _avg_desc_per_site] in HD.
    destruct (Z_lt_le_dec T float_limit) as [Hlim|Hlim];
      [|rewrite (derived_averaging_overflow counts T Hlim) in HD; discriminate].
    rewrite (derived_averaging_spec counts T Hne HT Hlim), Hlen in HD.
    fold d in HD. simpl in HD.
    destruct (Z.eqb_spec d 0) as [E|E]; [lia|].
    simpl in HD. injection HD as <-. reflexivity. }
  split; [exact HDd|].
  destruct (plan_returns _ _ _ Hp) as (_ & Hnr & _). rewrite Hnr.
  pose proof (planned_count_sum counts D ltac:(lia) Hpos) as Hsum.
  rewrite Hlen in Hsum.
  assert (Hdle : d * (Z.of_nat nsit * T) <= np_sum counts).
  { unfold d. rewrite Z.mul_comm. apply Z.mul_div_le. nia. }
  subst D. nia.
Qed.

(** Two sites occupied in 7 and 5 frames, 2 output vectors wanted per
    site: the candidate is 3, and there are 3 output vectors. *)
Lemma target_mode_rows_lower_bound_witness :
  3 = np_sum [7; 5] `div` (Z.of_nat 2 * 2)
  /\ Z.of_nat 2 * (2 - 1) < np_sum (nr_of_descs (mkPlan [2; 1] [3; 3])).
Proof.
  apply (target_mode_rows_lower_bound 2
           (replicate 5 [0; 1] ++ replicate 2 [0]) [7; 5] 1 2 3 (mkPlan [2; 1] [3; 3])).
  - reflexivity.
  - lia.
  - lia.
  - simpl. lia.
  - reflexivity.
  - reflexivity.
Defined.

(** ** The whole run on well-formed input *)

Lemma planned_divisor_pos D c : 0 < D -> 0 < c -> 0 < planned_divisor D c.
Proof. intros HD Hc. unfold planned_divisor. destruct (c `div` D =? 0); lia. Qed.

(** X13: on well-formed input the run returns: for a valid
    configuration of machine size (window or target below [2^63]), at
    least one site and a non-empty sampled trajectory
    whose frames assign valid sites and carry vectors of the engine's
    width, no index is out of range, the closing assertion holds, and no
    raw vector is divided by zero. The result has
    [max(counts[s] // D, 1)] rows for each site [s], [D] being the
    divisor candidate. *)
Theorem valid_run_returns self nsit n_dim traj frames :
  valid_configuration self ->
  machine_sized self ->
  slice_step (_stepsize self) traj = Ok frames ->
  frames <> [] -> (0 < nsit)%nat ->
  Forall (valid_frame nsit n_dim) frames ->
  exists counts D p (descs0 : list vec) (labels : list Z),
    occupancy nsit (map (fun f : frame => f.*1) frames) = Ok counts
    /\ returns (resolve_averaging self counts) D
    /\ returns (planning self nsit traj) (frames, p)
    /\ returns (_get_descriptors self nsit n_dim traj) (descs0, labels)
    /\ Z.of_nat (length descs0) = np_sum (map (fun c => Z.max (c `div` D) 1) counts)
    /\ Forall (fun d => d <> 0)
         (divisors_used (averagings p) (max_index (nr_of_descs p))
            (initial_state nsit n_dim (nr_of_descs p)) frames).
Proof.
  intros Hcfg Hms Hslice Hne Hnsit Hv.
  destruct (run_valid self nsit n_dim traj frames Hcfg Hms Hslice Hne Hnsit Hv)
    as (counts & D & p & st & Hocc & HD & HDpos & Hp & Hnr & Hav & Hsam & Href & Hret & Hdiv).
  exists counts, D, p, (descs st), (labels_of nsit p).
  do 4 (split; [assumption|]). split; [|exact Hdiv].
  destruct Href as (Hlen & _). rewrite Hlen, Hnr.
  rewrite Z2Nat.id; [reflexivity|].
  apply np_sum_nonneg. apply Forall_fmap, Forall_forall. intros c _.
  pose proof (planned_count_pos D c). simpl. lia.
Qed.

Lemma valid_run_returns_witness :
  exists counts D p (descs0 : list vec) (labels : list Z),
    occupancy 1 (map (fun f : frame => f.*1) example_traj_five) = Ok counts
    /\ returns (resolve_averaging (example_window 2) counts) D
    /\ returns (planning (example_window 2) 1 example_traj_five) (example_traj_five, p)
    /\ returns (_get_descriptors (example_window 2) 1 1 example_traj_five) (descs0, labels)
    /\ Z.of_nat (length descs0) = np_sum (map (fun c => Z.max (c `div` D) 1) counts)
    /\ Forall (fun d => d <> 0)
         (divisors_used (averagings p) (max_index (nr_of_descs p))
            (initial_state 1 1 (nr_of_descs p)) example_traj_five).
Proof.
  apply (valid_run_returns (example_window 2) 1 1 example_traj_five example_traj_five).
  - split; [simpl; lia|]. left. exists 2. simpl. repeat split; lia.
  - split; [simpl; lia | exact I].
  - reflexivity.
  - discriminate.
  - lia.
  - repeat constructor; unfold valid_site, SITE_UNKNOWN; simpl; lia.
Defined.

(** X14: a network without sites has no result: whatever the
    configuration and the trajectory, the run raises. *)
Theorem no_sites_raises self n_dim traj :
  raises (_get_descriptors self 0 n_dim traj).2.
Proof.
  destruct (_get_descriptors self 0 n_dim traj).2 as [[d l]|e] eqn:E;
    [|eexists; reflexivity].
  exfalso.
  destruct (get_descriptors_returns self 0 n_dim traj d l E)
    as (frames & p & st & Hp & _).
  destruct (planning_shape _ _ _ _ _ Hp) as (counts & D & _ & _ & Hlen & _).
  destruct (planning_returns _ _ _ _ _ Hp) as (counts' & D' & _ & Hocc & _ & Hplan).
  apply plan_returns in Hplan as (Hne & _).
  apply occupancy_inv in Hocc as [Hlen' _].
  destruct counts'; [congruence | discriminate].
Qed.

Lemma occupancy_nil nsit : occupancy nsit [] = Ok (replicate nsit 0).
Proof.
  unfold occupancy. simpl. f_equal.
  replace (nsit + 1)%nat with (S nsit) by lia.
  rewrite replicate_S_end. apply removelast_last.
Qed.

(** X15: an empty trajectory is refused loudly: for a valid
    configuration of machine size and at least one site the run over no
    frames raises
    [AssertionError], the closing check finding every site still open. *)
Theorem empty_trajectory_assertion self nsit n_dim :
  valid_configuration self -> machine_sized self -> (0 < nsit)%nat ->
  (_get_descriptors self nsit n_dim []).2 = Raise AssertionError.
Proof.
  intros Hcfg Hms Hnsit.
  assert (Hslice : slice_step (_stepsize self) ([] : list frame) = Ok []).
  { destruct Hcfg as [Hs _]. unfold slice_step.
    destruct (Z.eqb_spec (_stepsize self) 0); [lia|].
    destruct (Z.ltb_spec 0 (_stepsize self)); [reflexivity | lia]. }
  pose proof (occupancy_nil nsit) as Hocc.
  assert (Hne : replicate nsit 0 <> []) by (destruct nsit; [lia | discriminate]).
  destruct (resolve_averaging_total self _ Hcfg Hms Hne) as [D HD].
  destruct (plan_total (replicate nsit 0) D Hne) as [p Hp].
  pose proof (planning_complete self nsit [] [] _ D p Hslice Hocc HD Hp) as Hplan.
  rewrite (get_descriptors_result self nsit n_dim [] [] p Hplan).
  unfold accumulation. simpl.
  destruct nsit; [lia | reflexivity].
Qed.

Lemma empty_trajectory_assertion_witness :
  (_get_descriptors (example_window 2) 3 4 []).2 = Raise AssertionError.
Proof.
  apply (empty_trajectory_assertion (example_window 2) 3 4).
  - split; [simpl; lia|]. left. exists 2. simpl. repeat split; lia.
  - split; [simpl; lia | exact I].
  - lia.
Defined.

(** ** The rows of an occupied site *)

(** Every occupied site: its planned rows are the window means of its
    samples, the window being the planned divisor. *)
Lemma occupied_site_rows self nsit n_dim traj frames counts D (s : nat) c :
  valid_configuration self ->
  slice_step (_stepsize self) traj = Ok frames ->
  Forall (valid_frame nsit n_dim) frames ->
  occupancy nsit (map (fun f : frame => f.*1) frames) = Ok counts ->
  returns (resolve_averaging self counts) D ->
  counts !! s = Some c -> 0 < c ->
  exists (descs0 : list vec) (labels : list Z) p,
    returns (_get_descriptors self nsit n_dim traj) (descs0, labels)
    /\ returns (planning self nsit traj) (frames, p)
    /\ 0 < D
    /\ nr_of_descs p !! s = Some (planned_count D c)
    /\ averagings p !! s = Some (planned_divisor D c)
    /\ length (filter (fun l => l = Z.of_nat s) labels) = Z.to_nat (planned_count D c)
    /\ Z.of_nat (length (samples (Z.of_nat s) frames)) = c
    /\ forall k, (k < Z.to_nat (planned_count D c))%nat ->
         exists row,
           labels !! (base (nr_of_descs p) s + k)%nat = Some (Z.of_nat s)
           /\ descs0 !! (base (nr_of_descs p) s + k)%nat = Some row
           /\ vec_equiv row
                (window_mean n_dim (Z.to_nat (planned_divisor D c)) k
                   (samples (Z.of_nat s) frames)).
Proof.
  intros Hcfg Hslice Hv Hocc HD Hc Hcpos.
  pose proof (occupancy_inv _ _ _ Hocc) as [Hlen Hpos].
  assert (Hs : (s < nsit)%nat) by (rewrite <- Hlen; eapply lookup_lt_Some; eauto).
  pose proof (resolve_averaging_positive self counts D Hcfg Hpos HD) as HDpos.
  assert (Hne : frames <> []).
  { intros ->. simpl in Hocc. rewrite occupancy_nil in Hocc. injection Hocc as <-.
    apply lookup_replicate in Hc as [Hc _]. lia. }
  destruct (run_valid_at self nsit n_dim traj frames counts D
              Hcfg Hslice Hne ltac:(lia) Hv Hocc HD)
    as (p & st & _ & Hp & Hnr & Hav & Hsam & Href & Hret & _).
  pose proof (planned_count_pos D c) as Hpc.
  pose proof (planned_divisor_pos D c HDpos Hcpos) as Hpd.
  assert (Hn : nr_of_descs p !! s = Some (planned_count D c)).
  { rewrite Hnr, list_lookup_fmap, Hc. reflexivity. }
  assert (Ha : averagings p !! s = Some (planned_divisor D c)).
  { rewrite Hav, list_lookup_fmap, Hc. reflexivity. }
  assert (Hnrl : length (nr_of_descs p) = nsit) by (rewrite Hnr, length_fmap; exact Hlen).
  assert (Hnr1 : Forall (fun n => 1 <= n) (nr_of_descs p)).
  { rewrite Hnr. apply Forall_fmap, Forall_forall. intros x _. apply planned_count_pos. }
  exists (descs st), (labels_of nsit p), p.
  do 5 (split; [assumption|]).
  split; [apply (labels_of_site nsit p s 0 _ Hnrl Hnr1 Hn)|].
  split.
  { specialize (Hsam s Hs). rewrite Hc in Hsam. injection Hsam as E. lia. }
  intros k Hk.
  destruct Href as (_ & _ & _ & _ & Hsite).
  destruct (Hsite s Hs) as (_ & _ & _ & _ & Hrows & _).
  assert (Hquota : quota (nr_of_descs p) s = Z.to_nat (planned_count D c))
    by (unfold quota; rewrite Hn; reflexivity).
  assert (Hdivisor : divisor (averagings p) s = Z.to_nat (planned_divisor D c))
    by (unfold divisor; rewrite Ha; reflexivity).
  eexists. split; [apply (labels_of_site nsit p s k _ Hnrl Hnr1 Hn), Hk|].
  split.
  - rewrite Hrows by lia. rewrite Hquota, Hdivisor.
    rewrite site_run_rows by lia. rewrite omap_id_fmap. reflexivity.
  - unfold window_mean. apply wsum_mean. lia.
Qed.

(** X16: for a divisor candidate of machine size, [D < 2^63], a site
    occupied in fewer sampled frames than the candidate, [0 < c < D], gets
    one output row, and this row is the mean of all its [c] samples: their
    sum divided by [c], not by [D]. *)
Theorem insufficient_site_mean self nsit n_dim traj frames counts D (s : nat) c :
  valid_configuration self ->
  slice_step (_stepsize self) traj = Ok frames ->
  Forall (valid_frame nsit n_dim) frames ->
  occupancy nsit (map (fun f : frame => f.*1) frames) = Ok counts ->
  returns (resolve_averaging self counts) D ->
  counts !! s = Some c ->
  0 < c < D ->
  D < 2 ^ 63 ->
  exists (descs0 : list vec) (labels : list Z) p,
    returns (_get_descriptors self nsit n_dim traj) (descs0, labels)
    /\ returns (planning self nsit traj) (frames, p)
    /\ nr_of_descs p !! s = Some 1
    /\ averagings p !! s = Some c
    /\ length (filter (fun l => l = Z.of_nat s) labels) = 1%nat
    /\ Z.of_nat (length (samples (Z.of_nat s) frames)) = c
    /\ exists row,
         labels !! base (nr_of_descs p) s = Some (Z.of_nat s)
         /\ descs0 !! base (nr_of_descs p) s = Some row
         /\ vec_equiv row (vdiv (vsum n_dim (samples (Z.of_nat s) frames)) c).
Proof.
  intros Hcfg Hslice Hv Hocc HD Hc Hrange _.
  destruct (occupied_site_rows self nsit n_dim traj frames counts D s c
              Hcfg Hslice Hv Hocc HD Hc ltac:(lia))
    as (descs0 & labels & p & Hret & Hp & HDpos & Hn & Ha & Hlab & Hsam & Hrows).
  destruct (planned_insufficient D c HDpos ltac:(lia) ltac:(apply Z.div_small; lia))
    as [Epc Epd].
  rewrite Epc, Epd in *.
  exists descs0, labels, p.
  do 4 (split; [assumption|]). split; [exact Hlab|]. split; [exact Hsam|].
  destruct (Hrows 0%nat ltac:(lia)) as (row & Hl & Hd & Heq).
  rewrite Nat.add_0_r in Hl, Hd.
  exists row. split; [exact Hl|]. split; [exact Hd|].
  unfold window_mean in Heq. rewrite Nat.mul_0_l, drop_0 in Heq.
  rewrite take_ge in Heq by lia.
  rewrite Z2Nat.id in Heq by lia. exact Heq.
Qed.

(** One site, two occupied frames with the samples 1 and 3, a window of
    5: one row, the mean 2. *)
Lemma insufficient_site_mean_witness :
  exists (descs0 : list vec) (labels : list Z) p,
    returns (_get_descriptors (example_window 5) 2 1 example_traj_idle) (descs0, labels)
    /\ returns (planning (example_window 5) 2 example_traj_idle) (example_traj_idle, p)
    /\ nr_of_descs p !! 0%nat = Some 1
    /\ averagings p !! 0%nat = Some 2
    /\ length (filter (fun l => l = Z.of_nat 0) labels) = 1%nat
    /\ Z.of_nat (length (samples (Z.of_nat 0) example_traj_idle)) = 2
    /\ exists row,
         labels !! base (nr_of_descs p) 0 = Some (Z.of_nat 0)
         /\ descs0 !! base (nr_of_descs p) 0 = Some row
         /\ vec_equiv row (vdiv (vsum 1 (samples (Z.of_nat 0) example_traj_idle)) 2).
Proof.
  apply (insufficient_site_mean (example_window 5) 2 1 example_traj_idle
           example_traj_idle [2; 0] 5 0 2).
  - split; [simpl; lia|]. left. exists 5. simpl. repeat split; lia.
  - reflexivity.
  - repeat constructor; unfold valid_site, SITE_UNKNOWN; simpl; lia.
  - reflexivity.
  - reflexivity.
  - reflexivity.
  - lia.
  - lia.
Defined.

(** X17: a site whose occupancy is an exact multiple of the divisor
    candidate, [c = q * D] with [q >= 1], gets [q] output rows, row [k]
    being the mean of its samples [k * D .. k * D + D - 1]; the [q]
    windows hold all of its samples, none is left out. *)
Theorem exact_multiple_all_used self nsit n_dim traj frames counts D (s : nat) q :
  valid_configuration self ->
  slice_step (_stepsize self) traj = Ok frames ->
  Forall (valid_frame nsit n_dim) frames ->
  occupancy nsit (map (fun f : frame => f.*1) frames) = Ok counts ->
  returns (resolve_averaging self counts) D ->
  counts !! s = Some (q * D) ->
  1 <= q ->
  exists (descs0 : list vec) (labels : list Z) p,
    returns (_get_descriptors self nsit n_dim traj) (descs0, labels)
    /\ returns (planning self nsit traj) (frames, p)
    /\ nr_of_descs p !! s = Some q
    /\ averagings p !! s = Some D
    /\ length (filter (fun l => l = Z.of_nat s) labels) = Z.to_nat q
    /\ length (samples (Z.of_nat s) frames) = (Z.to_nat q * Z.to_nat D)%nat
    /\ forall k, (k < Z.to_nat q)%nat ->
         exists row,
           labels !! (base (nr_of_descs p) s + k)%nat = Some (Z.of_nat s)
           /\ descs0 !! (base (nr_of_descs p) s + k)%nat = Some row
           /\ vec_equiv row
                (window_mean n_dim (Z.to_nat D) k (samples (Z.of_nat s) frames)).
Proof.
  intros Hcfg Hslice Hv Hocc HD Hc Hq.
  pose proof (occupancy_inv _ _ _ Hocc) as [_ Hpos].
  pose proof (resolve_averaging_positive self counts D Hcfg Hpos HD) as HDpos.
  destruct (occupied_site_rows self nsit n_dim traj frames counts D s (q * D)
              Hcfg Hslice Hv Hocc HD Hc ltac:(nia))
    as (descs0 & labels & p & Hret & Hp & _ & Hn & Ha & Hlab & Hsam & Hrows).
  assert (Hdiv : (q * D) `div` D = q) by (apply Z.div_mul; lia).
  destruct (planned_sufficient D (q * D) HDpos ltac:(nia) ltac:(lia))
    as (Epc & Epd & _).
  rewrite Hdiv in Epc. rewrite Epc, Epd in *.
  exists descs0, labels, p.
  do 4 (split; [assumption|]). split; [exact Hlab|]. split; [nia|].
  exact Hrows.
Qed.

(** A window of 2 and four samples 1, 3, 5, 7: the rows 2 and 6. *)
Lemma exact_multiple_all_used_witness :
  exists (descs0 : list vec) (labels : list Z) p,
    returns (_get_descriptors (example_window 2) 1 1 (take 6 example_traj_five))
      (descs0, labels)
    /\ returns (planning (example_window 2) 1 (take 6 example_traj_five))
         (take 6 example_traj_five, p)
    /\ nr_of_descs p !! 0%nat = Some 2
    /\ averagings p !! 0%nat = Some 2
    /\ length (filter (fun l => l = Z.of_nat 0) labels) = Z.to_nat 2
    /\ length (samples (Z.of_nat 0) (take 6 example_traj_five))
       = (Z.to_nat 2 * Z.to_nat 2)%nat
    /\ forall k, (k < Z.to_nat 2)%nat ->
         exists row,
           labels !! (base (nr_of_descs p) 0 + k)%nat = Some (Z.of_nat 0)
           /\ descs0 !! (base (nr_of_descs p) 0 + k)%nat = Some row
           /\ vec_equiv row
                (window_mean 1 (Z.to_nat 2) k
                   (samples (Z.of_nat 0) (take 6 example_traj_five))).
Proof.
  apply (exact_multiple_all_used (example_window 2) 1 1 (take 6 example_traj_five)
           (take 6 example_traj_five) [4] 2 0 2).
  - split; [simpl; lia|]. left. exists 2. simpl. repeat split; lia.
  - reflexivity.
  - repeat constructor; unfold valid_site, SITE_UNKNOWN; simpl; lia.
  - reflexivity.
  - reflexivity.
  - reflexivity.
  - lia.
Defined.

(** ** What every returned result tells of its input *)

Lemma frame_step_ids avgs mx st (f : frame) st' :
  frame_step avgs mx st f = Ok st' ->
  Forall (fun p : Z * vec => indexable (length (allowed st)) p.1) f.
Proof.
  unfold frame_step, to_describe. intros H.
  destruct (take_idx (allowed st) f.*1) as [open|] eqn:E; simpl in H; [|discriminate].
  apply take_idx_in_range in E. apply Forall_fmap in E.
  eapply Forall_impl; [exact E|]. intros p Hp. exact Hp.
Qed.

Lemma accumulate_ids nsit avgs mx N (frames : list frame) : forall st st',
  length avgs = nsit -> length mx = nsit ->
  pass_inv nsit mx N st ->
  accumulate avgs mx st frames = Ok st' ->
  Forall (Forall (fun p : Z * vec => indexable nsit p.1)) frames.
Proof.
  induction frames as [|f rest IH]; simpl; intros st st' Ha Hm Hinv H; [constructor|].
  destruct (frame_step avgs mx st f) as [st1|] eqn:E; simpl in H; [|discriminate].
  constructor.
  - pose proof (frame_step_ids _ _ _ _ _ E) as Hf.
    destruct Hinv as (_ & _ & _ & Hal & _). rewrite Hal in Hf. exact Hf.
  - eapply (IH st1 st' Ha Hm); [|exact H].
    exact (frame_step_pass_inv nsit avgs mx Ha Hm N st f st1 Hinv E).
Qed.

(** X18: a result is returned only for a trajectory whose sampled
    frames hold site ids that index the [nsit] sites, ids from [-nsit] to
    [nsit - 1]: a frame with any other id makes the run raise. *)
Theorem returned_run_ids_indexable self nsit n_dim traj frames
  (descs0 : list vec) (labels : list Z) :
  returns (_get_descriptors self nsit n_dim traj) (descs0, labels) ->
  slice_step (_stepsize self) traj = Ok frames ->
  Forall (Forall (fun p : Z * vec => indexable nsit p.1)) frames.
Proof.
  intros Hret Hslice.
  destruct (get_descriptors_returns _ _ _ _ _ _ Hret)
    as (frames' & p & st & Hp & Hacc & _).
  destruct (planning_returns _ _ _ _ _ Hp) as (c0 & D0 & Hslice' & _).
  rewrite Hslice in Hslice'. injection Hslice' as <-.
  destruct (planning_shape _ _ _ _ _ Hp) as (counts & D & _ & _ & Hlen & _ & Hnr & Hav).
  unfold accumulation in Hacc.
  eapply (accumulate_ids nsit (averagings p) (max_index (nr_of_descs p)));
    [| |apply (initial_pass_inv nsit n_dim)|exact Hacc].
  - rewrite Hav, length_fmap. exact Hlen.
  - rewrite max_index_length, Hnr, length_fmap. exact Hlen.
  - rewrite Hnr, length_fmap. exact Hlen.
Qed.

Lemma returned_run_ids_indexable_witness :
  Forall (Forall (fun p : Z * vec => indexable 2 p.1)) example_traj_idle.
Proof.
  apply (returned_run_ids_indexable (example_window 1) 2 1 example_traj_idle
           example_traj_idle [[Fin 1]; [Fin 3]; [Fin 0]] [0; 0; 1]).
  - reflexivity.
  - reflexivity.
Defined.

(** ** The shape of the descriptor array *)

Lemma row_add_length r v x : row_add r v = Ok x -> length x = length r.
Proof.
  unfold row_add. case_bool_decide as E.
  - intros [= <-]. rewrite length_zip_with. lia.
  - destruct v as [|y [|z v]]; try discriminate.
    intros [= <-]. apply length_fmap.
Qed.

Lemma rows_add_width n rows : forall soaps xs,
  rows_add rows soaps = Ok xs ->
  Forall (fun r : vec => length r = n) rows ->
  Forall (fun r : vec => length r = n) xs.
Proof.
  induction rows as [|r rows IH]; simpl; intros soaps xs H Hw.
  - injection H as <-. constructor.
  - destruct soaps as [|v soaps]; [injection H as <-; constructor|].
    destruct (row_add r v) as [x|] eqn:Ex; simpl in H; [|discriminate].
    destruct (rows_add rows soaps) as [xs'|] eqn:Exs; simpl in H; [|discriminate].
    injection H as <-. apply Forall_cons in Hw as [Hr Hrows].
    constructor.
    + apply row_add_length in Ex. congruence.
    + eapply IH; eauto.
Qed.

Lemma describe_width n avgs st sel st' :
  describe avgs st sel = Ok st' ->
  Forall (fun r : vec => length r = n) (descs st) ->
  Forall (fun r : vec => length r = n) (descs st').
Proof.
  unfold describe. intros H Hw.
  destruct (take_idx avgs sel.*1) as [divisors|]; simpl in H; [|discriminate].
  destruct (take_idx (desc_index st) sel.*1) as [idx|]; simpl in H; [|discriminate].
  destruct (take_idx (descs st) idx) as [rows|] eqn:Er; simpl in H; [|discriminate].
  destruct (rows_add rows (zip_with vdiv sel.*2 divisors)) as [rows'|] eqn:Ea;
    simpl in H; [|discriminate].
  destruct (take_idx (count_of_site st) sel.*1) as [seen|]; simpl in H; [|discriminate].
  injection H as <-. cbn [descs].
  apply put_idx_Forall; [exact Hw|].
  eapply rows_add_width; [exact Ea|].
  eapply take_idx_Forall; eauto.
Qed.

Lemma frame_step_width n avgs mx st (f : frame) st' :
  frame_step avgs mx st f = Ok st' ->
  Forall (fun r : vec => length r = n) (descs st) ->
  Forall (fun r : vec => length r = n) (descs st').
Proof.
  unfold frame_step. intros H Hw.
  destruct (to_describe st f) as [td|]; simpl in H; [|discriminate].
  destruct (existsb id td).
  - destruct (describe avgs st (mask_select f td)) as [st1|] eqn:E; simpl in H; [|discriminate].
    injection H as <-. cbn [advance descs]. eapply describe_width; eauto.
  - simpl in H. injection H as <-. exact Hw.
Qed.

Lemma accumulate_width n avgs mx (frames : list frame) : forall st st',
  accumulate avgs mx st frames = Ok st' ->
  Forall (fun r : vec => length r = n) (descs st) ->
  Forall (fun r : vec => length r = n) (descs st').
Proof.
  induction frames as [|f rest IH]; simpl; intros st st' H Hw.
  - injection H as <-. exact Hw.
  - destruct (frame_step avgs mx st f) as [st1|] eqn:E; simpl in H; [|discriminate].
    eapply IH; [exact H|]. eapply frame_step_width; eauto.
Qed.

(** X19: every row of a returned descriptor array has the width of the
    engine, [n_dim], whatever the trajectory holds: raw vectors of
    another width either broadcast (width 1) or make the run raise. *)
Theorem rows_have_engine_width self nsit n_dim traj
  (descs0 : list vec) (labels : list Z) :
  returns (_get_descriptors self nsit n_dim traj) (descs0, labels) ->
  Forall (fun row : vec => length row = n_dim) descs0.
Proof.
  intros Hret.
  destruct (get_descriptors_returns _ _ _ _ _ _ Hret)
    as (frames & p & st & _ & Hacc & _ & -> & _).
  unfold accumulation in Hacc.
  eapply accumulate_width; [exact Hacc|].
  cbn [initial_state descs]. apply Forall_replicate.
  unfold vzero. apply length_replicate.
Qed.

Lemma rows_have_engine_width_witness :
  Forall (fun row : vec => length row = 1%nat) [[Fin 1]; [Fin 3]; [Fin 0]].
Proof.
  apply (rows_have_engine_width (example_window 1) 2 1 example_traj_idle
           [[Fin 1]; [Fin 3]; [Fin 0]] [0; 0; 1]).
  reflexivity.
Defined.

(** ** Entities without a site *)

Lemma every_from_fmap {A B} (g : A -> B) (k : nat) (l : list A) : forall skip,
  every_from k skip (map g l) = map g (every_from k skip l).
Proof.
  induction l as [|x l IH]; intros skip; simpl; [reflexivity|].
  destruct skip; simpl; rewrite IH; reflexivity.
Qed.

Lemma slice_step_fmap {A B} (g : A -> B) (k : Z) (l sampled : list A) :
  slice_step k l = Ok sampled -> slice_step k (map g l) = Ok (map g sampled).
Proof.
  unfold slice_step. destruct (k =? 0); [discriminate|].
  destruct (0 <? k); intros [= <-]; f_equal.
  - apply every_from_fmap.
  - change (map g l) with (g <$> l). rewrite <- fmap_reverse. apply every_from_fmap.
Qed.

Lemma slice_step_nil_inv {A} (k : Z) (l : list A) :
  0 < k -> slice_step k l = Ok [] -> l = [].
Proof.
  intros Hk. unfold slice_step.
  destruct (Z.eqb_spec k 0); [lia|]. destruct (Z.ltb_spec 0 k); [|lia].
  destruct l; [reflexivity|]. simpl. discriminate.
Qed.

Lemma selects_known st (f : frame) :
  List.filter (selects st) (List.filter known f) = List.filter (selects st) f.
Proof.
  induction f as [|p f IH]; simpl; [reflexivity|].
  unfold selects at 2, known at 1.
  destruct (negb (p.1 =? SITE_UNKNOWN)) eqn:E; simpl.
  - unfold selects at 1. rewrite E. simpl. rewrite IH. reflexivity.
  - exact IH.
Qed.

Lemma known_valid nsit n_dim (f : frame) :
  valid_frame nsit n_dim f -> valid_frame nsit n_dim (List.filter known f).
Proof.
  unfold valid_frame. intros H.
  eapply Forall_impl; [apply (filter_Forall _ known _ H)|].
  intros p [Hp _]. exact Hp.
Qed.

Lemma samples_known (s : nat) (frames : list frame) :
  samples (Z.of_nat s) (map (List.filter known) frames) = samples (Z.of_nat s) frames.
Proof.
  unfold samples. induction frames as [|f rest IH]; [reflexivity|].
  simpl. unfold omap in IH. rewrite IH.
  change (List.filter known f)
    with (List.filter (fun p : Z * vec => (fun i => negb (i =? SITE_UNKNOWN)) p.1) f).
  rewrite last_hit_filter.
  destruct (Z.eqb_spec (Z.of_nat s) SITE_UNKNOWN) as [E|E];
    [unfold SITE_UNKNOWN in E; lia | reflexivity].
Qed.

Lemma accumulate_known nsit (nr avgs : list Z) N (frames : list frame) : forall st,
  (0 < nsit)%nat -> length nr = nsit -> length avgs = nsit ->
  pass_inv nsit (max_index nr) N st ->
  Forall (Forall (fun p : Z * vec => valid_site nsit p.1)) frames ->
  accumulate avgs (max_index nr) st (map (List.filter known) frames)
  = accumulate avgs (max_index nr) st frames.
Proof.
  induction frames as [|f rest IH]; intros st Hn Hnr Ha Hinv Hv; [reflexivity|].
  apply Forall_cons in Hv as [Hf Hrest].
  assert (Hal : length (allowed st) = nsit) by (destruct Hinv as (_ & _ & _ & H & _); exact H).
  assert (Hf' : Forall (fun p : Z * vec => valid_site nsit p.1) (List.filter known f)).
  { eapply Forall_impl; [apply (filter_Forall _ known _ Hf)|]. intros p [Hp _]. exact Hp. }
  cbn [map accumulate].
  rewrite (frame_step_selected nsit nr avgs Hn Hnr Ha st _ Hal Hf').
  rewrite selects_known.
  rewrite <- (frame_step_selected nsit nr avgs Hn Hnr Ha st _ Hal Hf).
  destruct (frame_step avgs (max_index nr) st f) as [st1|] eqn:E; simpl; [|reflexivity].
  apply IH; try assumption.
  refine (frame_step_pass_inv nsit avgs (max_index nr) Ha _ N st f st1 Hinv E).
  rewrite max_index_length. exact Hnr.
Qed.

(** Taking the entities without a site out of every frame leaves the
    outcome of the run as it was. *)
Lemma run_without_unknown self nsit n_dim traj frames :
  valid_configuration self ->
  slice_step (_stepsize self) traj = Ok frames ->
  Forall (valid_frame nsit n_dim) frames ->
  (0 < nsit)%nat ->
  (_get_descriptors self nsit n_dim (map (List.filter known) traj)).2
  = (_get_descriptors self nsit n_dim traj).2.
Proof.
  intros Hcfg Hslice Hv Hnsit.
  destruct (decide (frames = [])) as [->|Hne].
  { apply slice_step_nil_inv in Hslice as ->; [reflexivity|]. apply Hcfg. }
  pose proof (slice_step_fmap (List.filter known) _ _ _ Hslice) as Hslice'.
  assert (Hv' : Forall (valid_frame nsit n_dim) (map (List.filter known) frames)).
  { apply Forall_fmap. eapply Forall_impl; [exact Hv|]. intros f. apply known_valid. }
  assert (Hne' : map (List.filter known) frames <> []).
  { destruct frames; [congruence | discriminate]. }
  destruct (occupancy_spec nsit _ (valid_site_traj nsit n_dim frames Hv))
    as (counts & Hocc & Hlen & Hcounts).
  destruct (occupancy_spec nsit _ (valid_site_traj nsit n_dim _ Hv'))
    as (counts' & Hocc' & Hlen' & Hcounts').
  assert (Hc : counts' = counts).
  { apply list_eq. intros s. destruct (decide (s < nsit)%nat) as [Hs|Hs].
    - rewrite (Hcounts s Hs), (Hcounts' s Hs).
      rewrite <- !samples_length, samples_known. reflexivity.
    - rewrite !lookup_ge_None_2 by lia. reflexivity. }
  subst counts'.
  destruct (resolve_averaging self counts) as [lg [D|e]] eqn:Eres.
  2:{ (* the divisor candidate does not exist: both runs stop there *)
    unfold _get_descriptors, planning.
    change (slice_step (_stepsize self) (map (List.filter known) traj))
      with (@slice_step frame (_stepsize self) (map (List.filter known) traj)) in Hslice'.
    unfold frame in *.
    rewrite Hslice, Hslice'. cbn [lift mbindM].
    rewrite Hocc, Hocc'. cbn [lift mbindM app].
    rewrite Eres. reflexivity. }
  assert (HD : returns (resolve_averaging self counts) D)
    by (unfold returns; rewrite Eres; reflexivity).
  destruct (run_valid_at self nsit n_dim traj frames counts D
              Hcfg Hslice Hne Hnsit Hv Hocc HD)
    as (p & st & _ & Hp & Hnr & Hav & _).
  destruct (run_valid_at self nsit n_dim _ _ counts D
              Hcfg Hslice' Hne' Hnsit Hv' Hocc' HD)
    as (p' & st' & _ & Hp' & Hnr' & Hav' & _).
  assert (Hpp : p' = p).
  { clear Hp Hp'. destruct p, p'.
    simpl in Hnr, Hav, Hnr', Hav'. congruence. }
  subst p'.
  rewrite (get_descriptors_result self nsit n_dim _ _ p Hp').
  rewrite (get_descriptors_result self nsit n_dim _ _ p Hp).
  unfold accumulation.
  rewrite (accumulate_known nsit (nr_of_descs p) (averagings p)
             (Z.to_nat (np_sum (nr_of_descs p)))); [reflexivity|exact Hnsit| | | |].
  - rewrite Hnr, length_fmap. exact Hlen.
  - rewrite Hav, length_fmap. exact Hlen.
  - apply initial_pass_inv. rewrite Hnr, length_fmap. exact Hlen.
  - eapply Forall_impl; [exact Hv|]. intros f Hf.
    eapply Forall_impl; [exact Hf|]. intros q [Hq _]. exact Hq.
Qed.

(** X20: entities that are assigned to no site play no part: two
    trajectories that agree on the entities that have a site, frame by
    frame and in order, have the same outcome, descriptors and labels or
    exception, whatever they hold for the others. *)
Theorem unknown_entities_ignored self nsit n_dim traj1 traj2 frames1 frames2 :
  valid_configuration self ->
  (0 < nsit)%nat ->
  slice_step (_stepsize self) traj1 = Ok frames1 ->
  slice_step (_stepsize self) traj2 = Ok frames2 ->
  Forall (valid_frame nsit n_dim) frames1 ->
  Forall (valid_frame nsit n_dim) frames2 ->
  map (List.filter known) traj1 = map (List.filter known) traj2 ->
  (_get_descriptors self nsit n_dim traj1).2
  = (_get_descriptors self nsit n_dim traj2).2.
Proof.
  intros Hcfg Hnsit Hs1 Hs2 Hv1 Hv2 Heq.
  rewrite <- (run_without_unknown self nsit n_dim traj1 frames1 Hcfg Hs1 Hv1 Hnsit).
  rewrite <- (run_without_unknown self nsit n_dim traj2 frames2 Hcfg Hs2 Hv2 Hnsit).
  rewrite Heq. reflexivity.
Qed.

(** The run of [example_traj_five] with other vectors for the two
    entities that have no site. *)
Lemma unknown_entities_ignored_witness :
  (_get_descriptors (example_window 2) 1 1 example_traj_five).2
  = (_get_descriptors (example_window 2) 1 1
       [ [(0, [Fin 1])]; [(-1, [Fin 0])]; [(0, [Fin 3])]; [(0, [Fin 5])];
         [(-1, [Fin 2])]; [(0, [Fin 7])]; [(0, [Fin 11])] ]).2.
Proof.
  apply (unknown_entities_ignored (example_window 2) 1 1 example_traj_five
           [ [(0, [Fin 1])]; [(-1, [Fin 0])]; [(0, [Fin 3])]; [(0, [Fin 5])];
             [(-1, [Fin 2])]; [(0, [Fin 7])]; [(0, [Fin 11])] ]
           example_traj_five
           [ [(0, [Fin 1])]; [(-1, [Fin 0])]; [(0, [Fin 3])]; [(0, [Fin 5])];
             [(-1, [Fin 2])]; [(0, [Fin 7])]; [(0, [Fin 11])] ]).
  - split; [simpl; lia|]. left. exists 2. simpl. repeat split; lia.
  - lia.
  - reflexivity.
  - reflexivity.
  - repeat constructor; unfold valid_site, SITE_UNKNOWN; simpl; lia.
  - repeat constructor; unfold valid_site, SITE_UNKNOWN; simpl; lia.
  - reflexivity.
Defined.

(** ** A window of one *)

Lemma samples_width nsit n_dim (s : Z) (frames : list frame) :
  Forall (valid_frame nsit n_dim) frames ->
  Forall (fun v : vec => length v = n_dim) (samples s frames).
Proof.
  unfold samples. induction 1 as [|f rest Hf _ IH]; [constructor|].
  simpl. destruct (last_hit s f) as [v|] eqn:E; [|exact IH].
  constructor; [eapply last_hit_valid; eauto | exact IH].
Qed.

Lemma unit_mean_equiv (v : vec) : forall n,
  length v = n ->
  vec_equiv (vdiv (vadd (vzero n) v) 1) v.
Proof.
  unfold vec_equiv, vdiv, vadd, vzero.
  induction v as [|x v IH]; intros n Hn; simpl in Hn; subst n; simpl; [constructor|].
  constructor; [|apply IH; reflexivity].
  destruct x as [q|]; simpl; [|exact I].
  unfold Qeq. simpl. lia.
Qed.

Lemma window_one nsit n_dim (s : Z) (frames : list frame) (k : nat) v :
  Forall (valid_frame nsit n_dim) frames ->
  samples s frames !! k = Some v ->
  vec_equiv (window_mean n_dim 1 k (samples s frames)) v.
Proof.
  intros Hv Hk. unfold window_mean, vsum.
  rewrite Nat.mul_1_r.
  rewrite (drop_S _ _ _ Hk). cbn [take foldl].
  apply unit_mean_equiv.
  pose proof (samples_width nsit n_dim s frames Hv) as Hw.
  rewrite Forall_lookup in Hw. exact (Hw k v Hk).
Qed.

(** X22: with a divisor candidate of 1 nothing is averaged: an occupied
    site gets one row for each sampled frame in which it is occupied, and
    its rows are its raw samples, in frame order. *)
Theorem unit_window_returns_samples self nsit n_dim traj frames counts (s : nat) c :
  valid_configuration self ->
  slice_step (_stepsize self) traj = Ok frames ->
  Forall (valid_frame nsit n_dim) frames ->
  occupancy nsit (map (fun f : frame => f.*1) frames) = Ok counts ->
  returns (resolve_averaging self counts) 1 ->
  counts !! s = Some c ->
  0 < c ->
  exists (descs0 : list vec) (labels : list Z) p,
    returns (_get_descriptors self nsit n_dim traj) (descs0, labels)
    /\ returns (planning self nsit traj) (frames, p)
    /\ length (filter (fun l => l = Z.of_nat s) labels) = Z.to_nat c
    /\ length (samples (Z.of_nat s) frames) = Z.to_nat c
    /\ forall k, (k < Z.to_nat c)%nat ->
         exists row v,
           labels !! (base (nr_of_descs p) s + k)%nat = Some (Z.of_nat s)
           /\ descs0 !! (base (nr_of_descs p) s + k)%nat = Some row
           /\ samples (Z.of_nat s) frames !! k = Some v
           /\ vec_equiv row v.
Proof.
  intros Hcfg Hslice Hv Hocc HD Hc Hcpos.
  destruct (occupied_site_rows self nsit n_dim traj frames counts 1 s c
              Hcfg Hslice Hv Hocc HD Hc Hcpos)
    as (descs0 & labels & p & Hret & Hp & _ & Hn & Ha & Hlab & Hsam & Hrows).
  assert (Epc : planned_count 1 c = c).
  { unfold planned_count. rewrite Z.div_1_r. lia. }
  assert (Epd : planned_divisor 1 c = 1).
  { unfold planned_divisor. rewrite Z.div_1_r.
    destruct (Z.eqb_spec c 0); [lia | reflexivity]. }
  rewrite Epc, Epd in *.
  exists descs0, labels, p.
  do 2 (split; [assumption|]). split; [exact Hlab|]. split; [lia|].
  intros k Hk.
  destruct (Hrows k Hk) as (row & Hl & Hd & Heq).
  destruct (lookup_lt_is_Some_2 (samples (Z.of_nat s) frames) k ltac:(lia)) as [v Hvk].
  exists row, v. do 3 (split; [assumption|]).
  change (Z.to_nat 1) with 1%nat in Heq.
  pose proof (window_one nsit n_dim (Z.of_nat s) frames k v Hv Hvk) as Hw.
  clear - Heq Hw. unfold vec_equiv in *.
  revert Heq Hw. generalize (window_mean n_dim 1 k (samples (Z.of_nat s) frames)).
  intros w Hrw Hwv.
  revert v Hwv. induction Hrw as [|a b row w Hab _ IH]; intros v Hwv.
  - exact Hwv.
  - apply Forall2_cons_inv_l in Hwv as (x & v' & Hbx & Hwv & ->).
    constructor; [|apply IH; exact Hwv].
    destruct a, b, x; simpl in *; try contradiction; try exact I.
    rewrite Hab. exact Hbx.
Qed.

(** The site of [example_traj_five], a window of 1: the five samples. *)
Lemma unit_window_returns_samples_witness :
  exists (descs0 : list vec) (labels : list Z) p,
    returns (_get_descriptors (example_window 1) 1 1 example_traj_five) (descs0, labels)
    /\ returns (planning (example_window 1) 1 example_traj_five) (example_traj_five, p)
    /\ length (filter (fun l => l = Z.of_nat 0) labels) = Z.to_nat 5
    /\ length (samples (Z.of_nat 0) example_traj_five) = Z.to_nat 5
    /\ forall k, (k < Z.to_nat 5)%nat ->
         exists row v,
           labels !! (base (nr_of_descs p) 0 + k)%nat = Some (Z.of_nat 0)
           /\ descs0 !! (base (nr_of_descs p) 0 + k)%nat = Some row
           /\ samples (Z.of_nat 0) example_traj_five !! k = Some v
           /\ vec_equiv row v.
Proof.
  apply (unit_window_returns_samples (example_window 1) 1 1 example_traj_five
           example_traj_five [5] 0 5).
  - split; [simpl; lia|]. left. exists 1. simpl. repeat split; lia.
  - reflexivity.
  - repeat constructor; unfold valid_site, SITE_UNKNOWN; simpl; lia.
  - reflexivity.
  - reflexivity.
  - reflexivity.
  - lia.
Defined.

(** ** Construction with the base class of the source *)

Section Construction.
Variable atomic_numbers : gmap string Z.
Variable class_attr : string -> pyarg.


End Construction.

